(** * Tabu search: a shallow embedding of the search engine and its properties

    The development follows the Python sources:
    - [tsp/abc.py]                   ([BaseSolution], the single-objective driver),
    - [tsp/neighborhoods/swap.py]    (the segment-swap neighborhood),
    - [ts/abc/multi_ob/solutions.py] (the multi-objective driver),
    - [ts/d2d/solutions.py], [ts/d2d/errors.py] (the drone/technician problem).

    Python integers are [Z]; lists and tuples are [list]; an exception is a
    value of [exn] carried by the [res] monad.  Module [Tsp] has the path
    problem on distances that are integers, whose sums are exact; module
    [TspFloat] has the segment swap on distances that are floats, whose sums
    are rounded. *)

From Stdlib Require Import ZArith Lia Ascii String PrimFloat.
From stdpp Require Import base option list sorting gmap strings.

Local Open Scope Z_scope.

(** ** Exceptions and the result monad *)

Inductive exn : Type :=
  | IndexError
  | StopIteration
  | AttributeError
  | TypeError
  | ZeroDivisionError
  | OverflowError
  | OSError
  | ValueError (message : string)
  | ImportException (message : string)
  (** not an exception of Python: a loop of the model was given too little fuel *)
  | OutOfFuel.

Inductive res (A : Type) : Type :=
  | Ok (a : A)
  | Raise (e : exn).
Arguments Ok {A} a.
Arguments Raise {A} e.

#[global] Instance res_ret : MRet res := λ A a, Ok a.
#[global] Instance res_bind : MBind res := λ A B f m,
  match m with
  | Ok a => f a
  | Raise e => Raise e
  end.
#[global] Instance res_fmap : FMap res := λ A B f m,
  match m with
  | Ok a => Ok (f a)
  | Raise e => Raise e
  end.

Definition is_ok {A} (m : res A) : bool :=
  match m with Ok _ => true | Raise _ => false end.


(** ** Python sequences *)

Module Py.

(** [l[i]] for a Python list or tuple: a negative index counts from the
    end, anything outside [-len, len) raises [IndexError]. *)
Definition index {A} (l : list A) (i : Z) : res nat :=
  let n := Z.of_nat (length l) in
  if bool_decide (0 ≤ i < n) then Ok (Z.to_nat i)
  else if bool_decide (- n ≤ i < 0) then Ok (Z.to_nat (n + i))
  else Raise IndexError.

Definition getitem {A} (l : list A) (i : Z) : res A :=
  k ← index l i;
  match l !! k with
  | Some x => Ok x
  | None => Raise IndexError
  end.

(** [l[i] = x] *)
Definition setitem {A} (l : list A) (i : Z) (x : A) : res (list A) :=
  k ← index l i; Ok (<[k:=x]> l).

(** [range(n)]; empty when [n <= 0]. *)
Definition range (n : Z) : list Z := Z.of_nat <$> seq 0 (Z.to_nat n).

(** [range(a, b)] *)
Definition range_from (a b : Z) : list Z := (λ k, a + Z.of_nat k) <$> seq 0 (Z.to_nat (b - a)).

(** [l.insert(i, x)]: the position is clamped to the list, a negative one
    counts from the end. *)
Definition insert {A} (l : list A) (i : Z) (x : A) : list A :=
  let n := Z.of_nat (length l) in
  let i := if bool_decide (i < 0) then Z.max 0 (n + i) else Z.min i n in
  take (Z.to_nat i) l ++ x :: drop (Z.to_nat i) l.

(** [next(it)] for [it = itertools.cycle(xs)] with [n = len(xs)], the
    iterator being the number of values it has produced: the position in
    [xs] of the next value. *)
Definition cycle_next (n : nat) (it : nat) : res (Z * nat) :=
  if bool_decide (n = 0%nat) then Raise StopIteration
  else Ok (Z.of_nat (it `mod` n), S it).

(** [while cond(s): s = body(s)], run for at most [fuel] iterations. *)
Fixpoint while {S : Type} (fuel : nat) (cond : S → bool) (body : S → res S) (s : S) : res S :=
  if cond s then
    match fuel with
    | O => Raise OutOfFuel
    | Datatypes.S fuel' => s' ← body s; while fuel' cond body s'
    end
  else Ok s.

Section Min.
Context {A K : Type}.
Variable less : K → K → bool.
Variable key : A → res K.

(** [min(xs, key=key)] answers the first element whose key is smallest;
    [argmin] is its position in [xs] and [min_by] the element itself. *)
Fixpoint min_loop (xs : list A) (i : nat) (best : nat * A) (best_key : K) : res (nat * A) :=
  match xs with
  | [] => Ok best
  | x :: xs' =>
      k ← key x;
      if less k best_key
      then min_loop xs' (S i) (i, x) k
      else min_loop xs' (S i) best best_key
  end.

Definition argmin (xs : list A) : res (nat * A) :=
  match xs with
  | [] => Raise (ValueError "min() arg is an empty sequence")
  | x :: xs' => k ← key x; min_loop xs' 1 (0%nat, x) k
  end.

Definition min_by (xs : list A) : res A := snd <$> argmin xs.

End Min.

(** [for x in xs: s = body(x, s)], a loop without [break]. *)
Fixpoint for_each {X S : Type} (body : X → S → res S) (xs : list X) (s : S) : res S :=
  match xs with
  | [] => Ok s
  | x :: xs' => s' ← body x s; for_each body xs' s'
  end.

(** [enumerate(xs, start)] *)
Definition enumerate {A} (start : Z) (xs : list A) : list (Z * A) :=
  imap (λ k x, (start + Z.of_nat k, x)) xs.

End Py.

(** ** The solution interface and the single-objective driver: [tsp/abc.py] *)

Module Abc.

(** A Python class, as far as [isinstance] needs it: its name and the names
    of the classes it derives from. *)
Record Class : Type := {
  class_name : string;
  class_bases : list string;
}.

Definition issubclass (c d : Class) : bool :=
  bool_decide (class_name d ∈ class_name c :: class_bases c).

(** The value of a rich comparison method. *)
Inductive Comparison : Type :=
  | PyBool (b : bool)
  | NotImplemented.

Section BaseSolution.
Context {Object : Type}.
Variable type : Object → Class.
Variable cost : Object → Z.
Variable hash : Object → Z.

Definition isinstance (o : Object) (c : Class) : bool := issubclass (type o) c.

(** [BaseSolution.__eq__] *)
Definition __eq__ (self other : Object) : Comparison :=
  if isinstance other (type self)
  then PyBool (bool_decide (cost self = cost other))
  else NotImplemented.

(** [BaseSolution.__lt__] *)
Definition __lt__ (self other : Object) : Comparison :=
  if isinstance other (type self)
  then PyBool (bool_decide (cost self < cost other))
  else NotImplemented.

(** Membership in a Python [set]: an element with the same hash that
    compares equal. *)
Definition set_contains (s : list Object) (x : Object) : bool :=
  existsb (λ y, bool_decide (hash y = hash x)
                && match __eq__ y x with PyBool b => b | NotImplemented => false end) s.

(** [s.add(x)] *)
Definition set_add (s : list Object) (x : Object) : list Object :=
  if set_contains s x then s else s ++ [x].

End BaseSolution.

(** What a loop body asks for next. *)
Inductive flow (S : Type) : Type :=
  | Continue (s : S)
  | Break (s : S).
Arguments Continue {S} s.
Arguments Break {S} s.

(** [for x in xs: body], from state [s]. *)
Fixpoint for_loop {X S : Type} (body : X → S → res (flow S)) (xs : list X) (s : S) : res S :=
  match xs with
  | [] => Ok s
  | x :: xs' =>
      r ← body x s;
      match r with
      | Continue s' => for_loop body xs' s'
      | Break s' => Ok s'
      end
  end.

Section TabuSearch.
(** [Solution] is the concrete class [cls]; [World] is everything the
    problem-supplied methods may read and change besides their receiver
    (class-level tabu memories, the random generator). *)
Context {Solution Neighborhood World : Type}.
Variable cost : Solution → Z.
Variable initial : World → res (Solution * World).
Variable get_neighborhoods : Solution → list Neighborhood.
Variable find_best_candidate : Neighborhood → World → res (option Solution * World).
Variable shuffle : Solution → World → res (Solution * World).
Variable post_optimization : Solution → Solution.

(** [a < b] on two instances of [cls] *)
Definition lt (a b : Solution) : bool := bool_decide (cost a < cost b).

(** [min(a, b)]: the first of the smallest. *)
Definition min (a b : Solution) : Solution := if lt b a then b else a.

(** The local variables of [tabu_search] that live across iterations. *)
Record State : Type := {
  result : Solution;
  current : Solution;
  last_improved : Z;
  neighborhood_iterations : nat;
  world : World;
}.

(** The first part of the loop body, up to [result = min(result, current)]. *)
Definition improve (n : nat) (iteration : Z) (st : State) : res (flow State) :=
  let neighborhoods := get_neighborhoods (current st) in
  '(index, it) ← Py.cycle_next n (neighborhood_iterations st);
  neighborhood ← Py.getitem neighborhoods index;
  '(best_candidate, w) ← find_best_candidate neighborhood (world st);
  match best_candidate with
  | None =>
      Ok (Break {| result := result st; current := current st;
                   last_improved := last_improved st;
                   neighborhood_iterations := it; world := w |})
  | Some best_candidate =>
      let '(current, last_improved) :=
        if lt best_candidate (current st)
        then (best_candidate, iteration)
        else (current st, last_improved st) in
      Ok (Continue {| result := min (result st) current; current := current;
                      last_improved := last_improved;
                      neighborhood_iterations := it; world := w |})
  end.

(** The last statement of the loop body. *)
Definition diversify (shuffle_after : Z) (iteration : Z) (st : State) : res State :=
  if bool_decide (shuffle_after ≤ iteration - last_improved st) then
    '(shuffled, w) ← shuffle (current st) (world st);
    Ok {| result := result st; current := shuffled;
          last_improved := last_improved st;
          neighborhood_iterations := neighborhood_iterations st; world := w |}
  else Ok st.

Definition body (n : nat) (shuffle_after : Z) (iteration : Z) (st : State) : res (flow State) :=
  r ← improve n iteration st;
  match r with
  | Break st' => Ok (Break st')
  | Continue st' => st'' ← diversify shuffle_after iteration st'; Ok (Continue st'')
  end.

(** A run of the loop body over the iterations [xs] none of which leaves
    the loop, from one state to another, together with the values that
    [current] had at the successive statements [result = min(result, current)],
    the latest first. *)
Inductive run (n : nat) (shuffle_after : Z) : list Z → State → list Solution → State → Prop :=
  | run_nil st : run n shuffle_after [] st [] st
  | run_cons iteration xs st st1 st2 st3 seen :
      improve n iteration st = Ok (Continue st1) →
      diversify shuffle_after iteration st1 = Ok st2 →
      run n shuffle_after xs st2 seen st3 →
      run n shuffle_after (iteration :: xs) st (seen ++ [current st1]) st3.

(** The same run together with every value that [current] was bound to in
    its iterations, the latest first: in each iteration the value after the
    comparison with [best_candidate], then the value after the statement of
    the shuffle. *)
Inductive walk (n : nat) (shuffle_after : Z) : list Z → State → list Solution → State → Prop :=
  | walk_nil st : walk n shuffle_after [] st [] st
  | walk_cons iteration xs st st1 st2 st3 held :
      improve n iteration st = Ok (Continue st1) →
      diversify shuffle_after iteration st1 = Ok st2 →
      walk n shuffle_after xs st2 held st3 →
      walk n shuffle_after (iteration :: xs) st (held ++ [current st2; current st1]) st3.

(** The state on entry of the loop. *)
Definition enter (w : World) : res (nat * State) :=
  '(init, w) ← initial w;
  Ok (length (get_neighborhoods init),
      {| result := init; current := init; last_improved := 0;
         neighborhood_iterations := 0; world := w |}).

(** The state on exit of the loop. *)
Definition search (iterations_count shuffle_after : Z) (w : World) : res State :=
  '(n, st) ← enter w;
  for_loop (body n shuffle_after) (Py.range iterations_count) st.

(** [BaseSolution.tabu_search] *)
Definition tabu_search (iterations_count shuffle_after : Z) (w : World) : res Solution :=
  st ← search iterations_count shuffle_after w;
  Ok (post_optimization (result st)).

End TabuSearch.

End Abc.

(** ** The segment-swap neighborhood: [tsp/neighborhoods/swap.py] *)

Module Tsp.

(** Class-level problem data of [PathSolution]. *)
Record Problem : Type := {
  dimension : Z;
  distances : list (list Z);
}.

(** A path solution as [Swap.swap] builds it:
    [cls(after=after, before=before, cost=cost)]. *)
Record PathSolution : Type := {
  after : list Z;
  before : list Z;
  cost : Z;
}.

(** A move descriptor [(first_head, first_tail, second_head, second_tail)]. *)
Definition Move : Type := Z * Z * Z * Z.

Section Swap.
Variable P : Problem.

(** [solution.distances[i][j]] *)
Definition distance (i j : Z) : res Z :=
  row ← Py.getitem (distances P) i; Py.getitem row j.

(** [Swap.swap] *)
Definition swap (solution : PathSolution)
    (first_head first_tail second_head second_tail : Z) : res PathSolution :=
  let before := before solution in
  let after := after solution in
  a_st ← Py.getitem after second_tail;
  let '(first_head, first_tail, second_head, second_tail) :=
    if bool_decide (first_head = a_st)
    then (second_head, second_tail, first_head, first_tail)
    else (first_head, first_tail, second_head, second_tail) in
  b_sh ← Py.getitem before second_head;
  if bool_decide (first_tail = b_sh) then
    before_first ← Py.getitem before first_head;
    after_second ← Py.getitem after second_tail;
    p1 ← distance before_first second_head;
    p2 ← distance second_tail first_head;
    p3 ← distance first_tail after_second;
    m1 ← distance before_first first_head;
    m2 ← distance first_tail second_head;
    m3 ← distance second_tail after_second;
    let cost := cost solution + p1 + p2 + p3 - m1 - m2 - m3 in
    after ← Py.setitem after before_first second_head;
    before ← Py.setitem before second_head before_first;
    after ← Py.setitem after second_tail first_head;
    before ← Py.setitem before first_head second_tail;
    after ← Py.setitem after first_tail after_second;
    before ← Py.setitem before after_second first_tail;
    Ok {| after := after; before := before; cost := cost |}
  else
    before_first ← Py.getitem before first_head;
    before_second ← Py.getitem before second_head;
    after_first ← Py.getitem after first_tail;
    after_second ← Py.getitem after second_tail;
    p1 ← distance before_first second_head;
    p2 ← distance second_tail after_first;
    p3 ← distance before_second first_head;
    p4 ← distance first_tail after_second;
    m1 ← distance before_first first_head;
    m2 ← distance first_tail after_first;
    m3 ← distance before_second second_head;
    m4 ← distance second_tail after_second;
    let cost := cost solution + p1 + p2 + p3 + p4 - m1 - m2 - m3 - m4 in
    after ← Py.setitem after before_first second_head;
    before ← Py.setitem before second_head before_first;
    after ← Py.setitem after before_second first_head;
    before ← Py.setitem before first_head before_second;
    after ← Py.setitem after second_tail after_first;
    before ← Py.setitem before after_first second_tail;
    after ← Py.setitem after first_tail after_second;
    before ← Py.setitem before after_second first_tail;
    Ok {| after := after; before := before; cost := cost |}.

(** The two branches of [swap] on their own: the relinking of two adjacent
    segments with the three-edge formula, and of two segments apart with
    the four-edge formula. *)
Definition relink_adjacent (solution : PathSolution)
    (first_head first_tail second_head second_tail : Z) : res PathSolution :=
  let before := before solution in
  let after := after solution in
  before_first ← Py.getitem before first_head;
  after_second ← Py.getitem after second_tail;
  p1 ← distance before_first second_head;
  p2 ← distance second_tail first_head;
  p3 ← distance first_tail after_second;
  m1 ← distance before_first first_head;
  m2 ← distance first_tail second_head;
  m3 ← distance second_tail after_second;
  let cost := cost solution + p1 + p2 + p3 - m1 - m2 - m3 in
  after ← Py.setitem after before_first second_head;
  before ← Py.setitem before second_head before_first;
  after ← Py.setitem after second_tail first_head;
  before ← Py.setitem before first_head second_tail;
  after ← Py.setitem after first_tail after_second;
  before ← Py.setitem before after_second first_tail;
  Ok {| after := after; before := before; cost := cost |}.

Definition relink_apart (solution : PathSolution)
    (first_head first_tail second_head second_tail : Z) : res PathSolution :=
  let before := before solution in
  let after := after solution in
  before_first ← Py.getitem before first_head;
  before_second ← Py.getitem before second_head;
  after_first ← Py.getitem after first_tail;
  after_second ← Py.getitem after second_tail;
  p1 ← distance before_first second_head;
  p2 ← distance second_tail after_first;
  p3 ← distance before_second first_head;
  p4 ← distance first_tail after_second;
  m1 ← distance before_first first_head;
  m2 ← distance first_tail after_first;
  m3 ← distance before_second second_head;
  m4 ← distance second_tail after_second;
  let cost := cost solution + p1 + p2 + p3 + p4 - m1 - m2 - m3 - m4 in
  after ← Py.setitem after before_first second_head;
  before ← Py.setitem before second_head before_first;
  after ← Py.setitem after before_second first_head;
  before ← Py.setitem before first_head before_second;
  after ← Py.setitem after second_tail after_first;
  before ← Py.setitem before after_first second_tail;
  after ← Py.setitem after first_tail after_second;
  before ← Py.setitem before after_second first_tail;
  Ok {| after := after; before := before; cost := cost |}.

(** Modelled from the spec: [PathSolution.path] is not part of the
    sources at hand; it is the ordered sequence of location indices of the
    tour, read off the [after] linkage starting from location [0]. *)
Fixpoint follow (after : list Z) (current : Z) (steps : nat) : res (list Z) :=
  match steps with
  | O => Ok []
  | S steps' =>
      next ← Py.getitem after current;
      rest ← follow after next steps';
      Ok (current :: rest)
  end.

Definition path (solution : PathSolution) : res (list Z) :=
  follow (after solution) 0 (Z.to_nat (dimension P)).

(** Modelled from the spec: the cost of a tour recomputed in full from its
    encoding, the sum of [distances[i][after[i]]] over all locations. *)
Fixpoint recompute_from (i : Z) (after : list Z) : res Z :=
  match after with
  | [] => Ok 0
  | a :: after' =>
      d ← distance i a;
      r ← recompute_from (i + 1) after';
      Ok (d + r)
  end.

Definition recompute_cost (solution : PathSolution) : res Z :=
  recompute_from 0 (after solution).

(** [BaseSolution.__lt__] on two path solutions: comparison of costs. *)
Definition lt (a b : PathSolution) : bool := bool_decide (cost a < cost b).

(** *** Tabu memory *)

Record TabuMemory : Type := {
  _tabu_list : list Move;
  _tabu_set : gset Move;
}.

(** [deque()] and [set()] *)
Definition empty_tabu : TabuMemory := {| _tabu_list := []; _tabu_set := ∅ |}.

(** Modelled from the spec: [BasePathNeighborhood.add_to_tabu] is not part
    of the sources at hand.  Insertion appends to the sequence and adds to
    the set; insertion beyond the fixed capacity evicts the oldest entry
    from both views. *)
Definition add_to_tabu (maxlen : nat) (memory : TabuMemory) (target : Move) : TabuMemory :=
  let tabu_list := _tabu_list memory ++ [target] in
  let tabu_set := _tabu_set memory ∪ {[target]} in
  match tabu_list with
  | oldest :: rest =>
      if bool_decide (maxlen < length tabu_list)%nat
      then {| _tabu_list := rest; _tabu_set := tabu_set ∖ {[oldest]} |}
      else {| _tabu_list := tabu_list; _tabu_set := tabu_set |}
  | [] => {| _tabu_list := tabu_list; _tabu_set := tabu_set |}
  end.

(** The memory after the descriptors [ds] were inserted in this order into
    an empty one. *)
Definition inserted (maxlen : nat) (ds : list Move) : TabuMemory :=
  foldl (add_to_tabu maxlen) empty_tabu ds.

(** Membership query of the tabu memory. *)
Definition is_tabu (memory : TabuMemory) (target : Move) : bool :=
  bool_decide (target ∈ _tabu_set memory).

(** [Swap._maxlen] *)
Definition _maxlen : nat := 100.

(** *** [Swap.find_best_candidate] *)

Variables _first_length _second_length : Z.

(** [os.cpu_count() or 1]; [os.cpu_count()] is [None] or a number of
    processors. *)
Definition concurrency_of (cpu_count : option nat) : nat :=
  match cpu_count with
  | Some (S n) => S n
  | _ => 1%nat
  end.

(** The descriptor built in the body of the two nested loops. *)
Definition descriptor (solution : PathSolution) (first_head_index d : Z) : res Move :=
  let first_tail_index := (first_head_index + _first_length - 1) `mod` dimension P in
  let second_head_index := (first_tail_index + d + 1) `mod` dimension P in
  let second_tail_index := (second_head_index + _second_length - 1) `mod` dimension P in
  path ← path solution;
  first_head ← Py.getitem path first_head_index;
  first_tail ← Py.getitem path first_tail_index;
  second_head ← Py.getitem path second_head_index;
  second_tail ← Py.getitem path second_tail_index;
  Ok (first_head, first_tail, second_head, second_tail).

(** The pairs [(first_head_index, d)] in the order the loops visit them. *)
Definition offsets : list (Z * Z) :=
  first_head_index ← Py.range (dimension P);
  d ← Py.range (dimension P - _first_length - _second_length + 1);
  [(first_head_index, d)].

(** All descriptors, in enumeration order. *)
Definition enumerate (solution : PathSolution) : res (list Move) :=
  mapM (λ o, descriptor solution o.1 o.2) offsets.

(** [args[next(args_index_iteration)].data.append(arg)] for every
    descriptor: the [k]-th descriptor goes to shard [k mod concurrency]. *)
Fixpoint dispatch (concurrency : nat) (k : nat) (moves : list Move)
    (args : list (list Move)) : list (list Move) :=
  match moves with
  | [] => args
  | arg :: moves' =>
      dispatch concurrency (S k) moves'
        (alter (λ data, data ++ [arg]) (k `mod` concurrency)%nat args)
  end.

Definition shards (concurrency : nat) (moves : list Move) : list (list Move) :=
  dispatch concurrency 0 moves (replicate concurrency []).

(** [neighborhood.swap] applied to an unpacked descriptor *)
Definition swap_at (solution : PathSolution) (swap_ : Move) : res PathSolution :=
  let '(first_head, first_tail, second_head, second_tail) := swap_ in
  swap solution first_head first_tail second_head second_tail.

(** The loop of [Swap.static_find_best_candidate] over [bundle.data]. *)
Fixpoint static_loop (solution : PathSolution) (data : list Move)
    (result : option PathSolution) (min_swap : option Move)
    : res (option PathSolution * option Move) :=
  match data with
  | [] => Ok (result, min_swap)
  | swap_ :: data' =>
      swapped ← swap_at solution swap_;
      match result with
      | None => static_loop solution data' (Some swapped) (Some swap_)
      | Some r =>
          if lt swapped r
          then static_loop solution data' (Some swapped) (Some swap_)
          else static_loop solution data' result min_swap
      end
  end.

Definition static_find_best_candidate (solution : PathSolution) (data : list Move)
    : res (option PathSolution * option Move) :=
  static_loop solution data None None.

(** The reduction over the results of [pool.map], which come back in
    the order of [args]. *)
Fixpoint reduce (partial : list (option PathSolution * option Move))
    (result : option PathSolution) (min_swap : option Move)
    : option PathSolution * option Move :=
  match partial with
  | [] => (result, min_swap)
  | (Some result_temp, Some min_swap_temp) :: partial' =>
      match result with
      | None => reduce partial' (Some result_temp) (Some min_swap_temp)
      | Some r =>
          if lt result_temp r
          then reduce partial' (Some result_temp) (Some min_swap_temp)
          else reduce partial' result min_swap
      end
  | _ :: partial' => reduce partial' result min_swap
  end.

(** [Swap.find_best_candidate]: the candidate returned and the tabu
    memory of the class after the call. *)
Definition find_best_candidate (cpu_count : option nat) (solution : PathSolution)
    (memory : TabuMemory) : res (option PathSolution * TabuMemory) :=
  let concurrency := concurrency_of cpu_count in
  moves ← enumerate solution;
  let args := shards concurrency moves in
  partial ← mapM (static_find_best_candidate solution) args;
  let '(result, min_swap) := reduce partial None None in
  let memory :=
    match min_swap with
    | Some min_swap => add_to_tabu _maxlen memory min_swap
    | None => memory
    end in
  Ok (result, memory).

(** The entry of the distance table for two locations, [0] outside of it. *)
Definition dist (i j : Z) : Z :=
  default 0 (row ← distances P !! Z.to_nat i; row !! Z.to_nat j).

(** The sum of the distances from the locations [i], [i + 1], ... to the
    ones that [after] lists for them. *)
Fixpoint sum_from (i : Z) (after : list Z) : Z :=
  match after with
  | [] => 0
  | a :: after' => dist i a + sum_from (i + 1) after'
  end.

(** The location at position [k] of a path, positions counted round the tour. *)
Definition node (path : list Z) (k : Z) : Z :=
  default 0 (path !! Z.to_nat (k `mod` dimension P)).

(** A solution that encodes a tour over all locations of the problem: the
    distance table is square, the [after] and [before] tables have one
    entry in range per location, the path visits [dimension] different
    locations, and the two tables link every location of the path with the
    next one, the last one with the first. *)
Definition linked_at (solution : PathSolution) (path : list Z) (i : nat) : bool :=
  match path !! i, path !! (S i `mod` length path)%nat with
  | Some x, Some y =>
      bool_decide (0 ≤ x < dimension P)
      && bool_decide (after solution !! Z.to_nat x = Some y)
      && bool_decide (before solution !! Z.to_nat y = Some x)
  | _, _ => false
  end.

Definition well_formed (solution : PathSolution) : bool :=
  let n := Z.to_nat (dimension P) in
  bool_decide (length (distances P) = n)
  && forallb (λ row, bool_decide (length row = n)) (distances P)
  && bool_decide (length (after solution) = n)
  && bool_decide (length (before solution) = n)
  && forallb (λ a, bool_decide (0 ≤ a < dimension P)) (after solution)
  && match path solution with
     | Ok path => bool_decide (NoDup path) && forallb (linked_at solution path) (seq 0 n)
     | Raise _ => false
     end.

(** What the sharding is meant to compute, in the words of the
    specification: every enumerated move is evaluated in enumeration order
    and the cheapest candidate is kept, the earlier one among equals. *)
Fixpoint first_min (evaluated : list (PathSolution * Move)) : option (PathSolution * Move) :=
  match evaluated with
  | [] => None
  | x :: evaluated' =>
      match first_min evaluated' with
      | None => Some x
      | Some y => if bool_decide (cost x.1 ≤ cost y.1) then Some x else Some y
      end
  end.

Definition sequential_best (solution : PathSolution) : res (option (PathSolution * Move)) :=
  moves ← enumerate solution;
  evaluated ← mapM (λ m, swapped ← swap_at solution m; Ok (swapped, m)) moves;
  Ok (first_min evaluated).

(** The descriptors of [moves] that round-robin sharding hands to shard [j]
    of [concurrency], the first descriptor of [moves] being the [k]-th
    that is handed out. *)
Fixpoint picks (concurrency k : nat) (moves : list Move) (j : nat) : list Move :=
  match moves with
  | [] => []
  | m :: moves' =>
      if bool_decide ((k `mod` concurrency)%nat = j)
      then m :: picks concurrency (S k) moves' j
      else picks concurrency (S k) moves' j
  end.

(** [result], found by [min_swap], is a cheapest candidate among the
    moves of the set [among]; or there is no move and no result. *)
Definition cheapest (solution : PathSolution) (among : Move → Prop)
    (result : option PathSolution) (min_swap : option Move) : Prop :=
  match result, min_swap with
  | None, None => ∀ m, ¬ among m
  | Some best, Some m =>
      among m ∧ swap_at solution m = Ok best ∧
      ∀ m' candidate, among m' → swap_at solution m' = Ok candidate →
                      cost best ≤ cost candidate
  | _, _ => False
  end.

End Swap.

End Tsp.

(** ** The segment swap on floats

    [Swap.swap] as in module [Tsp], for a problem whose distances, and so
    its costs, are floats (binary64): every sum is rounded. *)

Module TspFloat.

Record Problem : Type := {
  dimension : Z;
  distances : list (list float);
}.

Record PathSolution : Type := {
  after : list Z;
  before : list Z;
  cost : float;
}.

Section Swap.
Variable P : Problem.

(** [solution.distances[i][j]] *)
Definition distance (i j : Z) : res float :=
  row ← Py.getitem (distances P) i; Py.getitem row j.

(** [Swap.swap] *)
Definition swap (solution : PathSolution)
    (first_head first_tail second_head second_tail : Z) : res PathSolution :=
  let before := before solution in
  let after := after solution in
  a_st ← Py.getitem after second_tail;
  let '(first_head, first_tail, second_head, second_tail) :=
    if bool_decide (first_head = a_st)
    then (second_head, second_tail, first_head, first_tail)
    else (first_head, first_tail, second_head, second_tail) in
  b_sh ← Py.getitem before second_head;
  if bool_decide (first_tail = b_sh) then
    before_first ← Py.getitem before first_head;
    after_second ← Py.getitem after second_tail;
    p1 ← distance before_first second_head;
    p2 ← distance second_tail first_head;
    p3 ← distance first_tail after_second;
    m1 ← distance before_first first_head;
    m2 ← distance first_tail second_head;
    m3 ← distance second_tail after_second;
    let cost := (cost solution + p1 + p2 + p3 - m1 - m2 - m3)%float in
    after ← Py.setitem after before_first second_head;
    before ← Py.setitem before second_head before_first;
    after ← Py.setitem after second_tail first_head;
    before ← Py.setitem before first_head second_tail;
    after ← Py.setitem after first_tail after_second;
    before ← Py.setitem before after_second first_tail;
    Ok {| after := after; before := before; cost := cost |}
  else
    before_first ← Py.getitem before first_head;
    before_second ← Py.getitem before second_head;
    after_first ← Py.getitem after first_tail;
    after_second ← Py.getitem after second_tail;
    p1 ← distance before_first second_head;
    p2 ← distance second_tail after_first;
    p3 ← distance before_second first_head;
    p4 ← distance first_tail after_second;
    m1 ← distance before_first first_head;
    m2 ← distance first_tail after_first;
    m3 ← distance before_second second_head;
    m4 ← distance second_tail after_second;
    let cost := (cost solution + p1 + p2 + p3 + p4 - m1 - m2 - m3 - m4)%float in
    after ← Py.setitem after before_first second_head;
    before ← Py.setitem before second_head before_first;
    after ← Py.setitem after before_second first_head;
    before ← Py.setitem before first_head before_second;
    after ← Py.setitem after second_tail after_first;
    before ← Py.setitem before after_first second_tail;
    after ← Py.setitem after first_tail after_second;
    before ← Py.setitem before after_second first_tail;
    Ok {| after := after; before := before; cost := cost |}.

(** Modelled from the spec: the cost of a tour recomputed in full from its
    encoding, the distances [distances[i][after[i]]] of the locations
    [i = 0, 1, ...] added up in this order, from [0.0]. *)
Fixpoint recompute_from (i : Z) (after : list Z) (total : float) : res float :=
  match after with
  | [] => Ok total
  | a :: after' =>
      d ← distance i a;
      recompute_from (i + 1) after' (total + d)%float
  end.

Definition recompute_cost (solution : PathSolution) : res float :=
  recompute_from 0 (after solution) 0%float.

End Swap.

End TspFloat.


(** ** The multi-objective driver: [ts/abc/multi_ob/solutions.py] *)

Module MultiOb.

Section Sets.
Context {Solution : Type}.
Variable cost : Solution → list Z.

(** Modelled from the spec: the comparison and hash methods of
    [MultiObjectiveSolution] come from [_BaseSolution] and
    [BaseMulticostComparison], which are not part of the sources at hand.
    A set of solutions dedupes on cost, not on structure; it is kept here
    as the list of its members, in the order the set is iterated. *)
Definition same (a b : Solution) : bool := bool_decide (cost a = cost b).

Definition contains (s : list Solution) (x : Solution) : bool := existsb (same x) s.

(** [s.add(x)] *)
Definition add (s : list Solution) (x : Solution) : list Solution :=
  if contains s x then s else s ++ [x].

(** [s.remove(x)] *)
Definition remove (s : list Solution) (x : Solution) : list Solution :=
  filter (λ y, same x y = false) s.

(** [set(xs)] *)
Definition of_list (xs : list Solution) : list Solution := foldl add [] xs.

(** Modelled from the spec: [a] dominates [b] iff it is at most [b] in
    every objective and less in at least one. *)
Definition dominates (a b : list Z) : bool :=
  forallb (λ p, bool_decide (p.1 ≤ p.2)) (zip a b)
  && existsb (λ p, bool_decide (p.1 < p.2)) (zip a b).

(** Modelled from the spec: [add_to_pareto_set] comes from
    [BaseMulticostComparison], which is not part of the sources at hand.
    A candidate that some member dominates is rejected; otherwise it is
    inserted and every member it dominates is removed.  The answer tells
    whether the candidate was admitted. *)
Definition add_to_pareto_set (candidate : Solution) (front : list Solution)
    : bool * list Solution :=
  if existsb (λ member, dominates (cost member) (cost candidate)) front
  then (false, front)
  else (true, add (filter (λ member, dominates (cost candidate) (cost member) = false) front)
                  candidate).

End Sets.

(** The [max_propagation] argument: [None], an integer or a function of
    the current Pareto front. *)
Inductive MaxPropagation (Solution : Type) : Type :=
  | Unbounded
  | Fixed (n : Z)
  | Computed (f : list Solution → Z).
Arguments Unbounded {Solution}.
Arguments Fixed {Solution} n.
Arguments Computed {Solution} f.

(** What the plotting hook draws: the costs found and the costs of the front. *)
Record Plot : Type := {
  found : list (Z * Z);
  front : list (Z * Z);
}.

Section TabuSearch.
Context {Solution Neighborhood World : Type}.
Variable cost : Solution → list Z.
Variable initial : World → res (Solution * World).
Variable get_neighborhoods : Solution → list Neighborhood.
Variable find_best_candidates : Neighborhood → World → res (list Solution * World).
Variable add_to_pareto_set : Solution → list Solution → bool * list Solution.
Variable shuffle : Solution → World → res (Solution * World).
Variable post_optimization : Solution → World → res (Solution * World).
(** The random generator of the [random] module: the next number drawn. *)
Variable random : World → nat * World.

(** [random.choice(seq)] *)
Definition choice {A} (seq : list A) (w : World) : res (A * World) :=
  match seq with
  | [] => Raise IndexError
  | _ =>
      let '(r, w) := random w in
      x ← Py.getitem seq (Z.of_nat (r `mod` length seq)); Ok (x, w)
  end.

(** [random.sample(population, k)]: [k] members drawn without replacement. *)
Fixpoint draw {A} (population : list A) (k : nat) (w : World) : list A * World :=
  match k with
  | O => ([], w)
  | S k' =>
      let '(r, w) := random w in
      let i := (r `mod` length population)%nat in
      match population !! i with
      | Some x =>
          let '(xs, w) := draw (delete i population) k' w in (x :: xs, w)
      | None => ([], w)
      end
  end.

Definition sample {A} (population : list A) (k : Z) (w : World) : res (list A * World) :=
  if bool_decide (0 ≤ k ≤ Z.of_nat (length population))
  then Ok (draw population (Z.to_nat k) w)
  else Raise (ValueError "Sample larger than population or is negative").

(** The local variables of [tabu_search] that live across iterations. *)
Record State : Type := {
  results : list Solution;
  current : list Solution;
  candidate_costs : option (list (list Z));
  last_improved : Z;
  world : World;
}.

(** The variables the candidate loops update. *)
Record Exploration : Type := {
  propagate : list Solution;
  front_ : list Solution;
  costs_ : option (list (list Z));
  world_ : World;
}.

(** The body of [for candidate in ....find_best_candidates(...)]. *)
Definition consider (propagation_predicate : Solution → list Solution → bool)
    (candidate : Solution) (e : Exploration) : Exploration :=
  let costs := (λ cs, cs ++ [cost candidate]) <$> costs_ e in
  let '(admitted, front) := add_to_pareto_set candidate (front_ e) in
  let staged := admitted || propagation_predicate candidate front in
  {| propagate := if staged then propagate e ++ [candidate] else propagate e;
     front_ := front; costs_ := costs; world_ := world_ e |}.

(** The body of [for solution in current]. *)
Definition visit (propagation_predicate : Solution → list Solution → bool)
    (solution : Solution) (e : Exploration) : res (Abc.flow Exploration) :=
  let neighborhoods := get_neighborhoods solution in
  '(neighborhood, w) ← choice neighborhoods (world_ e);
  '(candidates, w) ← find_best_candidates neighborhood w;
  Ok (Abc.Continue
        (foldl (λ e candidate, consider propagation_predicate candidate e)
               {| propagate := propagate e; front_ := front_ e;
                  costs_ := costs_ e; world_ := w |}
               candidates)).

(** First part of an iteration: the candidates staged for propagation. *)
Definition explore (propagation_predicate : Solution → list Solution → bool)
    (st : State) : res Exploration :=
  Abc.for_loop (visit propagation_predicate) (current st)
    {| propagate := []; front_ := results st;
       costs_ := candidate_costs st; world_ := world st |}.

(** [for candidate in propagate: current.add(candidate); last_improved = iteration] *)
Definition stage (iteration : Z) (propagate : list Solution)
    (current : list Solution) (last_improved : Z) : list Solution * Z :=
  foldl (λ '(current, _) candidate, (add cost current candidate, iteration))
        (current, last_improved) propagate.

(** The working-set bound. *)
Definition bound (max_propagation : MaxPropagation Solution)
    (results current : list Solution) (w : World) : res (list Solution * World) :=
  let trim (max_propagation_value : Z) :=
    let remove_count := Z.of_nat (length current) - max_propagation_value in
    if bool_decide (0 < remove_count) then
      '(chosen, w) ← sample current remove_count w;
      Ok (foldl (remove cost) current chosen, w)
    else Ok (current, w) in
  match max_propagation with
  | Unbounded => Ok (current, w)
  | Fixed n => trim n
  | Computed f => trim (f results)
  end.

(** [set(s.shuffle(use_tqdm=use_tqdm) for s in current)] and its like. *)
Fixpoint set_map (f : Solution → World → res (Solution * World))
    (s : list Solution) (acc : list Solution) (w : World) : res (list Solution * World) :=
  match s with
  | [] => Ok (acc, w)
  | x :: s' => '(y, w) ← f x w; set_map f s' (add cost acc y) w
  end.

(** The diversification at the end of an iteration. *)
Definition diversify (shuffle_after iteration last_improved : Z)
    (current : list Solution) (w : World) : res (list Solution * World) :=
  if bool_decide (shuffle_after ≤ iteration - last_improved)
  then set_map shuffle current [] w
  else Ok (current, w).

(** One iteration of the loop. *)
Definition body (propagation_predicate : Solution → list Solution → bool)
    (shuffle_after : Z) (max_propagation : MaxPropagation Solution)
    (iteration : Z) (st : State) : res (Abc.flow State) :=
  e ← explore propagation_predicate st;
  let '(current, last_improved) :=
    stage iteration (propagate e) (current st) (last_improved st) in
  '(current, w) ← bound max_propagation (front_ e) current (world_ e);
  '(current, w) ← diversify shuffle_after iteration last_improved current w;
  Ok (Abc.Continue {| results := front_ e; current := current;
                      candidate_costs := costs_ e;
                      last_improved := last_improved; world := w |}).

(** The statements before the loop. *)
Definition enter (plot_pareto_front : bool) (w : World) : res State :=
  '(initial, w) ← initial w;
  let results := add cost [] initial in
  let current := results in
  let candidate_costs := if plot_pareto_front then Some [cost initial] else None in
  if bool_decide (length (cost initial) ≠ 2%nat) then
    Raise (ValueError "Cannot plot the Pareto front when the number of objectives is not 2")
  else
    Ok {| results := results; current := current;
          candidate_costs := candidate_costs; last_improved := 0; world := w |}.

(** The two coordinates the plot reads off a cost. *)
Definition point (cost : list Z) : res (Z * Z) :=
  a ← Py.getitem cost 0; b ← Py.getitem cost 1; Ok (a, b).

Definition plot (st : State) : res (option Plot) :=
  match candidate_costs st with
  | None => Ok None
  | Some costs =>
      found ← mapM point costs;
      front ← mapM (λ r, point (cost r)) (results st);
      Ok (Some {| found := found; front := front |})
  end.

(** [MultiObjectiveSolution.tabu_search] *)
Definition tabu_search (iterations_count : Z)
    (propagation_predicate : Solution → list Solution → bool)
    (shuffle_after : Z) (max_propagation : MaxPropagation Solution)
    (plot_pareto_front : bool) (w : World) : res (list Solution * option Plot) :=
  st ← enter plot_pareto_front w;
  st ← Abc.for_loop (body propagation_predicate shuffle_after max_propagation)
         (Py.range iterations_count) st;
  drawn ← plot st;
  '(front, _) ← set_map post_optimization (results st) [] (world st);
  Ok (front, drawn).

End TabuSearch.

(** [_accept_all] *)
Definition _accept_all {Solution : Type} (_ : Solution) (_ : list Solution) : bool := true.

End MultiOb.

(** ** The drone and technician problem: [ts/d2d/] *)

Module D2D.

(** [DroneEnergyConsumptionMode]; the enumeration itself is declared in
    [ts/d2d/config.py]. *)
Inductive DroneEnergyConsumptionMode : Type :=
  | LINEAR
  | NON_LINEAR
  | ENDURANCE.

#[global] Instance mode_eq_dec : EqDecision DroneEnergyConsumptionMode.
Proof. solve_decision. Defined.

(** The six groups of one match of the customer line pattern. *)
Definition Row : Type := string * string * string * string * string * string.

(** The customers of a path: its stops other than the depot [0]; the
    customers of the paths of a technician, or of the flights of one drone;
    and the customers of the flights of all drones. *)
Definition stops (path : list Z) : list Z := filter (λ x, x ≠ 0) path.
Definition visits (paths : list (list Z)) : list Z := concat (stops <$> paths).
Definition fleet_visits (drone_paths : list (list (list Z))) : list Z :=
  concat (visits <$> drone_paths).

(** How often a customer is served by the routes listed. *)
Definition occurrences (c : Z) (stops : list Z) : nat := length (filter (λ x, x = c) stops).

(** A path that begins and ends at the depot. *)
Definition round_trip (path : list Z) : Prop := head path = Some 0 ∧ last path = Some 0.

Section D2DPathSolution.
(** Python floats and the operations on them that the class uses. *)
Context {float : Type}.
Variable fzero : float.
Variables fadd fsub fmul : float → float → float.
Variable fdiv : float → float → res float.
(** [a ** 2], which raises [OverflowError] when the square of a finite
    float is out of range, and [sqrt] on the sum of two squares. *)
Variable fsquare : float → res float.
Variable fsqrt : float → float.
Variables fle flt : float → float → bool.
(** [float(s)] on a string and on an integer *)
Variable float_of_string : string → res float.
(** The truck and endurance configurations, which [initial] and
    [import_problem] only store. *)
Context {TruckConfig DroneEnduranceConfig : Type}.

(** What the class reads of a [DroneLinearConfig] or [DroneNonlinearConfig],
    which are declared in [ts/d2d/config.py]: six numbers and three methods
    that answer the power for a weight, or raise. *)
Record DroneConfig : Type := {
  altitude : float;
  takeoff_speed : float;
  landing_speed : float;
  cruise_speed : float;
  capacity : float;
  battery : float;
  takeoff_power : float → res float;
  landing_power : float → res float;
  cruise_power : float → res float;
}.

(** The values bound to the class attributes of [D2DPathSolution]. *)
Inductive Value : Type :=
  | VNone
  | VBool (b : bool)
  | VInt (n : Z)
  | VFloat (f : float)
  | VStr (s : string)
  | VFloats (t : list float)
  | VBools (t : list bool)
  | VMode (m : DroneEnergyConsumptionMode)
  | VTruck (c : TruckConfig)
  | VDrones (t : list DroneConfig)
  | VEndurance (t : list DroneEnduranceConfig).

(** The class namespace: attribute name to value. *)
Definition Namespace : Type := gmap string Value.

(** The class body: [__config_imported = False] and [problem = None]. *)
Definition class_body : Namespace :=
  <["problem" := VNone]> (<["_D2DPathSolution__config_imported" := VBool false]> ∅).

(** Statements that read and assign class attributes and may raise. *)
Definition M (A : Type) : Type := Namespace → Namespace * res A.

Definition ret {A} (a : A) : M A := λ cls, (cls, Ok a).
Definition bind {A B} (m : M A) (f : A → M B) : M B := λ cls,
  match m cls with
  | (cls', Ok a) => f a cls'
  | (cls', Raise e) => (cls', Raise e)
  end.
Definition lift {A} (r : res A) : M A := λ cls, (cls, r).

(** [cls.name] *)
Definition getattr (name : string) : M Value := λ cls,
  (cls, match cls !! name with Some v => Ok v | None => Raise AttributeError end).

(** [cls.name = v] *)
Definition setattr (name : string) (v : Value) : M unit := λ cls,
  (<[name := v]> cls, Ok ()).

(** [try: m except Exception as e: raise handler(e)] *)
Definition try_except {A} (m : M A) (handler : exn → exn) : M A := λ cls,
  match m cls with
  | (cls', Ok a) => (cls', Ok a)
  | (cls', Raise e) => (cls', Raise (handler e))
  end.

(** [bool(v)] *)
Definition truth (v : Value) : bool :=
  match v with
  | VNone => false
  | VBool b => b
  | VInt n => negb (bool_decide (n = 0))
  | VStr s => negb (bool_decide (s = ""))
  | VFloats t => negb (bool_decide (length t = 0%nat))
  | VBools t => negb (bool_decide (length t = 0%nat))
  | VDrones t => negb (bool_decide (length t = 0%nat))
  | VEndurance t => negb (bool_decide (length t = 0%nat))
  | _ => true
  end.

(** *** [import_problem] *)

(** The environment of [import_problem]: the files it opens, the
    configuration loaders of [ts/d2d/config.py], [repr] on strings, and the
    matches of the customer line pattern of [re.finditer] in a text. *)
Variable read : string → res string.
Variable TruckConfig_import_data : res TruckConfig.
Variable DroneLinearConfig_import_data : res (list DroneConfig).
Variable DroneNonlinearConfig_import_data : res (list DroneConfig).
Variable DroneEnduranceConfig_import_data : res (list DroneEnduranceConfig).
Variable repr : string → string.
Variable finditer : string → list Row.

(** [ImportException.__init__] *)
Definition import_exception (problem : string) : exn :=
  ImportException ("Unable to import problem " +:+ repr problem).

(** [import_config] *)
Definition import_config : M unit :=
  bind (lift TruckConfig_import_data) (λ t,
  bind (setattr "truck_config" (VTruck t)) (λ _,
  bind (lift DroneLinearConfig_import_data) (λ l,
  bind (setattr "drone_linear_config" (VDrones l)) (λ _,
  bind (lift DroneNonlinearConfig_import_data) (λ n,
  bind (setattr "drone_nonlinear_config" (VDrones n)) (λ _,
  bind (lift DroneEnduranceConfig_import_data) (λ e,
  setattr "drone_endurance_config" (VEndurance e)))))))).

(** [join("problems", "d2d", "random_data", name)] on a POSIX system: an
    absolute last component discards the ones before it. *)
Definition join (name : string) : string :=
  match name with
  | String "/"%char _ => name
  | _ => "problems/d2d/random_data/" +:+ name
  end.

Definition is_digit (c : ascii) : bool :=
  (48 <=? nat_of_ascii c)%nat && (nat_of_ascii c <=? 57)%nat.

(** The longest run of digits at the start of a text. *)
Fixpoint digits (s : string) : string :=
  match s with
  | String c s' => if is_digit c then String c (digits s') else ""
  | EmptyString => ""
  end.

(** The text after a prefix, if it starts with it. *)
Fixpoint after_prefix (prefix s : string) : option string :=
  match prefix, s with
  | EmptyString, _ => Some s
  | String a prefix', String b s' =>
      if bool_decide (a = b) then after_prefix prefix' s' else None
  | String _ _, EmptyString => None
  end.

(** [re.search(literal + "(\d+)", data)]: group 1 of the leftmost match,
    on texts of ASCII characters. *)
Fixpoint search (literal data : string) : option string :=
  let here :=
    match after_prefix literal data with
    | Some rest => match digits rest with EmptyString => None | ds => Some ds end
    | None => None
    end in
  match here, data with
  | Some ds, _ => Some ds
  | None, String _ data' => search literal data'
  | None, EmptyString => None
  end.

(** [m.group(1)] on the answer of [re.search], which is [None] without a match. *)
Definition group1 (m : option string) : res string :=
  match m with
  | Some g => Ok g
  | None => Raise AttributeError
  end.

(** [int(s)] on a run of digits *)
Definition int (s : string) : Z :=
  foldl (λ n c, 10 * n + (Z.of_nat (nat_of_ascii c) - 48)) 0 (list_ascii_of_string s).

(** The six local lists filled from the customer lines. *)
Record Tables : Type := {
  cls_x : list float;
  cls_y : list float;
  cls_demands : list float;
  cls_dronable : list bool;
  cls_technician_service_time : list float;
  cls_drone_service_time : list float;
}.

(** The loop over the matches of the customer line pattern. *)
Fixpoint read_rows (rows : list Row) (t : Tables) : res Tables :=
  match rows with
  | [] => Ok t
  | (x, y, demand, technician_only, technician_service_time, drone_service_time) :: rows' =>
      x ← float_of_string x;
      y ← float_of_string y;
      demand ← float_of_string demand;
      let dronable := bool_decide (technician_only = "0") in
      technician_service_time ← float_of_string technician_service_time;
      drone_service_time ← float_of_string drone_service_time;
      read_rows rows'
        {| cls_x := cls_x t ++ [x];
           cls_y := cls_y t ++ [y];
           cls_demands := cls_demands t ++ [demand];
           cls_dronable := cls_dronable t ++ [dronable];
           cls_technician_service_time := cls_technician_service_time t ++ [technician_service_time];
           cls_drone_service_time := cls_drone_service_time t ++ [drone_service_time] |}
  end.

(** The body of the [try] statement. *)
Definition import_problem_try (problem : string) (energy_mode : DroneEnergyConsumptionMode) : M unit :=
  let path := join (problem +:+ ".txt") in
  bind (lift (read path)) (λ data,
  bind (setattr "problem" (VStr problem)) (λ _,
  bind (lift (group1 (search "Customers " data))) (λ g,
  bind (setattr "customers_count" (VInt (int g))) (λ _,
  bind (lift (group1 (search "number_drone " data))) (λ g,
  bind (setattr "drones_count" (VInt (int g))) (λ _,
  bind (lift (group1 (search "number_drone " data))) (λ g,
  bind (setattr "technicians_count" (VInt (int g))) (λ _,
  bind (lift (g ← group1 (search "droneLimitationFightTime(s) " data); float_of_string g)) (λ f,
  bind (setattr "drones_flight_duration" (VFloat f)) (λ _,
  bind (lift (read_rows (finditer data)
                {| cls_x := [fzero]; cls_y := [fzero]; cls_demands := [fzero];
                   cls_dronable := [true];
                   cls_technician_service_time := [fzero];
                   cls_drone_service_time := [fzero] |})) (λ t,
  bind (setattr "x" (VFloats (cls_x t))) (λ _,
  bind (setattr "y" (VFloats (cls_y t))) (λ _,
  bind (setattr "demands" (VFloats (cls_demands t))) (λ _,
  bind (setattr "dronable" (VBools (cls_dronable t))) (λ _,
  bind (setattr "technician_service_time" (VFloats (cls_technician_service_time t))) (λ _,
  bind (setattr "drone_service_time" (VFloats (cls_drone_service_time t))) (λ _,
  setattr "energy_mode" (VMode energy_mode)))))))))))))))))).

(** The statements before the [try] statement. *)
Definition ensure_config : M unit :=
  bind (getattr "_D2DPathSolution__config_imported") (λ imported,
  if truth imported then ret ()
  else bind import_config (λ _,
       setattr "_D2DPathSolution__config_imported" (VBool true))).

(** [D2DPathSolution.import_problem] *)
Definition import_problem (problem : string) (energy_mode : DroneEnergyConsumptionMode) : M unit :=
  bind ensure_config (λ _,
  try_except (import_problem_try problem energy_mode) (λ _, import_exception problem)).

(** The class attributes that hold the tables of the problem and the
    energy mode, and the ones that hold its name and its scalars. *)
Definition tables : list string :=
  ["x"; "y"; "demands"; "dronable"; "technician_service_time";
   "drone_service_time"; "energy_mode"].

Definition scalars : list string :=
  ["problem"; "customers_count"; "drones_count"; "technicians_count";
   "drones_flight_duration"].

(** The class attributes that the statements before the [try] statement
    assign: the four configurations and the flag. *)
Definition configuration : list string :=
  ["truck_config"; "drone_linear_config"; "drone_nonlinear_config";
   "drone_endurance_config"; "_D2DPathSolution__config_imported"].

(** *** [initial] *)

(** Reading a class attribute as a value of the type its annotation gives. *)
Definition attr (cls : Namespace) (name : string) : res Value :=
  match cls !! name with
  | Some v => Ok v
  | None => Raise AttributeError
  end.

Definition attr_int (cls : Namespace) (name : string) : res Z :=
  v ← attr cls name; match v with VInt n => Ok n | _ => Raise TypeError end.

Definition attr_float (cls : Namespace) (name : string) : res float :=
  v ← attr cls name; match v with VFloat f => Ok f | _ => Raise TypeError end.

Definition attr_floats (cls : Namespace) (name : string) : res (list float) :=
  v ← attr cls name; match v with VFloats t => Ok t | _ => Raise TypeError end.

Definition attr_bools (cls : Namespace) (name : string) : res (list bool) :=
  v ← attr cls name; match v with VBools t => Ok t | _ => Raise TypeError end.

Definition attr_drones (cls : Namespace) (name : string) : res (list DroneConfig) :=
  v ← attr cls name; match v with VDrones t => Ok t | _ => Raise TypeError end.

(** [D2DPathSolution.distance] *)
Definition distance (cls : Namespace) (first second : Z) : res float :=
  x ← attr_floats cls "x";
  x1 ← Py.getitem x first;
  x2 ← Py.getitem x second;
  dx ← fsquare (fsub x1 x2);
  y ← attr_floats cls "y";
  y1 ← Py.getitem y first;
  y2 ← Py.getitem y second;
  dy ← fsquare (fsub y1 y2);
  Ok (fsqrt (fadd dx dy)).

(** A set of integers is the list of its members in the order in which
    the set is iterated, which is the order of the slots of its hash table.
    [slot elements e] is the slot that [e] went to in [set(elements)], built
    by adding the different integers [elements] in the order listed; this
    order need not be ascending (the set built from 1 and 8 is iterated as
    8, 1). *)
Variable slot : list Z → Z → Z.

Definition set_of (elements : list Z) : list Z :=
  merge_sort (λ a b, slot elements a ≤ slot elements b)
    (H := λ a b, decide (slot elements a ≤ slot elements b)) elements.

(** [set(e for e in range(1, 1 + cls.customers_count) if keep(cls.dronable[e]))] *)
Definition customers (cls : Namespace) (keep : bool → bool) : res (list Z) :=
  customers_count ← attr_int cls "customers_count";
  members ← foldr (λ e rest,
                     dronable ← attr_bools cls "dronable";
                     d ← Py.getitem dronable e;
                     rest ← rest;
                     Ok (if keep d then e :: rest else rest))
                  (Ok []) (Py.range_from 1 (1 + customers_count));
  Ok (set_of members).

(** [s.remove(x)] on a set that holds [x]: the other members stay in their
    slots, and so in their order. *)
Definition discard (s : list Z) (x : Z) : list Z := filter (λ y, y ≠ x) s.

(** The variables of the first [while] loop. *)
Record Technicians : Type := {
  technician_paths : list (list Z);
  technician_only : list Z;
  technician_iter : nat;
}.

(** The body of [while len(technician_only) > 0]. *)
Definition technician_step (cls : Namespace) (st : Technicians) : res Technicians :=
  '(k, it) ← Py.cycle_next (length (technician_paths st)) (technician_iter st);
  path ← Py.getitem (technician_paths st) k;
  last ← Py.getitem path (-1);
  index ← Py.min_by flt (distance cls last) (technician_only st);
  Ok {| technician_paths := <[Z.to_nat k := path ++ [index]]> (technician_paths st);
        technician_only := discard (technician_only st) index;
        technician_iter := it |}.

(** The variables of the second [while] loop. *)
Record Drones : Type := {
  drone_paths : list (list (list Z));
  technician_paths' : list (list Z);
  weight : list float;
  time : list float;
  energy : list float;
  dronable : list Z;
  drone_iter : nat;
}.

(** The body of [while len(dronable) > 0]. *)
Definition drone_step (cls : Namespace) (drones_count : Z) (st : Drones) : res Drones :=
  '(drone, it) ← Py.cycle_next (Z.to_nat drones_count) (drone_iter st);
  paths ← Py.getitem (drone_paths st) drone;
  mode ← attr cls "energy_mode";
  configs ← match mode with
            | VMode LINEAR => attr_drones cls "drone_linear_config"
            | _ => attr_drones cls "drone_nonlinear_config"
            end;
  config ← Py.getitem configs drone;
  last_path ← Py.getitem paths (-1);
  last ← Py.getitem last_path (-1);
  index ← Py.min_by flt (distance cls last) (dronable st);
  demands ← attr_floats cls "demands";
  dw ← Py.getitem demands index;
  takeoff_dt ← fdiv (altitude config) (takeoff_speed config);
  landing_dt ← fdiv (altitude config) (landing_speed config);
  d ← distance cls last index;
  cruise_dt ← fdiv d (cruise_speed config);
  let dt := fadd (fadd takeoff_dt landing_dt) cruise_dt in
  w ← Py.getitem (weight st) drone;
  takeoff ← takeoff_power config w;
  landing ← landing_power config w;
  cruise ← cruise_power config w;
  let de := fadd (fadd (fmul takeoff_dt takeoff) (fmul landing_dt landing))
                 (fmul cruise_dt cruise) in
  fits ←
    (if fle (fadd w dw) (capacity config) then
       t ← Py.getitem (time st) drone;
       drones_flight_duration ← attr_float cls "drones_flight_duration";
       if fle (fadd t dt) drones_flight_duration then
         e ← Py.getitem (energy st) drone;
         Ok (fle (fadd e de) (battery config))
       else Ok false
     else Ok false);
  if fits : bool then
    t ← Py.getitem (time st) drone;
    e ← Py.getitem (energy st) drone;
    let paths := <[pred (length paths) := last_path ++ [index]]> paths in
    Ok {| drone_paths := <[Z.to_nat drone := paths]> (drone_paths st);
          technician_paths' := technician_paths' st;
          weight := <[Z.to_nat drone := fadd w dw]> (weight st);
          time := <[Z.to_nat drone := fadd t dt]> (time st);
          energy := <[Z.to_nat drone := fadd e de]> (energy st);
          dronable := discard (dronable st) index;
          drone_iter := it |}
  else
    let paths := <[pred (length paths) := last_path ++ [0]]> paths ++ [[0]] in
    '(k, technician_path) ←
      Py.argmin flt (λ path, p ← Py.getitem path (-2); distance cls index p)
        (technician_paths' st);
    Ok {| drone_paths := <[Z.to_nat drone := paths]> (drone_paths st);
          technician_paths' := <[k := Py.insert technician_path (-1) index]> (technician_paths' st);
          weight := weight st;
          time := time st;
          energy := energy st;
          dronable := discard (dronable st) index;
          drone_iter := it |}.

(** [for paths in drone_paths: paths[-1].append(0)] *)
Definition close_drone (paths : list (list Z)) : res (list (list Z)) :=
  last_path ← Py.getitem paths (-1);
  Ok (<[pred (length paths) := last_path ++ [0]]> paths).

(** The statements of [initial] before its [return]: the [drone_paths] and
    [technician_paths] handed to the constructor.  Either loop removes one
    member of its set in every iteration, and is given as many iterations
    as the set has members on entry. *)
Definition routes (cls : Namespace) : res (list (list (list Z)) * list (list Z)) :=
  technicians_count ← attr_int cls "technicians_count";
  customers_t ← customers cls negb;
  st ← Py.while (length customers_t)
         (λ st, bool_decide (0 < length (technician_only st))%nat)
         (technician_step cls)
         {| technician_paths := replicate (Z.to_nat technicians_count) [0];
            technician_only := customers_t; technician_iter := 0 |};
  let closed := (λ path, path ++ [0]) <$> technician_paths st in
  drones_count ← attr_int cls "drones_count";
  let zeros := replicate (Z.to_nat drones_count) fzero in
  customers_d ← customers cls id;
  st ← Py.while (length customers_d)
         (λ st, bool_decide (0 < length (dronable st))%nat)
         (drone_step cls drones_count)
         {| drone_paths := replicate (Z.to_nat drones_count) [[0]];
            technician_paths' := closed;
            weight := zeros; time := zeros; energy := zeros;
            dronable := customers_d; drone_iter := 0 |};
  flights ← mapM close_drone (drone_paths st);
  Ok (flights,
      filter (λ path, 2 < length path)%nat (technician_paths' st)).

(** An instance of [D2DPathSolution]: the two tuples of paths that
    [__init__] stores, and the metrics that it hands to the initialiser of
    its base classes. *)
Context {Metrics : Type}.

Record Solution : Type := {
  self_drone_paths : list (list (list Z));
  self_technician_paths : list (list Z);
  self_metrics : Metrics;
}.

(** The statements of [__init__] after the two paths were stored: the
    timespan and the total waiting time, computed from the arrival
    timestamps of the paths, the truck configuration and the service-time
    tables of the class, and [super().__init__] of [SolutionMetricsMixin],
    which is declared in [ts/d2d/mixins.py].  They may raise. *)
Variable measure : Namespace → list (list (list Z)) → list (list Z) → res Metrics.

(** [D2DPathSolution.__init__] on [drone_paths] and [technician_paths],
    the other arguments being left to their default [None]. *)
Definition __init__ (cls : Namespace) (drone_paths : list (list (list Z)))
    (technician_paths : list (list Z)) : res Solution :=
  metrics ← measure cls drone_paths technician_paths;
  Ok {| self_drone_paths := drone_paths;
        self_technician_paths := technician_paths;
        self_metrics := metrics |}.

(** [D2DPathSolution.initial] *)
Definition initial (cls : Namespace) : res Solution :=
  '(drone_paths, technician_paths) ← routes cls;
  __init__ cls drone_paths technician_paths.

(** *** Arrival times and energy of the drones

    The two properties compute their value when the constructor was not
    given one; the caching of the value in the instance is not modelled. *)

(** The float [1.0]. *)
Variable fone : float.

(** [self.drone_linear_config[drone]] in the linear energy mode,
    [self.drone_nonlinear_config[drone]] otherwise. *)
Definition drone_config (cls : Namespace) (drone : Z) : res DroneConfig :=
  mode ← attr cls "energy_mode";
  configs ← match mode with
            | VMode LINEAR => attr_drones cls "drone_linear_config"
            | _ => attr_drones cls "drone_nonlinear_config"
            end;
  Py.getitem configs drone.

(** The variables [timestamp] and [last] of the loops over the stops of
    one drone. *)
Record Clock : Type := {
  timestamp : float;
  last_stop : option Z;
}.

(** The body of [for index in path] in [drone_arrival_timestamps]. *)
Definition arrive (cls : Namespace) (config : DroneConfig) (vertical_time : float)
    (index : Z) (st : Clock * list float) : res (Clock * list float) :=
  let '(clock, arrival) := st in
  timestamp ←
    match last_stop clock with
    | Some last =>
        d ← distance cls last index;
        cruise ← fdiv d (cruise_speed config);
        Ok (fadd (timestamp clock) (fadd vertical_time cruise))
    | None => Ok (timestamp clock)
    end;
  service_time ← attr_floats cls "drone_service_time";
  service ← Py.getitem service_time index;
  Ok ({| timestamp := fadd timestamp service; last_stop := Some index |},
      arrival ++ [timestamp]).

(** The body of [for path in paths]. *)
Definition fly (cls : Namespace) (config : DroneConfig) (vertical_time : float)
    (path : list Z) (st : Clock * list (list float)) : res (Clock * list (list float)) :=
  let '(clock, drone_arrivals) := st in
  '(clock, arrival) ← Py.for_each (arrive cls config vertical_time) path (clock, []);
  Ok (clock, drone_arrivals ++ [arrival]).

(** The body of [for drone, paths in enumerate(self.drone_paths)]. *)
Definition drone_arrivals (cls : Namespace) (drone : Z) (paths : list (list Z))
    : res (list (list float)) :=
  config ← drone_config cls drone;
  takeoff ← fdiv fone (takeoff_speed config);
  landing ← fdiv fone (landing_speed config);
  let vertical_time := fmul (altitude config) (fadd takeoff landing) in
  '(_, arrivals) ← Py.for_each (fly cls config vertical_time) paths
                     ({| timestamp := fzero; last_stop := None |}, []);
  Ok arrivals.

(** [D2DPathSolution.drone_arrival_timestamps] *)
Definition drone_arrival_timestamps (cls : Namespace) (drone_paths : list (list (list Z)))
    : res (list (list (list float))) :=
  mapM (λ item, drone_arrivals cls item.1 item.2) (Py.enumerate 0 drone_paths).

(** The body of [for path_index, index in enumerate(path[1:], start=1)] in
    [drone_energy_consumption], on the variables [weight] and [consumption]. *)
Definition consume (cls : Namespace) (config : DroneConfig) (takeoff_time landing_time : float)
    (path : list Z) (item : Z * Z) (st : float * list float) : res (float * list float) :=
  let '(path_index, index) := item in
  let '(weight, consumption) := st in
  last ← Py.getitem path (path_index - 1);
  demands ← attr_floats cls "demands";
  demand ← Py.getitem demands last;
  let weight := fadd weight demand in
  d ← distance cls last index;
  cruise_time ← fdiv d (cruise_speed config);
  takeoff ← takeoff_power config weight;
  landing ← landing_power config weight;
  cruise ← cruise_power config weight;
  let energy := fadd (fadd (fmul takeoff_time takeoff) (fmul landing_time landing))
                     (fmul cruise_time cruise) in
  previous ← Py.getitem consumption (-1);
  Ok (weight, consumption ++ [fadd previous energy]).

(** The body of [for path in paths]. *)
Definition path_consumption (cls : Namespace) (config : DroneConfig)
    (takeoff_time landing_time : float) (path : list Z) : res (list float) :=
  '(_, consumption) ← Py.for_each (consume cls config takeoff_time landing_time path)
                        (Py.enumerate 1 (drop 1 path)) (fzero, [fzero]);
  Ok consumption.

(** The body of [for drone, paths in enumerate(self.drone_paths)]. *)
Definition drone_consumption (cls : Namespace) (drone : Z) (paths : list (list Z))
    : res (list (list float)) :=
  config ← drone_config cls drone;
  takeoff_time ← fdiv (altitude config) (takeoff_speed config);
  landing_time ← fdiv (altitude config) (landing_speed config);
  mapM (path_consumption cls config takeoff_time landing_time) paths.

(** [D2DPathSolution.drone_energy_consumption] *)
Definition drone_energy_consumption (cls : Namespace) (drone_paths : list (list (list Z)))
    : res (list (list (list float))) :=
  mapM (λ item, drone_consumption cls item.1 item.2) (Py.enumerate 0 drone_paths).

(** What the first loop keeps: as many paths as there are technicians,
    each starting at the depot, and every customer of [customers] either
    served by a path or still to be placed, never both. *)
Definition technicians_inv (count : nat) (customers : list Z) (st : Technicians) : Prop :=
  length (technician_paths st) = count ∧
  Forall (λ path, head path = Some 0) (technician_paths st) ∧
  NoDup (technician_only st) ∧
  visits (technician_paths st) ++ technician_only st ≡ₚ customers.

(** The flights of one drone while the second loop runs: closed round
    trips followed by one flight under construction. *)
Definition flying (paths : list (list Z)) : Prop :=
  ∃ closed open, paths = closed ++ [open] ∧ Forall round_trip closed ∧ head open = Some 0.

(** What the second loop keeps. *)
Definition drones_inv (technicians drones : nat) (customers served : list Z)
    (st : Drones) : Prop :=
  length (drone_paths st) = drones ∧
  length (weight st) = drones ∧ length (time st) = drones ∧ length (energy st) = drones ∧
  Forall flying (drone_paths st) ∧
  length (technician_paths' st) = technicians ∧
  Forall (λ path, round_trip path ∧ (2 ≤ length path)%nat) (technician_paths' st) ∧
  NoDup (dronable st) ∧
  (∀ c, c ∈ served → c ∈ visits (technician_paths' st)) ∧
  fleet_visits (drone_paths st) ++ visits (technician_paths' st) ++ dronable st ≡ₚ customers.

End D2DPathSolution.

End D2D.

(** ** Example instances *)

(** A toy problem: a solution is its own cost, the neighborhood of a solution
    offers a candidate that is worse by 2, and shuffling finds one better by 5. *)
Module Toy.
Definition initial (w : unit) : res (Z * unit) := Ok (10, w).
Definition get_neighborhoods (s : Z) : list Z := [s].
Definition find_best_candidate (nb : Z) (w : unit) : res (option Z * unit) := Ok (Some (nb + 2), w).
Definition shuffle (s : Z) (w : unit) : res (Z * unit) := Ok (s - 5, w).
Definition tabu_search : Z → Z → unit → res Z :=
  Abc.tabu_search id initial get_neighborhoods find_best_candidate shuffle id.
Definition search : Z → Z → unit → res Abc.State :=
  Abc.search id initial get_neighborhoods find_best_candidate shuffle.
End Toy.

(** The four locations of the end-to-end scenario, the tour 0, 1, 2, 3, and
    a search over it whose solutions offer one swap neighborhood. *)
Module Tour4.
Definition P : Tsp.Problem :=
  {| Tsp.dimension := 4;
     Tsp.distances := [[0; 1; 2; 3]; [1; 0; 4; 5]; [2; 4; 0; 6]; [3; 5; 6; 0]] |}.
Definition tour : Tsp.PathSolution :=
  {| Tsp.after := [1; 2; 3; 0]; Tsp.before := [3; 0; 1; 2]; Tsp.cost := 14 |}.
(** A [Swap] instance: its solution and its two lengths. *)
Definition Swap : Type := Tsp.PathSolution * Z * Z.
Definition find_best_candidate (cpu_count : option nat) (nb : Swap) (memory : Tsp.TabuMemory)
    : res (option Tsp.PathSolution * Tsp.TabuMemory) :=
  let '(solution, first_length, second_length) := nb in
  Tsp.find_best_candidate P first_length second_length cpu_count solution memory.
Definition tabu_search (first_length second_length : Z) : Z → Z → Tsp.TabuMemory → res Tsp.PathSolution :=
  Abc.tabu_search Tsp.cost (λ w, Ok (tour, w))
    (λ s, [(s, first_length, second_length)])
    (find_best_candidate (Some 2%nat)) (λ s w, Ok (s, w)) id.
End Tour4.

(** Four locations, two of which are 2^52 away from location 0, all other
    distances being 1, and the tour 0, 1, 2, 3 of cost 2^52 + 3.  The sum of
    the distances of any tour that holds one of the two long edges is below
    2^53: it is exact in whatever order the distances are added up, in
    integers and in floats. *)
Module Far.
Definition P : TspFloat.Problem :=
  {| TspFloat.dimension := 4;
     TspFloat.distances :=
       [[0; 4503599627370496; 4503599627370496; 1]; [4503599627370496; 0; 1; 1];
        [4503599627370496; 1; 0; 1]; [1; 1; 1; 0]]%float |}.
Definition tour : TspFloat.PathSolution :=
  {| TspFloat.after := [1; 2; 3; 0]; TspFloat.before := [3; 0; 1; 2];
     TspFloat.cost := 4503599627370499 |}.
(** The same problem and tour with the distances as integers. *)
Definition exact : Tsp.Problem :=
  {| Tsp.dimension := 4;
     Tsp.distances :=
       [[0; 4503599627370496; 4503599627370496; 1]; [4503599627370496; 0; 1; 1];
        [4503599627370496; 1; 0; 1]; [1; 1; 1; 0]] |}.
Definition exact_tour : Tsp.PathSolution :=
  {| Tsp.after := [1; 2; 3; 0]; Tsp.before := [3; 0; 1; 2];
     Tsp.cost := 4503599627370499 |}.
End Far.

(** A two-objective problem whose neighborhoods offer, for a solution, that
    solution again (a candidate of the same cost). *)
Module Flat.
Definition initial (w : unit) : res (list Z * unit) := Ok ([3; 4], w).
Definition get_neighborhoods (s : list Z) : list (list Z) := [s].
Definition find_best_candidates (nb : list Z) (w : unit) : res (list (list Z) * unit) := Ok ([nb], w).
Definition shuffle (s : list Z) (w : unit) : res (list Z * unit) := Ok (s, w).
Definition random (w : unit) : nat * unit := (0%nat, w).
Definition enter : bool → unit → res MultiOb.State :=
  MultiOb.enter id initial.
Definition body : Z → MultiOb.State → res (Abc.flow MultiOb.State) :=
  MultiOb.body id get_neighborhoods find_best_candidates (MultiOb.add_to_pareto_set id)
    shuffle random MultiOb._accept_all 1 MultiOb.Unbounded.
End Flat.

(** A three-objective problem. *)
Module Three.
Definition initial (w : unit) : res (list Z * unit) := Ok ([3; 4; 5], w).
Definition tabu_search (plot_pareto_front : bool) : res (list (list Z) * option MultiOb.Plot) :=
  MultiOb.tabu_search id initial Flat.get_neighborhoods Flat.find_best_candidates
    (MultiOb.add_to_pareto_set id) Flat.shuffle Flat.shuffle Flat.random
    10 MultiOb._accept_all 5 MultiOb.Unbounded plot_pareto_front ().
End Three.

(** A class whose configuration is loaded and a directory of problems that
    holds the single file [B.txt], with a customer count and nothing else. *)
Module Files.
Definition read (path : string) : res string :=
  if bool_decide (path = "problems/d2d/random_data/B.txt") then Ok "Customers 3" else Raise OSError.
Definition repr (s : string) : string := "'" +:+ s +:+ "'".
Definition float_of_string (s : string) : res Z := Ok (D2D.int s).
Definition Namespace : Type := D2D.Namespace (float := Z) (TruckConfig := unit) (DroneEnduranceConfig := unit).
Definition cls : Namespace :=
  <["_D2DPathSolution__config_imported" := D2D.VBool true]> D2D.class_body.
Definition import_problem (problem : string) : Namespace → Namespace * res unit :=
  D2D.import_problem 0 float_of_string read (Ok ()) (Ok []) (Ok []) (Ok []) repr (λ _, [])
    problem D2D.LINEAR.
End Files.

(** Four locations with symmetric distances on which two different swaps of
    single locations give different tours of the same, lowest, cost. *)
Module Tie.
Definition P : Tsp.Problem :=
  {| Tsp.dimension := 4;
     Tsp.distances := [[0; 2; 1; 2]; [2; 0; 2; 4]; [1; 2; 0; 3]; [2; 4; 3; 0]] |}.
Definition tour : Tsp.PathSolution :=
  {| Tsp.after := [1; 2; 3; 0]; Tsp.before := [3; 0; 1; 2]; Tsp.cost := 9 |}.
End Tie.

(** A two-objective problem whose neighborhoods offer, for a solution, the
    one that trades a unit of the second objective for a unit of the first:
    neither dominates the other. *)
Module Spread.
Definition find_best_candidates (nb : list Z) (w : unit) : res (list (list Z) * unit) :=
  match nb with
  | [a; b] => Ok ([[a + 1; b - 1]], w)
  | _ => Ok ([], w)
  end.
Definition body (max_propagation : Z) : Z → MultiOb.State → res (Abc.flow MultiOb.State) :=
  MultiOb.body id Flat.get_neighborhoods find_best_candidates (MultiOb.add_to_pareto_set id)
    Flat.shuffle Flat.random MultiOb._accept_all 5 (MultiOb.Fixed max_propagation).
Definition tabu_search (iterations_count : Z) (plot_pareto_front : bool)
    : res (list (list Z) * option MultiOb.Plot) :=
  MultiOb.tabu_search id Flat.initial Flat.get_neighborhoods find_best_candidates
    (MultiOb.add_to_pareto_set id) Flat.shuffle Flat.shuffle Flat.random
    iterations_count MultiOb._accept_all 5 MultiOb.Unbounded plot_pareto_front ().
End Spread.

(** A directory of problems that holds the file [A.txt] of a problem with
    two customers, the second one for a technician only, and a class that
    has not imported anything yet. *)
Module Archive.
Definition read (path : string) : res string :=
  if bool_decide (path = "problems/d2d/random_data/A.txt")
  then Ok "Customers 2 number_drone 1 droneLimitationFightTime(s) 100"
  else Raise OSError.
Definition finditer (data : string) : list D2D.Row :=
  [("1", "0", "1", "0", "5", "6"); ("2", "0", "1", "1", "5", "6")].
Definition import_problem (truck : res unit) (problem : string)
    : Files.Namespace → Files.Namespace * res unit :=
  D2D.import_problem 0 Files.float_of_string read truck (Ok []) (Ok []) (Ok []) Files.repr
    finditer problem D2D.LINEAR.
End Archive.

(** A class that holds a problem of four customers on a line, the second
    one for a technician only, with one technician and one drone that
    carries two units; and the same problem without technician and drone. *)
Module Field.
Definition fdiv (a b : Z) : res Z :=
  if bool_decide (b = 0) then Raise ZeroDivisionError else Ok (a / b).
Definition config : D2D.DroneConfig (float := Z) :=
  {| D2D.altitude := 10; D2D.takeoff_speed := 5; D2D.landing_speed := 5;
     D2D.cruise_speed := 1; D2D.capacity := 2; D2D.battery := 1000;
     D2D.takeoff_power := λ w, Ok (1 + w); D2D.landing_power := λ w, Ok (1 + w);
     D2D.cruise_power := λ w, Ok (1 + w) |}.
Definition cls : Files.Namespace :=
  <["customers_count" := D2D.VInt 4]> (
  <["technicians_count" := D2D.VInt 1]> (
  <["drones_count" := D2D.VInt 1]> (
  <["drones_flight_duration" := D2D.VFloat 100]> (
  <["x" := D2D.VFloats [0; 1; 2; 3; 4]]> (
  <["y" := D2D.VFloats [0; 0; 0; 0; 0]]> (
  <["demands" := D2D.VFloats [0; 1; 1; 1; 1]]> (
  <["drone_service_time" := D2D.VFloats [0; 6; 6; 6; 6]]> (
  <["dronable" := D2D.VBools [true; true; false; true; true]]> (
  <["energy_mode" := D2D.VMode D2D.LINEAR]> (
  <["drone_linear_config" := D2D.VDrones [config]]> (
  <["drone_nonlinear_config" := D2D.VDrones [config]]> D2D.class_body))))))))))).
Definition grounded : Files.Namespace :=
  <["technicians_count" := D2D.VInt 0]> (<["drones_count" := D2D.VInt 0]> cls).
Definition unstaffed : Files.Namespace :=
  <["technicians_count" := D2D.VInt 0]> cls.
Definition fsquare (a : Z) : res Z := Ok (a * a).
Definition drone_arrival_timestamps
    : Files.Namespace → list (list (list Z)) → res (list (list (list Z))) :=
  D2D.drone_arrival_timestamps 0 Z.add Z.sub Z.mul fdiv fsquare Z.sqrt 1.
Definition drone_energy_consumption
    : Files.Namespace → list (list (list Z)) → res (list (list (list Z))) :=
  D2D.drone_energy_consumption 0 Z.add Z.sub Z.mul fdiv fsquare Z.sqrt.
(** The metrics of a solution are taken to be the arrival timestamps of its
    drones, the first thing that [__init__] computes. *)
Definition measure (cls : Files.Namespace) (drone_paths : list (list (list Z)))
    (technician_paths : list (list Z)) : res (list (list (list Z))) :=
  drone_arrival_timestamps cls drone_paths.
(** A set of some of the integers 1 to 4 has each of them in the slot of
    its number: it is iterated in ascending order. *)
Definition slot (elements : list Z) (e : Z) : Z := e.
Definition routes : Files.Namespace → res (list (list (list Z)) * list (list Z)) :=
  D2D.routes 0 Z.add Z.sub Z.mul fdiv fsquare Z.sqrt Z.leb Z.ltb slot.
Definition initial : Files.Namespace → res D2D.Solution :=
  D2D.initial 0 Z.add Z.sub Z.mul fdiv fsquare Z.sqrt Z.leb Z.ltb slot measure.
End Field.

(** * Properties *)

(** ** The result monad and Python sequences *)

Lemma bind_Ok {A B} (m : res A) (f : A → res B) (b : B) :
  m ≫= f = Ok b ↔ ∃ a, m = Ok a ∧ f a = Ok b.
Proof.
  destruct m as [a|e]; simpl.
  - split; [eauto | intros (a' & [= ->] & ?); done].
  - split; [done | intros (a' & ? & _); done].
Qed.

Lemma getitem_nat {A} (l : list A) (i : Z) (x : A) :
  0 ≤ i → l !! Z.to_nat i = Some x → Py.getitem l i = Ok x.
Proof.
  intros Hi Hx. unfold Py.getitem, Py.index.
  apply lookup_lt_Some in Hx as Hlt.
  rewrite bool_decide_true by lia. simpl. by rewrite Hx.
Qed.

Lemma setitem_nat {A} (l : list A) (i : Z) (x : A) :
  0 ≤ i < Z.of_nat (length l) → Py.setitem l i x = Ok (<[Z.to_nat i:=x]> l).
Proof.
  intros Hi. unfold Py.setitem, Py.index. by rewrite bool_decide_true by lia.
Qed.

Lemma elem_of_range (n i : Z) : i ∈ Py.range n ↔ 0 ≤ i < n.
Proof.
  unfold Py.range. rewrite list_elem_of_fmap. split.
  - intros (k & -> & Hk). apply elem_of_seq in Hk. lia.
  - intros Hi. exists (Z.to_nat i). split; [lia|]. apply elem_of_seq. lia.
Qed.

(** ** Comparison of solutions *)

(** A class is an instance of itself. *)
Lemma issubclass_refl (c : Abc.Class) : Abc.issubclass c c = true.
Proof. unfold Abc.issubclass. apply bool_decide_eq_true. left. Qed.

(** C9, amended. For two solutions [a], [b] of the same concrete class,
    [a == b] is [cost(a) == cost(b)] and [a < b] is [cost(a) < cost(b)],
    whatever their encodings are.  Whether two solutions of equal cost are
    one element of a set is decided by [__hash__], which [BaseSolution]
    leaves to its subclasses: a set that holds [a] does not grow when [b] is
    added if the two have the same hash, and it gets [b] as a second member
    if they have not. *)
Theorem comparison_is_by_cost {Object : Type} (type : Object → Abc.Class)
    (cost hash : Object → Z) (a b : Object) :
  type a = type b →
  (Abc.__eq__ type cost a b = Abc.PyBool true ↔ cost a = cost b) ∧
  (Abc.__eq__ type cost a b = Abc.PyBool false ↔ cost a ≠ cost b) ∧
  (Abc.__lt__ type cost a b = Abc.PyBool true ↔ cost a < cost b) ∧
  (Abc.__lt__ type cost a b = Abc.PyBool false ↔ ¬ cost a < cost b) ∧
  (cost a = cost b → hash a = hash b →
   Abc.set_contains type cost hash [a] b = true ∧
   Abc.set_add type cost hash [a] b = [a]) ∧
  (hash a ≠ hash b →
   Abc.set_contains type cost hash [a] b = false ∧
   Abc.set_add type cost hash [a] b = [a; b]).
Proof.
  intros Hty.
  assert (Hinst : Abc.isinstance type b (type a) = true).
  { unfold Abc.isinstance. rewrite Hty. apply issubclass_refl. }
  unfold Abc.__eq__, Abc.__lt__. rewrite Hinst.
  repeat split.
  - intros [= H]. by apply bool_decide_eq_true in H.
  - intros H. by rewrite bool_decide_true.
  - intros [= H]. by apply bool_decide_eq_false in H.
  - intros H. by rewrite bool_decide_false.
  - intros [= H]. by apply bool_decide_eq_true in H.
  - intros H. by rewrite bool_decide_true.
  - intros [= H]. by apply bool_decide_eq_false in H.
  - intros H. by rewrite bool_decide_false.
  - unfold Abc.set_contains, Abc.__eq__. simpl. rewrite Hinst.
    by rewrite !bool_decide_true.
  - unfold Abc.set_add, Abc.set_contains, Abc.__eq__. simpl. rewrite Hinst.
    by rewrite !bool_decide_true.
  - unfold Abc.set_contains. simpl. by rewrite bool_decide_false.
  - unfold Abc.set_add, Abc.set_contains. simpl. by rewrite bool_decide_false.
Qed.

(** C9, counterexample: two tours of one class with different encodings
    and the same cost, and a [__hash__] that hashes the encoding.  The two
    compare equal, and the set that holds one of them has two members after
    the other one was added. *)
Lemma equal_cost_solutions_are_two_members :
  let PathSolution := {| Abc.class_name := "PathSolution"; Abc.class_bases := ["BaseSolution"] |} in
  let type := λ _ : list Z * Z, PathSolution in
  let hash := λ s : list Z * Z, foldl (λ h x, 31 * h + x) 7 s.1 in
  let a := ([0; 1; 2; 3], 14) in
  let b := ([0; 3; 2; 1], 14) in
  Abc.__eq__ type snd a b = Abc.PyBool true ∧
  Abc.set_contains type snd hash [a] b = false ∧
  Abc.set_add type snd hash [a] b = [a; b].
Proof. repeat split. Qed.

(** Two tours of one class with different encodings and the same cost. *)
Lemma comparison_is_by_cost_witness :
  let PathSolution := {| Abc.class_name := "PathSolution"; Abc.class_bases := ["BaseSolution"] |} in
  let type := λ _ : list Z * Z, PathSolution in
  let a := ([0; 1; 2; 3], 14) in
  let b := ([0; 3; 2; 1], 14) in
  a ≠ b ∧
  Abc.__eq__ type snd a b = Abc.PyBool true ∧
  Abc.__lt__ type snd a b = Abc.PyBool false ∧
  Abc.set_add type snd snd [a] b = [a].
Proof.
  intros PathSolution type a b.
  pose proof (comparison_is_by_cost type snd snd a b eq_refl) as (H1 & _ & _ & H4 & H5 & _).
  split; [discriminate|].
  split; [by apply H1|].
  split; [apply H4; simpl; lia|].
  by apply H5.
Defined.

(** ** The tabu memory *)

Section TabuMemory.
Variable maxlen : nat.

Local Abbreviation inserted := (Tsp.inserted maxlen).

Lemma inserted_snoc (ds : list Tsp.Move) (x : Tsp.Move) :
  inserted (ds ++ [x]) = Tsp.add_to_tabu maxlen (inserted ds) x.
Proof. unfold Tsp.inserted. by rewrite foldl_app. Qed.

Lemma add_to_tabu_cons (m : Tsp.TabuMemory) (x oldest : Tsp.Move) (rest : list Tsp.Move) :
  Tsp._tabu_list m ++ [x] = oldest :: rest →
  Tsp.add_to_tabu maxlen m x =
    if bool_decide (maxlen < S (length rest))%nat
    then {| Tsp._tabu_list := rest;
            Tsp._tabu_set := (Tsp._tabu_set m ∪ {[x]}) ∖ {[oldest]} |}
    else {| Tsp._tabu_list := oldest :: rest;
            Tsp._tabu_set := Tsp._tabu_set m ∪ {[x]} |}.
Proof. intros E. unfold Tsp.add_to_tabu. by rewrite E. Qed.

(** Both views hold the last [maxlen] descriptors. *)
Lemma inserted_views (ds : list Tsp.Move) :
  NoDup ds →
  Tsp._tabu_list (inserted ds) = drop (length ds - maxlen) ds ∧
  Tsp._tabu_set (inserted ds) = list_to_set (drop (length ds - maxlen) ds).
Proof.
  induction ds as [|x ds IH] using rev_ind; intros Hnd.
  - done.
  - pose proof Hnd as Hnd'.
    apply NoDup_app in Hnd as (Hnd & Hx & _).
    destruct (IH Hnd) as [IHl IHs]. clear IH.
    rewrite inserted_snoc.
    set (k := (length ds - maxlen)%nat) in *.
    assert (Hk : (k ≤ length ds)%nat) by lia.
    assert (HL : Tsp._tabu_list (inserted ds) ++ [x] = drop k (ds ++ [x])).
    { rewrite IHl. by rewrite drop_app_le. }
    assert (Hset : Tsp._tabu_set (inserted ds) ∪ {[x]} = list_to_set (drop k (ds ++ [x]))).
    { rewrite IHs, drop_app_le, list_to_set_app_L by done. simpl.
      by rewrite (right_id_L ∅ (∪)). }
    assert (HLlen : length (drop k (ds ++ [x])) = S (length ds - k)).
    { rewrite length_drop, length_app. simpl. lia. }
    assert (HLnd : NoDup (drop k (ds ++ [x]))).
    { eapply sublist_NoDup; [done | apply sublist_drop]. }
    destruct (drop k (ds ++ [x])) as [|o r] eqn:E; [done|].
    rewrite (add_to_tabu_cons _ _ _ _ HL), Hset, length_app. simpl in *.
    injection HLlen as HLlen.
    case_bool_decide as Hcmp.
    + replace (length ds + 1 - maxlen)%nat with (S k) by lia.
      assert (drop (S k) (ds ++ [x]) = r) as ->.
      { rewrite <- (Nat.add_1_l k), Nat.add_comm, <- drop_drop, E. done. }
      simpl. split; [done|].
      apply NoDup_cons in HLnd as [Ho _].
      apply set_eq. intros y.
      rewrite elem_of_difference, elem_of_union, elem_of_singleton, elem_of_list_to_set.
      split; [intros [[->|?] ?]; done|]. intros Hy. split; [by right|].
      intros ->. done.
    + replace (length ds + 1 - maxlen)%nat with k by lia.
      rewrite E. done.
Qed.

(** Whatever was inserted, repetitions included: the sequence holds the
    last [maxlen] insertions, and what the set holds is in the sequence. *)
Lemma inserted_any (qs : list Tsp.Move) :
  Tsp._tabu_list (inserted qs) = drop (length qs - maxlen) qs ∧
  ∀ x, x ∈ Tsp._tabu_set (inserted qs) → x ∈ Tsp._tabu_list (inserted qs).
Proof.
  induction qs as [|x qs [IHl IHs]] using rev_ind; [split; [done|set_solver]|].
  rewrite inserted_snoc.
  set (k := (length qs - maxlen)%nat) in *.
  assert (Hk : (k ≤ length qs)%nat) by lia.
  assert (HL : Tsp._tabu_list (inserted qs) ++ [x] = drop k (qs ++ [x])).
  { rewrite IHl. by rewrite drop_app_le. }
  assert (HLlen : length (drop k (qs ++ [x])) = S (length qs - k)).
  { rewrite length_drop, length_app. simpl. lia. }
  assert (Hin : ∀ y, y ∈ Tsp._tabu_set (inserted qs) ∪ {[x]} → y ∈ drop k (qs ++ [x])).
  { intros y Hy. rewrite <- HL. apply elem_of_app.
    apply elem_of_union in Hy as [Hy|Hy]; [left; by apply IHs|right].
    apply elem_of_singleton in Hy as ->. left. }
  destruct (drop k (qs ++ [x])) as [|o r] eqn:E; [done|].
  rewrite (add_to_tabu_cons _ _ _ _ HL), length_app. simpl in *.
  injection HLlen as HLlen.
  case_bool_decide as Hcmp; simpl.
  - replace (length qs + 1 - maxlen)%nat with (S k) by lia.
    assert (drop (S k) (qs ++ [x]) = r) as ->.
    { rewrite <- (Nat.add_1_l k), Nat.add_comm, <- drop_drop, E. done. }
    split; [done|]. intros y Hy.
    apply elem_of_difference in Hy as [Hy Hne].
    apply Hin, elem_of_cons in Hy as [->|Hy]; [|done].
    exfalso. apply Hne. by apply elem_of_singleton.
  - replace (length qs + 1 - maxlen)%nat with k by lia.
    rewrite E. split; [done|]. exact Hin.
Qed.


End TabuMemory.



(** ** The single-objective driver *)

Section Driver.
Context {Solution Neighborhood World : Type}.
Variable cost : Solution → Z.
Variable initial : World → res (Solution * World).
Variable get_neighborhoods : Solution → list Neighborhood.
Variable find_best_candidate : Neighborhood → World → res (option Solution * World).
Variable shuffle : Solution → World → res (Solution * World).
Variable post_optimization : Solution → Solution.

Local Abbreviation improve := (Abc.improve cost get_neighborhoods find_best_candidate).
Local Abbreviation diversify := (Abc.diversify shuffle).
Local Abbreviation body := (Abc.body cost get_neighborhoods find_best_candidate shuffle).
Local Abbreviation run := (Abc.run cost get_neighborhoods find_best_candidate shuffle).
Local Abbreviation walk := (Abc.walk cost get_neighborhoods find_best_candidate shuffle).
Local Abbreviation enter := (Abc.enter initial get_neighborhoods).
Local Abbreviation search :=
  (Abc.search cost initial get_neighborhoods find_best_candidate shuffle).
Local Abbreviation tabu_search :=
  (Abc.tabu_search cost initial get_neighborhoods find_best_candidate shuffle post_optimization).

Lemma min_cost (a b : Solution) :
  (Abc.min cost a b = a ∨ Abc.min cost a b = b) ∧
  cost (Abc.min cost a b) ≤ cost a ∧ cost (Abc.min cost a b) ≤ cost b.
Proof.
  unfold Abc.min, Abc.lt. case_bool_decide; split; auto; lia.
Qed.

(** What the first part of an iteration does to the state when a candidate
    came back. *)
Lemma improve_continue (n : nat) (iteration : Z) (st st' : Abc.State) :
  improve n iteration st = Ok (Abc.Continue st') →
  Abc.result st' = Abc.min cost (Abc.result st) (Abc.current st').
Proof.
  unfold Abc.improve. intros H.
  apply bind_Ok in H as ([k it] & _ & H).
  apply bind_Ok in H as (nb & _ & H).
  apply bind_Ok in H as ([[c|] w] & _ & H); [|done].
  destruct (Abc.lt cost c (Abc.current st)); by injection H as <-.
Qed.

(** The loop stops for good at the first iteration without a candidate. *)
Lemma improve_break (n : nat) (iteration k : Z) (it : nat)
    (st : Abc.State) (nb : Neighborhood) (w : World) :
  Py.cycle_next n (Abc.neighborhood_iterations st) = Ok (k, it) →
  Py.getitem (get_neighborhoods (Abc.current st)) k = Ok nb →
  find_best_candidate nb (Abc.world st) = Ok (None, w) →
  ∃ st', improve n iteration st = Ok (Abc.Break st') ∧ Abc.result st' = Abc.result st.
Proof.
  intros Hk Hnb Hnone. unfold Abc.improve. rewrite Hk. simpl.
  rewrite Hnb. simpl. rewrite Hnone. simpl. eauto.
Qed.

Lemma diversify_result (shuffle_after iteration : Z) (st st' : Abc.State) :
  diversify shuffle_after iteration st = Ok st' → Abc.result st' = Abc.result st.
Proof.
  unfold Abc.diversify. case_bool_decide as Hcmp; [|by intros [= <-]].
  intros H. apply bind_Ok in H as ([c w] & _ & H). by injection H as <-.
Qed.

Lemma body_continue (n : nat) (shuffle_after iteration : Z) (st st1 st2 : Abc.State) :
  improve n iteration st = Ok (Abc.Continue st1) →
  diversify shuffle_after iteration st1 = Ok st2 →
  body n shuffle_after iteration st = Ok (Abc.Continue st2).
Proof. intros H1 H2. unfold Abc.body. rewrite H1. simpl. by rewrite H2. Qed.

Lemma body_break (n : nat) (shuffle_after iteration : Z) (st st1 : Abc.State) :
  improve n iteration st = Ok (Abc.Break st1) →
  body n shuffle_after iteration st = Ok (Abc.Break st1).
Proof. intros H1. unfold Abc.body. by rewrite H1. Qed.

(** A run is what the loop does on its iterations, whatever follows them. *)
Lemma for_loop_run (n : nat) (shuffle_after : Z) (xs ys : list Z)
    (st st' : Abc.State) (seen : list Solution) :
  run n shuffle_after xs st seen st' →
  Abc.for_loop (body n shuffle_after) (xs ++ ys) st =
  Abc.for_loop (body n shuffle_after) ys st'.
Proof.
  induction 1 as [|i xs st st1 st2 st3 seen Himp Hdiv _ IH]; [done|].
  rewrite <- app_comm_cons. cbn [Abc.for_loop].
  rewrite (body_continue _ _ _ _ _ _ Himp Hdiv). exact IH.
Qed.

(** Along a run, [result] is one of the initial [result] and the values
    [current] had when [result] was updated, and none of those is cheaper. *)
Lemma run_result (n : nat) (shuffle_after : Z) (xs : list Z)
    (st st' : Abc.State) (seen : list Solution) :
  run n shuffle_after xs st seen st' →
  Abc.result st' ∈ seen ++ [Abc.result st] ∧
  ∀ x, x ∈ seen ++ [Abc.result st] → cost (Abc.result st') ≤ cost x.
Proof.
  induction 1 as [st|i xs st st1 st2 st3 seen Himp Hdiv _ [IHin IHle]].
  - split; [simpl; left|]. intros x Hx. apply list_elem_of_singleton in Hx as ->. lia.
  - apply improve_continue in Himp. apply diversify_result in Hdiv.
    rewrite Hdiv, Himp in IHin, IHle.
    destruct (min_cost (Abc.result st) (Abc.current st1)) as (Hor & Hle1 & Hle2).
    split.
    + rewrite <- app_assoc. rewrite elem_of_app in IHin |- *.
      destruct IHin as [?|Hin]; [by left|right].
      apply list_elem_of_singleton in Hin. rewrite Hin.
      destruct Hor as [-> | ->]; [right; left | left].
    + intros x Hx. rewrite <- app_assoc in Hx. rewrite elem_of_app in Hx.
      assert (Hmin : cost (Abc.result st3) ≤ cost (Abc.min cost (Abc.result st) (Abc.current st1))).
      { apply IHle. rewrite elem_of_app. right. left. }
      destruct Hx as [Hx|Hx].
      * apply IHle. rewrite elem_of_app. by left.
      * apply elem_of_cons in Hx as [-> | Hx]; [lia|].
        apply list_elem_of_singleton in Hx as ->. lia.
Qed.

(** A candidate is taken only if it is cheaper: the first part of an
    iteration never raises the cost of [current]. *)
Lemma improve_lowers (n : nat) (iteration : Z) (st st' : Abc.State) :
  improve n iteration st = Ok (Abc.Continue st') →
  cost (Abc.current st') ≤ cost (Abc.current st).
Proof.
  unfold Abc.improve. intros H.
  apply bind_Ok in H as ([k it] & _ & H).
  apply bind_Ok in H as (nb & _ & H).
  apply bind_Ok in H as ([[c|] w] & _ & H); [|done].
  unfold Abc.lt in H. case_bool_decide; injection H as <-; simpl; lia.
Qed.

Lemma walk_run (n : nat) (shuffle_after : Z) (xs : list Z)
    (st st' : Abc.State) (held : list Solution) :
  walk n shuffle_after xs st held st' → ∃ seen, run n shuffle_after xs st seen st'.
Proof.
  induction 1 as [st|i xs st st1 st2 st3 held Himp Hdiv _ [seen IH]].
  - exists []. constructor.
  - eexists. by econstructor.
Qed.

(** Along a run, [result] is one of the values that [current] had (or the
    [result] of the start), and no value that [current] had is cheaper than
    both the [result] and the [current] of the end; the only one that can
    be cheaper than [result] is the one that the last iteration left. *)
Lemma walk_best (n : nat) (shuffle_after : Z) (xs : list Z)
    (st st' : Abc.State) (held prior : list Solution) :
  walk n shuffle_after xs st held st' →
  (∀ x, x ∈ prior → cost (Abc.result st) ≤ cost x ∨ cost (Abc.current st) ≤ cost x) →
  (∀ x, x ∈ held ++ prior →
        cost (Abc.result st') ≤ cost x ∨ cost (Abc.current st') ≤ cost x) ∧
  (xs ≠ [] → ∀ x, x ∈ drop 1 held ++ prior → cost (Abc.result st') ≤ cost x) ∧
  (xs ≠ [] → head held = Some (Abc.current st')) ∧
  (Abc.result st' = Abc.result st ∨ Abc.result st' ∈ held).
Proof.
  intros Hwalk. revert prior.
  induction Hwalk as [st|i xs st st1 st2 st3 held Himp Hdiv Hwalk IH]; intros prior Hprior.
  - split; [done|]. split; [done|]. split; [done|]. by left.
  - pose proof (improve_lowers _ _ _ _ Himp) as Hlow.
    apply improve_continue in Himp. apply diversify_result in Hdiv.
    destruct (min_cost (Abc.result st) (Abc.current st1)) as (Hor & Hle1 & Hle2).
    rewrite <- Himp, <- Hdiv in Hor, Hle1, Hle2.
    assert (Hbefore : ∀ x, x ∈ Abc.current st1 :: prior → cost (Abc.result st2) ≤ cost x).
    { intros x Hx. apply elem_of_cons in Hx as [->|Hx]; [done|].
      destruct (Hprior x Hx); lia. }
    destruct (IH ([Abc.current st2; Abc.current st1] ++ prior)) as (HJ & HS & Hhead & Hres).
    { intros x Hx. apply elem_of_cons in Hx as [->|Hx]; [right; lia|].
      left. by apply Hbefore. }
    rewrite <- !app_assoc.
    split; [done|]. split; [|split].
    + intros _ x Hx. destruct xs as [|i' xs].
      * inversion Hwalk; subst. simpl in Hx. by apply Hbefore.
      * assert (Hne : i' :: xs ≠ []) by done.
        specialize (Hhead Hne). destruct held as [|h held]; [done|].
        apply (HS Hne). simpl in *. rewrite !drop_0 in *. by rewrite <- app_assoc in Hx.
    + intros _. destruct xs as [|i' xs].
      * by inversion Hwalk; subst.
      * assert (Hne : i' :: xs ≠ []) by done.
        specialize (Hhead Hne). by destruct held.
    + destruct Hres as [->|?]; [|right; apply elem_of_app; by left].
      destruct Hor as [->| ->]; [by left|].
      right. rewrite elem_of_app, !elem_of_cons. by right; right; left.
Qed.

(** C4, amended. Right after [result = min(result, current)] the cost of
    [result] is at most the cost of [current], and [result] is the cheapest
    among the initial solution and every value that [current] has had so
    far, those left by a shuffle included: a shuffled solution is compared
    with [result] in the next iteration, through a [current] that is no more
    expensive than it.  Replacing [current] by its shuffle leaves [result] as
    it is, so that at the end of an iteration [result] is one of these
    values and the cheapest of all but the one that the iteration has just
    left in [current]; and when the iteration budget is used up, the value
    returned is [result.post_optimization()]. *)
Theorem result_is_best_recorded (iterations_count shuffle_after : Z) (w : World)
    (n : nat) (st0 st : Abc.State) (xs : list Z) (held : list Solution) :
  enter w = Ok (n, st0) →
  walk n shuffle_after xs st0 held st →
  (∀ iteration s s1, improve n iteration s = Ok (Abc.Continue s1) →
     Abc.result s1 = Abc.min cost (Abc.result s) (Abc.current s1) ∧
     cost (Abc.result s1) ≤ cost (Abc.current s1)) ∧
  (∀ iteration s1 s2, diversify shuffle_after iteration s1 = Ok s2 →
     Abc.result s2 = Abc.result s1) ∧
  (∀ iteration st1, improve n iteration st = Ok (Abc.Continue st1) →
     let all := Abc.current st1 :: held ++ [Abc.current st0] in
     Abc.result st1 ∈ all ∧ ∀ x, x ∈ all → cost (Abc.result st1) ≤ cost x) ∧
  Abc.result st ∈ held ++ [Abc.current st0] ∧
  (∀ x, x ∈ drop 1 held ++ [Abc.current st0] → cost (Abc.result st) ≤ cost x) ∧
  (xs = Py.range iterations_count →
   tabu_search iterations_count shuffle_after w = Ok (post_optimization (Abc.result st))).
Proof.
  intros Henter Hwalk.
  assert (Hstart : Abc.result st0 = Abc.current st0).
  { unfold Abc.enter in Henter. apply bind_Ok in Henter as ([init w0] & _ & Henter).
    by injection Henter as _ <-. }
  destruct (walk_best _ _ _ _ _ _ [Abc.current st0] Hwalk) as (HJ & HS & _ & Hres).
  { intros x Hx. apply list_elem_of_singleton in Hx as ->. right. lia. }
  assert (Hin : Abc.result st ∈ held ++ [Abc.current st0]).
  { apply elem_of_app. destruct Hres as [->|?]; [right|by left].
    rewrite Hstart. left. }
  split.
  { intros i s s1 Himp. apply improve_continue in Himp. split; [done|].
    rewrite Himp. apply min_cost. }
  split; [intros i s1 s2; apply diversify_result|].
  split.
  { intros i st1 Himp all.
    pose proof (improve_lowers _ _ _ _ Himp) as Hlow.
    apply improve_continue in Himp.
    destruct (min_cost (Abc.result st) (Abc.current st1)) as (Hor & Hle1 & Hle2).
    rewrite <- Himp in Hor, Hle1, Hle2. split.
    - destruct Hor as [-> | ->]; [by right|left].
    - intros x Hx. apply elem_of_cons in Hx as [->|Hx]; [done|].
      destruct (HJ x Hx); lia. }
  split; [done|].
  split.
  { intros x Hx. destruct xs as [|i xs].
    - inversion Hwalk; subst. simpl in Hx. apply list_elem_of_singleton in Hx as ->.
      rewrite Hstart. lia.
    - by apply HS. }
  intros ->. unfold Abc.tabu_search, Abc.search. rewrite Henter. simpl.
  destruct (walk_run _ _ _ _ _ _ Hwalk) as [seen Hrun].
  pose proof (for_loop_run _ _ _ [] _ _ _ Hrun) as Hloop.
  rewrite app_nil_r in Hloop. rewrite Hloop. done.
Qed.

(** C8, the driver. When the neighborhood asked in some iteration answers
    [None], the remaining iterations are skipped and the search returns
    [result.post_optimization()] on the [result] it holds, without raising. *)
Lemma no_candidate_ends_search (iterations_count shuffle_after : Z) (w : World)
    (n : nat) (st0 st : Abc.State) (done_ rest : list Z) (iteration : Z)
    (seen : list Solution) (k : Z) (it : nat) (nb : Neighborhood) (w' : World) :
  enter w = Ok (n, st0) →
  Py.range iterations_count = done_ ++ iteration :: rest →
  run n shuffle_after done_ st0 seen st →
  Py.cycle_next n (Abc.neighborhood_iterations st) = Ok (k, it) →
  Py.getitem (get_neighborhoods (Abc.current st)) k = Ok nb →
  find_best_candidate nb (Abc.world st) = Ok (None, w') →
  tabu_search iterations_count shuffle_after w = Ok (post_optimization (Abc.result st)).
Proof.
  intros Henter Hrange Hrun Hk Hnb Hnone.
  destruct (improve_break n iteration _ _ _ _ _ Hk Hnb Hnone) as (st' & Himp & Hres).
  unfold Abc.tabu_search, Abc.search. rewrite Henter. simpl.
  rewrite Hrange, (for_loop_run _ _ _ _ _ _ _ Hrun). cbn [Abc.for_loop].
  rewrite (body_break _ shuffle_after _ _ _ Himp). simpl. by rewrite Hres.
Qed.

End Driver.


(** C4 as stated fails. With two iterations and [shuffle_after = 1], the
    second iteration ends with a shuffled [current] of cost 5 while [result]
    still has cost 10, and 10 is what the search returns. *)
Lemma result_not_best_after_shuffle :
  ∃ st, Toy.search 2 1 () = Ok st ∧
        Abc.current st = 5 ∧ Abc.result st = 10 ∧
        ¬ (id (Abc.result st) ≤ id (Abc.current st)) ∧
        Toy.tabu_search 2 1 () = Ok 10.
Proof.
  eexists. split; [vm_compute; reflexivity|]. simpl.
  split; [done|]. split; [done|]. split; [unfold id; lia|]. vm_compute. done.
Qed.

Lemma result_is_best_recorded_witness :
  Toy.tabu_search 2 1 () = Ok 10.
Proof.
  set (st0 := {| Abc.result := 10; Abc.current := 10; Abc.last_improved := 0;
                 Abc.neighborhood_iterations := 0; Abc.world := () |}).
  set (st1 := {| Abc.result := 10; Abc.current := 10; Abc.last_improved := 0;
                 Abc.neighborhood_iterations := 1; Abc.world := () |}).
  set (st2 := {| Abc.result := 10; Abc.current := 10; Abc.last_improved := 0;
                 Abc.neighborhood_iterations := 2; Abc.world := () |}).
  set (st3 := {| Abc.result := 10; Abc.current := 5; Abc.last_improved := 0;
                 Abc.neighborhood_iterations := 2; Abc.world := () |}).
  assert (Hwalk : Abc.walk id Toy.get_neighborhoods Toy.find_best_candidate Toy.shuffle
                    1 1 [0; 1] st0 (([] ++ [5; 10]) ++ [10; 10]) st3).
  { apply (Abc.walk_cons _ _ _ _ _ _ 0 [1] st0 st1 st1 st3 ([] ++ [5; 10]));
      [reflexivity | reflexivity |].
    apply (Abc.walk_cons _ _ _ _ _ _ 1 [] st1 st2 st3 st3 []);
      [reflexivity | reflexivity |].
    apply Abc.walk_nil. }
  pose proof (result_is_best_recorded id Toy.initial Toy.get_neighborhoods
                Toy.find_best_candidate Toy.shuffle id 2 1 () 1%nat st0 st3 [0; 1] _
                eq_refl Hwalk) as (_ & _ & _ & _ & _ & Hret).
  exact (Hret eq_refl).
Defined.

(** ** The rotation over the neighborhoods *)

Section Rotation.
Context {Solution Neighborhood World : Type}.
Variable cost : Solution → Z.
Variable initial : World → res (Solution * World).
Variable get_neighborhoods : Solution → list Neighborhood.
Variable find_best_candidate : Neighborhood → World → res (option Solution * World).
Variable shuffle : Solution → World → res (Solution * World).
Variable post_optimization : Solution → Solution.

Local Abbreviation improve := (Abc.improve cost get_neighborhoods find_best_candidate).
Local Abbreviation diversify := (Abc.diversify shuffle).
Local Abbreviation run := (Abc.run cost get_neighborhoods find_best_candidate shuffle).
Local Abbreviation enter := (Abc.enter initial get_neighborhoods).
Local Abbreviation tabu_search :=
  (Abc.tabu_search cost initial get_neighborhoods find_best_candidate shuffle post_optimization).

(** A solution without neighborhoods cannot be improved: as soon as one
    iteration is asked for, the search ends with the [StopIteration] of
    [next] on the cycle over an empty range. *)
Lemma search_without_neighborhoods (iterations_count shuffle_after : Z)
    (w w' : World) (init : Solution) :
  initial w = Ok (init, w') →
  get_neighborhoods init = [] →
  0 < iterations_count →
  tabu_search iterations_count shuffle_after w = Raise StopIteration.
Proof.
  intros Hinit Hnone Hcount.
  unfold Abc.tabu_search, Abc.search, Abc.enter. rewrite Hinit. simpl. rewrite Hnone.
  unfold Py.range. destruct (Z.to_nat iterations_count) as [|k] eqn:Hk; [lia|].
  done.
Qed.

Lemma run_counts (n : nat) (shuffle_after : Z) (xs : list Z)
    (st st' : Abc.State) (seen : list Solution) :
  run n shuffle_after xs st seen st' →
  Abc.neighborhood_iterations st' = (Abc.neighborhood_iterations st + length xs)%nat.
Proof.
  induction 1 as [st|i xs st st1 st2 st3 seen Himp Hdiv _ IH]; [simpl; lia|].
  rewrite IH. simpl.
  assert (H2 : Abc.neighborhood_iterations st2 = Abc.neighborhood_iterations st1).
  { unfold Abc.diversify in Hdiv. case_bool_decide; [|by injection Hdiv as <-].
    apply bind_Ok in Hdiv as ([c w] & _ & Hdiv). by injection Hdiv as <-. }
  assert (H1 : Abc.neighborhood_iterations st1 = S (Abc.neighborhood_iterations st)).
  { unfold Abc.improve in Himp.
    apply bind_Ok in Himp as ([k it] & Hk & Himp).
    unfold Py.cycle_next in Hk. case_bool_decide; [done|]. injection Hk as <- <-.
    apply bind_Ok in Himp as (nb & _ & Himp).
    apply bind_Ok in Himp as ([[c|] w] & _ & Himp); [|done].
    destruct (Abc.lt cost c (Abc.current st)); by injection Himp as <-. }
  lia.
Qed.

(** The neighborhoods are asked in rotation, and the rotation is fixed by
    the initial solution: after [k] iterations that found a candidate, the
    next one asks the current solution for its neighborhood number
    [k mod n], where [n] is the number of neighborhoods that the initial
    solution had. *)
Lemma neighborhoods_in_rotation (shuffle_after : Z) (w w' : World) (init : Solution)
    (n : nat) (st0 st : Abc.State) (xs : list Z) (seen : list Solution) :
  initial w = Ok (init, w') →
  get_neighborhoods init ≠ [] →
  enter w = Ok (n, st0) →
  run n shuffle_after xs st0 seen st →
  n = length (get_neighborhoods init) ∧
  Py.cycle_next n (Abc.neighborhood_iterations st) =
    Ok (Z.of_nat (length xs `mod` n), S (length xs)).
Proof.
  intros Hinit Hsome Henter Hrun.
  unfold Abc.enter in Henter. rewrite Hinit in Henter. simpl in Henter.
  injection Henter as <- <-. split; [done|].
  rewrite (run_counts _ _ _ _ _ _ Hrun). simpl.
  unfold Py.cycle_next. rewrite bool_decide_false; [done|].
  destruct (get_neighborhoods init); [done|]. simpl. lia.
Qed.

End Rotation.

Lemma search_without_neighborhoods_witness :
  Abc.tabu_search id Toy.initial (λ _ : Z, @nil Z) Toy.find_best_candidate Toy.shuffle id
    3 50 () = Raise StopIteration.
Proof.
  apply (search_without_neighborhoods id Toy.initial (λ _ : Z, @nil Z)
           Toy.find_best_candidate Toy.shuffle id 3 50 () () 10);
    [reflexivity | reflexivity | lia].
Defined.

Lemma neighborhoods_in_rotation_witness :
  ∃ st, Toy.search 2 1 () = Ok st ∧
        Py.cycle_next 1 (Abc.neighborhood_iterations st) = Ok (Z.of_nat (2 `mod` 1), 3%nat).
Proof.
  set (st0 := {| Abc.result := 10; Abc.current := 10; Abc.last_improved := 0;
                 Abc.neighborhood_iterations := 0; Abc.world := () |}).
  set (st1 := {| Abc.result := 10; Abc.current := 10; Abc.last_improved := 0;
                 Abc.neighborhood_iterations := 1; Abc.world := () |}).
  set (st2 := {| Abc.result := 10; Abc.current := 10; Abc.last_improved := 0;
                 Abc.neighborhood_iterations := 2; Abc.world := () |}).
  set (st3 := {| Abc.result := 10; Abc.current := 5; Abc.last_improved := 0;
                 Abc.neighborhood_iterations := 2; Abc.world := () |}).
  assert (Hrun : Abc.run id Toy.get_neighborhoods Toy.find_best_candidate Toy.shuffle
                   1 1 [0; 1] st0 ([] ++ [10] ++ [10]) st3).
  { apply (Abc.run_cons _ _ _ _ _ _ 0 [1] st0 st1 st1 st3 ([] ++ [10]));
      [reflexivity | reflexivity |].
    apply (Abc.run_cons _ _ _ _ _ _ 1 [] st1 st2 st3 st3 []);
      [reflexivity | reflexivity |].
    apply Abc.run_nil. }
  exists st3. split; [reflexivity|].
  assert (Hsome : Toy.get_neighborhoods 10 ≠ []) by discriminate.
  exact (proj2 (neighborhoods_in_rotation id Toy.initial Toy.get_neighborhoods
                  Toy.find_best_candidate Toy.shuffle 1 () () 10 1%nat st0 st3 [0; 1] _
                  eq_refl Hsome eq_refl Hrun)).
Defined.

(** ** The swap neighborhood without moves *)

Section SwapStarved.
Variable P : Tsp.Problem.
Variables first_length second_length : Z.

Lemma mapM_static_nil (solution : Tsp.PathSolution) (concurrency : nat) :
  mapM (Tsp.static_find_best_candidate P solution) (replicate concurrency []) =
  Ok (replicate concurrency (None, None)).
Proof.
  induction concurrency as [|c IH]; [done|].
  simpl. rewrite IH. done.
Qed.

Lemma reduce_nothing (concurrency : nat) (result : option Tsp.PathSolution)
    (min_swap : option Tsp.Move) :
  Tsp.reduce (replicate concurrency (None, None)) result min_swap = (result, min_swap).
Proof. induction concurrency as [|c IH]; [done|]. simpl. exact IH. Qed.

(** Without descriptors every shard is empty and nothing is recorded. *)
Lemma find_best_candidate_nil (cpu_count : option nat) (solution : Tsp.PathSolution)
    (memory : Tsp.TabuMemory) :
  Tsp.enumerate P first_length second_length solution = Ok [] →
  Tsp.find_best_candidate P first_length second_length cpu_count solution memory =
  Ok (None, memory).
Proof.
  intros Henum. unfold Tsp.find_best_candidate. rewrite Henum. simpl.
  unfold Tsp.shards. simpl. rewrite mapM_static_nil. simpl.
  by rewrite reduce_nothing.
Qed.

(** Segments that do not fit into the tour leave nothing to enumerate. *)
Lemma enumerate_nil (solution : Tsp.PathSolution) :
  Tsp.dimension P < first_length + second_length →
  Tsp.enumerate P first_length second_length solution = Ok [].
Proof.
  intros Hlt. unfold Tsp.enumerate, Tsp.offsets.
  replace (Py.range (Tsp.dimension P - first_length - second_length + 1)) with (@nil Z).
  - induction (Py.range (Tsp.dimension P)) as [|i l IH]; [done|].
    simpl in *. exact IH.
  - unfold Py.range. by replace (Z.to_nat _) with 0%nat by lia.
Qed.

End SwapStarved.




(** ** The multi-objective driver *)

Section MultiObjective.
Context {Solution Neighborhood World : Type}.
Variable cost : Solution → list Z.
Variable initial : World → res (Solution * World).
Variable get_neighborhoods : Solution → list Neighborhood.
Variable find_best_candidates : Neighborhood → World → res (list Solution * World).
Variable add_to_pareto_set : Solution → list Solution → bool * list Solution.
Variable shuffle : Solution → World → res (Solution * World).
Variable post_optimization : Solution → World → res (Solution * World).
Variable random : World → nat * World.

Local Abbreviation explore :=
  (MultiOb.explore cost get_neighborhoods find_best_candidates add_to_pareto_set random).
Local Abbreviation body :=
  (MultiOb.body cost get_neighborhoods find_best_candidates add_to_pareto_set shuffle random).
Local Abbreviation tabu_search :=
  (MultiOb.tabu_search cost initial get_neighborhoods find_best_candidates
     add_to_pareto_set shuffle post_optimization random).

(** C3, what the code does. Whether or not a plot is asked for, an initial
    solution whose cost has not exactly two objectives makes the search
    raise the [ValueError] about plotting. *)
Theorem arity_check_ignores_plot_flag (iterations_count : Z)
    (propagation_predicate : Solution → list Solution → bool)
    (shuffle_after : Z) (max_propagation : MultiOb.MaxPropagation Solution)
    (plot_pareto_front : bool) (w w' : World) (s : Solution) :
  initial w = Ok (s, w') →
  length (cost s) ≠ 2%nat →
  tabu_search iterations_count propagation_predicate shuffle_after max_propagation
    plot_pareto_front w =
  Raise (ValueError "Cannot plot the Pareto front when the number of objectives is not 2").
Proof.
  intros Hinit Hlen. unfold MultiOb.tabu_search, MultiOb.enter.
  rewrite Hinit. simpl. by rewrite bool_decide_true.
Qed.

(** The staging loop adds every staged candidate to [current] and leaves
    [last_improved] at the iteration number as soon as there is one. *)
Lemma stage_spec (iteration : Z) (propagate current : list Solution) (last_improved : Z) :
  MultiOb.stage cost iteration propagate current last_improved =
  (foldl (MultiOb.add cost) current propagate,
   match propagate with [] => last_improved | _ => iteration end).
Proof.
  unfold MultiOb.stage.
  destruct propagate as [|c propagate]; [done|]. simpl.
  generalize (MultiOb.add cost current c). clear c current.
  induction propagate as [|c propagate IH]; intros current; [done|].
  simpl. apply IH.
Qed.

(** C7, amended. In each iteration the stagnation counter is reset to the
    iteration number if and only if at least one candidate was staged for
    propagation, whether or not adding the staged candidates made [current]
    grow; and when, after that, the number of iterations since the last such
    reset has reached [shuffle_after], [current] becomes the set of the
    shuffles of its members. *)
Theorem stagnation_counter_follows_staging
    (propagation_predicate : Solution → list Solution → bool)
    (shuffle_after : Z) (max_propagation : MultiOb.MaxPropagation Solution)
    (iteration : Z) (st st' : MultiOb.State) (e : MultiOb.Exploration) :
  explore propagation_predicate st = Ok e →
  body propagation_predicate shuffle_after max_propagation iteration st =
    Ok (Abc.Continue st') →
  let staged := foldl (MultiOb.add cost) (MultiOb.current st) (MultiOb.propagate e) in
  (MultiOb.propagate e ≠ [] → MultiOb.last_improved st' = iteration) ∧
  (MultiOb.propagate e = [] → MultiOb.last_improved st' = MultiOb.last_improved st) ∧
  ∃ bounded w,
    MultiOb.bound cost random max_propagation (MultiOb.front_ e) staged (MultiOb.world_ e) =
      Ok (bounded, w) ∧
    (shuffle_after ≤ iteration - MultiOb.last_improved st' →
     MultiOb.set_map cost shuffle bounded [] w =
       Ok (MultiOb.current st', MultiOb.world st')) ∧
    (¬ shuffle_after ≤ iteration - MultiOb.last_improved st' →
     MultiOb.current st' = bounded).
Proof.
  intros Hexp Hbody staged. unfold MultiOb.body in Hbody.
  rewrite Hexp in Hbody. simpl in Hbody. rewrite stage_spec in Hbody.
  fold staged in Hbody.
  apply bind_Ok in Hbody as ([bounded w] & Hbound & Hbody).
  apply bind_Ok in Hbody as ([cur w2] & Hdiv & Hbody).
  injection Hbody as <-. simpl.
  split; [by destruct (MultiOb.propagate e)|].
  split; [by intros ->|].
  exists bounded, w. split; [done|].
  unfold MultiOb.diversify in Hdiv.
  split; intros Hcmp.
  - by rewrite bool_decide_true in Hdiv.
  - rewrite bool_decide_false in Hdiv by done. by injection Hdiv as <- <-.
Qed.

End MultiObjective.

(** C3 at a failing input: three objectives and no plot asked for. *)
Lemma arity_check_ignores_plot_flag_witness :
  Three.tabu_search false =
  Raise (ValueError "Cannot plot the Pareto front when the number of objectives is not 2").
Proof.
  assert (Hlen : length (id [3; 4; 5]) ≠ 2%nat) by (simpl; lia).
  exact (arity_check_ignores_plot_flag id Three.initial Flat.get_neighborhoods
           Flat.find_best_candidates (MultiOb.add_to_pareto_set id) Flat.shuffle
           Flat.shuffle Flat.random 10 MultiOb._accept_all 5 MultiOb.Unbounded
           false () () [3; 4; 5] eq_refl Hlen).
Defined.

(** C7 as stated fails. In iteration 1 the candidate offered has the cost
    of the only member of [current]: it is staged, [current] does not grow,
    and the counter is reset from 0 to 1. *)
Lemma counter_reset_without_growth :
  ∃ st0 st1 st2,
    Flat.enter false () = Ok st0 ∧
    Flat.body 0 st0 = Ok (Abc.Continue st1) ∧
    Flat.body 1 st1 = Ok (Abc.Continue st2) ∧
    MultiOb.current st1 = [[3; 4]] ∧ MultiOb.current st2 = [[3; 4]] ∧
    MultiOb.last_improved st1 = 0 ∧ MultiOb.last_improved st2 = 1.
Proof.
  do 3 eexists. split; [reflexivity|]. split; [reflexivity|].
  split; [reflexivity|]. done.
Qed.

Lemma stagnation_counter_follows_staging_witness :
  ∃ st1 st2,
    Flat.body 1 st1 = Ok (Abc.Continue st2) ∧
    MultiOb.last_improved st1 = 0 ∧ MultiOb.last_improved st2 = 1.
Proof.
  set (st1 := {| MultiOb.results := [[3; 4]]; MultiOb.current := [[3; 4]];
                 MultiOb.candidate_costs := None; MultiOb.last_improved := 0;
                 MultiOb.world := () |}).
  set (st2 := {| MultiOb.results := [[3; 4]]; MultiOb.current := [[3; 4]];
                 MultiOb.candidate_costs := None; MultiOb.last_improved := 1;
                 MultiOb.world := () |}).
  set (e := {| MultiOb.propagate := [[3; 4]]; MultiOb.front_ := [[3; 4]];
               MultiOb.costs_ := None; MultiOb.world_ := () |}).
  exists st1, st2.
  assert (Hexp : MultiOb.explore id Flat.get_neighborhoods Flat.find_best_candidates
                   (MultiOb.add_to_pareto_set id) Flat.random MultiOb._accept_all st1 = Ok e)
    by reflexivity.
  assert (Hbody : Flat.body 1 st1 = Ok (Abc.Continue st2)) by reflexivity.
  pose proof (stagnation_counter_follows_staging id Flat.get_neighborhoods
                Flat.find_best_candidates (MultiOb.add_to_pareto_set id) Flat.shuffle
                Flat.random MultiOb._accept_all 1 MultiOb.Unbounded 1 st1 st2 e
                Hexp Hbody) as (Hreset & _).
  split; [exact Hbody|]. split; [reflexivity|].
  apply Hreset. discriminate.
Defined.

(** ** The working set of the multi-objective driver *)

(** What a loop keeps, it keeps to the end. *)
Lemma for_loop_invariant {X S : Type} (inv : S → Prop) (body : X → S → res (Abc.flow S))
    (xs : list X) (s s' : S) :
  (∀ x s r, inv s → body x s = Ok r →
            match r with Abc.Continue s' | Abc.Break s' => inv s' end) →
  inv s → Abc.for_loop body xs s = Ok s' → inv s'.
Proof.
  intros Hbody. revert s. induction xs as [|x xs IH]; intros s Hinv H.
  - by injection H as <-.
  - simpl in H. apply bind_Ok in H as (r & Hr & H).
    specialize (Hbody x s r Hinv Hr). destruct r as [s1|s1].
    + by apply (IH s1).
    + by injection H as <-.
Qed.

Section WorkingSet.
Context {Solution Neighborhood World : Type}.
Variable cost : Solution → list Z.
Variable initial : World → res (Solution * World).
Variable get_neighborhoods : Solution → list Neighborhood.
Variable find_best_candidates : Neighborhood → World → res (list Solution * World).
Variable add_to_pareto_set : Solution → list Solution → bool * list Solution.
Variable shuffle : Solution → World → res (Solution * World).
Variable post_optimization : Solution → World → res (Solution * World).
Variable random : World → nat * World.

Local Abbreviation explore :=
  (MultiOb.explore cost get_neighborhoods find_best_candidates add_to_pareto_set random).
Local Abbreviation body :=
  (MultiOb.body cost get_neighborhoods find_best_candidates add_to_pareto_set shuffle random).
Local Abbreviation tabu_search :=
  (MultiOb.tabu_search cost initial get_neighborhoods find_best_candidates
     add_to_pareto_set shuffle post_optimization random).
Local Abbreviation add := (MultiOb.add cost).
Local Abbreviation remove := (MultiOb.remove cost).

Lemma contains_cost (s : list Solution) (x : Solution) :
  MultiOb.contains cost s x = true ↔ cost x ∈ cost <$> s.
Proof.
  unfold MultiOb.contains. rewrite existsb_exists, list_elem_of_fmap.
  split.
  - intros (y & Hy & Hsame). apply bool_decide_eq_true in Hsame.
    exists y. split; [done|]. by apply list_elem_of_In.
  - intros (y & Hcost & Hy). exists y. split; [by apply list_elem_of_In|].
    by apply bool_decide_eq_true.
Qed.

(** A set holds no two members of the same cost. *)
Lemma add_NoDup (s : list Solution) (x : Solution) :
  NoDup (cost <$> s) → NoDup (cost <$> add s x).
Proof.
  intros Hs. unfold MultiOb.add.
  destruct (MultiOb.contains cost s x) eqn:Hc; [done|].
  rewrite fmap_app. apply NoDup_app. split; [done|]. split; [|apply NoDup_singleton].
  intros c Hin Hx. apply list_elem_of_singleton in Hx as ->.
  apply contains_cost in Hin. congruence.
Qed.

Lemma length_add (s : list Solution) (x : Solution) :
  (length s ≤ length (add s x) ≤ S (length s))%nat.
Proof.
  unfold MultiOb.add. destruct (MultiOb.contains cost s x); [lia|].
  rewrite length_app. simpl. lia.
Qed.

Lemma foldl_add_NoDup (xs s : list Solution) :
  NoDup (cost <$> s) → NoDup (cost <$> foldl add s xs).
Proof.
  revert s. induction xs as [|x xs IH]; intros s Hs; [done|].
  simpl. by apply IH, add_NoDup.
Qed.

(** Removing a member of a set takes out that member and no other. *)
Lemma remove_delete (s : list Solution) (i : nat) (x : Solution) :
  NoDup (cost <$> s) → s !! i = Some x → remove s x = delete i s.
Proof.
  unfold MultiOb.remove. revert i. induction s as [|y s IH]; intros i Hs Hi; [done|].
  rewrite fmap_cons in Hs. apply NoDup_cons in Hs as [Hy Hs].
  destruct i as [|i]; simpl in *.
  - injection Hi as ->.
    rewrite filter_cons_False by (unfold MultiOb.same; by rewrite bool_decide_true).
    clear IH Hs. induction s as [|z s IH]; [done|].
    rewrite fmap_cons, not_elem_of_cons in Hy. destruct Hy as [Hz Hy].
    rewrite filter_cons_True by (unfold MultiOb.same; by apply bool_decide_eq_false).
    f_equal. by apply IH.
  - rewrite filter_cons_True.
    + f_equal. by apply IH.
    + unfold MultiOb.same. apply bool_decide_eq_false. intros Heq.
      apply Hy. rewrite <- Heq. apply list_elem_of_fmap. exists x.
      split; [done|]. by eapply list_elem_of_lookup_2.
Qed.

Lemma delete_NoDup_cost (s : list Solution) (i : nat) :
  NoDup (cost <$> s) → NoDup (cost <$> delete i s).
Proof.
  intros Hs. eapply sublist_NoDup; [exact Hs|].
  apply fmap_sublist, sublist_delete.
Qed.

(** The members drawn by [random.sample] are removed one by one. *)
Lemma draw_remove (k : nat) (population : list Solution) (w : World) :
  NoDup (cost <$> population) → (k ≤ length population)%nat →
  let result := foldl remove population (MultiOb.draw random population k w).1 in
  length result = (length population - k)%nat ∧
  result ⊆ population ∧ NoDup (cost <$> result).
Proof.
  revert population w. induction k as [|k IH]; intros population w Hnd Hk; simpl.
  - split; [lia|]. done.
  - destruct (random w) as [r w1].
    assert (Hi : (r `mod` length population < length population)%nat)
      by (apply Nat.mod_upper_bound; lia).
    set (i := (r `mod` length population)%nat) in *.
    destruct (lookup_lt_is_Some_2 _ _ Hi) as [x Hx]. rewrite Hx.
    destruct (MultiOb.draw random (delete i population) k w1) as [xs w2] eqn:Hdraw. simpl.
    rewrite (remove_delete _ _ _ Hnd Hx).
    pose proof (IH (delete i population) w1) as IH'.
    rewrite Hdraw in IH'. simpl in IH'.
    destruct IH' as (Hlen & Hsub & Hnd').
    + by apply delete_NoDup_cost.
    + rewrite length_delete by eauto. lia.
    + rewrite length_delete in Hlen by eauto.
      split; [lia|]. split; [|done].
      intros z Hz. apply Hsub in Hz.
      eapply elem_of_sublist; [exact Hz|apply sublist_delete].
Qed.

(** The trimming of the working set to a number [n >= 0] of solutions. *)
Lemma bound_fixed (n : Z) (results current : list Solution) (w : World) :
  NoDup (cost <$> current) → 0 ≤ n →
  ∃ current' w', MultiOb.bound cost random (MultiOb.Fixed n) results current w =
                   Ok (current', w') ∧
                 Z.of_nat (length current') = Z.min (Z.of_nat (length current)) n ∧
                 current' ⊆ current ∧ NoDup (cost <$> current').
Proof.
  intros Hnd Hn. unfold MultiOb.bound, MultiOb.sample.
  case_bool_decide as Hmore.
  - rewrite bool_decide_true by lia. simpl.
    destruct (MultiOb.draw random current _ w) as [chosen w'] eqn:Hdraw. simpl.
    pose proof (draw_remove (Z.to_nat (Z.of_nat (length current) - n)) current w Hnd) as H.
    rewrite Hdraw in H. simpl in H. destruct H as (Hlen & Hsub & Hnd'); [lia|].
    eexists _, _. split; [done|]. split; [lia|]. done.
  - eexists _, _. split; [done|]. split; [lia|]. done.
Qed.

Lemma set_map_bounded (f : Solution → World → res (Solution * World))
    (s acc s' : list Solution) (w w' : World) :
  NoDup (cost <$> acc) →
  MultiOb.set_map cost f s acc w = Ok (s', w') →
  (length s' ≤ length acc + length s)%nat ∧ NoDup (cost <$> s').
Proof.
  revert acc w. induction s as [|x s IH]; intros acc w Hacc H.
  - injection H as <- <-. simpl. split; [lia|done].
  - simpl in H. apply bind_Ok in H as ([y w1] & _ & H).
    apply IH in H as [Hlen Hnd]; [|by apply add_NoDup].
    pose proof (length_add acc y). simpl. split; [lia|done].
Qed.

(** With a number [n >= 0] for [max_propagation], every iteration leaves
    a working set of at most [n] solutions, no two of them of the same cost. *)
Lemma working_set_stays_bounded
    (propagation_predicate : Solution → list Solution → bool)
    (shuffle_after n iteration : Z) (st st' : MultiOb.State) :
  0 ≤ n →
  NoDup (cost <$> MultiOb.current st) →
  body propagation_predicate shuffle_after (MultiOb.Fixed n) iteration st =
    Ok (Abc.Continue st') →
  Z.of_nat (length (MultiOb.current st')) ≤ n ∧ NoDup (cost <$> MultiOb.current st').
Proof.
  intros Hn Hnd Hbody. unfold MultiOb.body in Hbody.
  apply bind_Ok in Hbody as (e & _ & Hbody).
  rewrite stage_spec in Hbody.
  apply bind_Ok in Hbody as ([bounded w] & Hbound & Hbody).
  apply bind_Ok in Hbody as ([cur w2] & Hdiv & Hbody).
  injection Hbody as <-. simpl.
  destruct (bound_fixed n (MultiOb.front_ e)
              (foldl add (MultiOb.current st) (MultiOb.propagate e)) (MultiOb.world_ e))
    as (current' & w' & Hbound' & Hlen & _ & Hnd'); [by apply foldl_add_NoDup|done|].
  rewrite Hbound' in Hbound. injection Hbound as <- <-.
  unfold MultiOb.diversify in Hdiv. case_bool_decide.
  - apply set_map_bounded in Hdiv as [Hlen' Hnd'']; [|constructor].
    simpl in Hlen'. split; [lia|done].
  - injection Hdiv as <- <-. split; [lia|done].
Qed.

(** A negative number for [max_propagation] ends the first iteration
    whose candidates could be collected with the [ValueError] of
    [random.sample]: more members are to be removed than there are. *)
Lemma negative_bound_raises
    (propagation_predicate : Solution → list Solution → bool)
    (shuffle_after n iteration : Z) (st : MultiOb.State) (e : MultiOb.Exploration) :
  n < 0 →
  explore propagation_predicate st = Ok e →
  body propagation_predicate shuffle_after (MultiOb.Fixed n) iteration st =
    Raise (ValueError "Sample larger than population or is negative").
Proof.
  intros Hn Hexp. unfold MultiOb.body. rewrite Hexp. simpl.
  destruct (MultiOb.stage _ _ _ _ _) as [current last] eqn:Hstage.
  unfold MultiOb.bound, MultiOb.sample.
  rewrite bool_decide_true by lia. by rewrite bool_decide_false by lia.
Qed.

Lemma consider_costs (propagation_predicate : Solution → list Solution → bool)
    (candidates : list Solution) (e : MultiOb.Exploration (World := World)) :
  MultiOb.costs_ e = None →
  MultiOb.costs_ (foldl (λ e candidate,
                           MultiOb.consider cost add_to_pareto_set propagation_predicate
                             candidate e) e candidates) = None.
Proof.
  revert e. induction candidates as [|c candidates IH]; intros e He; [done|].
  simpl. apply IH. unfold MultiOb.consider.
  destruct (add_to_pareto_set c (MultiOb.front_ e)). simpl. by rewrite He.
Qed.

(** Without [plot_pareto_front] the costs of the candidates are not
    collected in any iteration and nothing is drawn. *)
Lemma no_plot_unless_asked (iterations_count : Z)
    (propagation_predicate : Solution → list Solution → bool)
    (shuffle_after : Z) (max_propagation : MultiOb.MaxPropagation Solution)
    (w : World) (front : list Solution) (drawn : option MultiOb.Plot) :
  tabu_search iterations_count propagation_predicate shuffle_after max_propagation false w =
    Ok (front, drawn) →
  drawn = None.
Proof.
  intros H. unfold MultiOb.tabu_search in H.
  apply bind_Ok in H as (st0 & Henter & H).
  apply bind_Ok in H as (st & Hloop & H).
  apply bind_Ok in H as (drawn' & Hplot & H).
  apply bind_Ok in H as ([front' w'] & _ & H). injection H as _ <-.
  assert (Hnone : MultiOb.candidate_costs st = None).
  { eapply (for_loop_invariant (λ st, MultiOb.candidate_costs st = None)); [| |exact Hloop].
    - intros iteration s r Hs Hbody. unfold MultiOb.body in Hbody.
      apply bind_Ok in Hbody as (e & Hexp & Hbody).
      destruct (MultiOb.stage _ _ _ _ _) as [current last].
      apply bind_Ok in Hbody as ([bounded w1] & _ & Hbody).
      apply bind_Ok in Hbody as ([cur w2] & _ & Hbody).
      injection Hbody as <-. simpl.
      eapply (for_loop_invariant (λ e, MultiOb.costs_ e = None)); [| |exact Hexp]; [|done].
      intros x e0 r0 He0 Hvisit. unfold MultiOb.visit in Hvisit.
      apply bind_Ok in Hvisit as ([nb w3] & _ & Hvisit).
      apply bind_Ok in Hvisit as ([candidates w4] & _ & Hvisit).
      injection Hvisit as <-. by apply consider_costs.
    - unfold MultiOb.enter in Henter.
      apply bind_Ok in Henter as ([s0 w0] & _ & Henter).
      case_bool_decide; [done|]. by injection Henter as <-. }
  unfold MultiOb.plot in Hplot. rewrite Hnone in Hplot. by injection Hplot as <-.
Qed.

(** Every member of the working set is asked for a neighborhood: a
    solution without neighborhoods ends the search, as soon as one iteration
    is asked for, with the [IndexError] of [random.choice] on an empty
    sequence. *)
Lemma choice_without_neighborhoods (iterations_count : Z)
    (propagation_predicate : Solution → list Solution → bool)
    (shuffle_after : Z) (max_propagation : MultiOb.MaxPropagation Solution)
    (plot_pareto_front : bool) (w w' : World) (s : Solution) :
  initial w = Ok (s, w') →
  length (cost s) = 2%nat →
  get_neighborhoods s = [] →
  0 < iterations_count →
  tabu_search iterations_count propagation_predicate shuffle_after max_propagation
    plot_pareto_front w = Raise IndexError.
Proof.
  intros Hinit Hcost Hnone Hcount.
  unfold MultiOb.tabu_search, MultiOb.enter. rewrite Hinit. simpl.
  rewrite bool_decide_false by (rewrite Hcost; lia). simpl.
  unfold Py.range. destruct (Z.to_nat iterations_count) as [|k] eqn:Hk; [lia|].
  simpl. unfold MultiOb.body, MultiOb.explore. simpl.
  unfold MultiOb.visit. by rewrite Hnone.
Qed.

End WorkingSet.

(** One iteration of the search of module [Spread] with a working set of
    at most one solution: the candidate is staged, and one of the two
    solutions is drawn and removed. *)
Lemma working_set_stays_bounded_witness :
  ∃ st st',
    Flat.enter false () = Ok st ∧
    Spread.body 1 0 st = Ok (Abc.Continue st') ∧
    Z.of_nat (length (MultiOb.current st')) ≤ 1 ∧
    NoDup (id <$> MultiOb.current st').
Proof.
  set (st := {| MultiOb.results := [[3; 4]]; MultiOb.current := [[3; 4]];
                MultiOb.candidate_costs := None; MultiOb.last_improved := 0;
                MultiOb.world := () |}).
  set (st' := {| MultiOb.results := [[3; 4]; [4; 3]]; MultiOb.current := [[4; 3]];
                 MultiOb.candidate_costs := None; MultiOb.last_improved := 0;
                 MultiOb.world := () |}).
  exists st, st'. split; [reflexivity|]. split; [reflexivity|].
  apply (working_set_stays_bounded id Flat.get_neighborhoods Spread.find_best_candidates
           (MultiOb.add_to_pareto_set id) Flat.shuffle Flat.random
           MultiOb._accept_all 5 1 0 st st'); [lia | | reflexivity].
  simpl. apply NoDup_singleton.
Defined.

Lemma negative_bound_raises_witness :
  ∃ st, Flat.enter false () = Ok st ∧
        Spread.body (-1) 0 st =
          Raise (ValueError "Sample larger than population or is negative").
Proof.
  set (st := {| MultiOb.results := [[3; 4]]; MultiOb.current := [[3; 4]];
                MultiOb.candidate_costs := None; MultiOb.last_improved := 0;
                MultiOb.world := () |}).
  exists st. split; [reflexivity|].
  eapply (negative_bound_raises id Flat.get_neighborhoods Spread.find_best_candidates
            (MultiOb.add_to_pareto_set id) Flat.shuffle Flat.random
            MultiOb._accept_all 5 (-1) 0 st); [lia | reflexivity].
Defined.

Lemma no_plot_unless_asked_witness :
  ∃ front drawn, Spread.tabu_search 3 false = Ok (front, drawn) ∧ drawn = None.
Proof.
  exists [[3; 4]; [4; 3]; [5; 2]; [6; 1]], None. split; [reflexivity|].
  apply (no_plot_unless_asked id Flat.initial Flat.get_neighborhoods
           Spread.find_best_candidates (MultiOb.add_to_pareto_set id) Flat.shuffle
           Flat.shuffle Flat.random 3 MultiOb._accept_all 5 MultiOb.Unbounded ()
           [[3; 4]; [4; 3]; [5; 2]; [6; 1]] None).
  reflexivity.
Defined.

Lemma choice_without_neighborhoods_witness :
  MultiOb.tabu_search id Flat.initial (λ _ : list Z, @nil (list Z)) Flat.find_best_candidates
    (MultiOb.add_to_pareto_set id) Flat.shuffle Flat.shuffle Flat.random
    3 MultiOb._accept_all 5 MultiOb.Unbounded false () = Raise IndexError.
Proof.
  apply (choice_without_neighborhoods id Flat.initial (λ _ : list Z, @nil (list Z))
           Flat.find_best_candidates (MultiOb.add_to_pareto_set id) Flat.shuffle
           Flat.shuffle Flat.random 3 MultiOb._accept_all 5 MultiOb.Unbounded false
           () () [3; 4]); [reflexivity | reflexivity | reflexivity | lia].
Defined.

(** ** Importing a problem *)

Section ImportProblem.
Context {float TruckConfig DroneEnduranceConfig : Type}.
Variable fzero : float.
Variable float_of_string : string → res float.
Variable read : string → res string.
Variable TruckConfig_import_data : res TruckConfig.
Variable DroneLinearConfig_import_data : res (list (D2D.DroneConfig (float := float))).
Variable DroneNonlinearConfig_import_data : res (list (D2D.DroneConfig (float := float))).
Variable DroneEnduranceConfig_import_data : res (list DroneEnduranceConfig).
Variable repr : string → string.
Variable finditer : string → list D2D.Row.

Local Abbreviation Namespace :=
  (D2D.Namespace (float := float) (TruckConfig := TruckConfig)
     (DroneEnduranceConfig := DroneEnduranceConfig)).
Local Abbreviation import_problem_try :=
  (D2D.import_problem_try (TruckConfig := TruckConfig)
     (DroneEnduranceConfig := DroneEnduranceConfig) fzero float_of_string read finditer).
Local Abbreviation ensure_config :=
  (D2D.ensure_config TruckConfig_import_data DroneLinearConfig_import_data
     DroneNonlinearConfig_import_data DroneEnduranceConfig_import_data).
Local Abbreviation import_problem :=
  (D2D.import_problem fzero float_of_string read TruckConfig_import_data
     DroneLinearConfig_import_data DroneNonlinearConfig_import_data
     DroneEnduranceConfig_import_data repr finditer).

Ltac step H :=
  match type of H with
  | match ?r with Ok _ => _ | Raise _ => _ end = _ =>
      let E := fresh "E" in destruct r eqn:E; simpl in H
  end.

(** What a failing [try] block leaves behind. *)
Lemma import_problem_try_failure (problem : string)
    (energy_mode : D2D.DroneEnergyConsumptionMode) (cls cls' : Namespace) (e : exn) :
  import_problem_try problem energy_mode cls = (cls', Raise e) →
  (∀ name, name ∈ D2D.tables → cls' !! name = cls !! name) ∧
  (∀ name, name ∉ D2D.scalars → cls' !! name = cls !! name) ∧
  (∀ e', read (D2D.join (problem +:+ ".txt")) = Raise e' → cls' = cls) ∧
  (∀ data, read (D2D.join (problem +:+ ".txt")) = Ok data →
           cls' !! "problem" = Some (D2D.VStr problem)).
Proof.
  intros H.
  assert (Hkeep : ∀ name, name ∉ D2D.scalars → cls' !! name = cls !! name).
  { intros name Hname. unfold D2D.scalars in Hname.
    rewrite !not_elem_of_cons in Hname. destruct Hname as (?&?&?&?&?&_).
    unfold D2D.import_problem_try, D2D.bind, D2D.lift, D2D.setattr in H. simpl in H.
    repeat step H; try discriminate H;
      injection H as <- _; unfold D2D.Namespace in *;
      by rewrite ?lookup_insert_ne by congruence. }
  split.
  { intros name Hname. apply Hkeep. unfold D2D.tables in Hname. unfold D2D.scalars.
    rewrite !elem_of_cons in Hname. rewrite !not_elem_of_cons.
    destruct Hname as [->|[->|[->|[->|[->|[->|[->|Hnil]]]]]]];
      [..|by apply elem_of_nil in Hnil]; repeat split; try discriminate; apply not_elem_of_nil. }
  split; [exact Hkeep|].
  unfold D2D.import_problem_try, D2D.bind, D2D.lift, D2D.setattr in H. simpl in H.
  split.
  - intros e' He'. rewrite He' in H. simpl in H. by injection H as <- _.
  - intros data Hdata. rewrite Hdata in H. simpl in H.
    repeat step H; try discriminate H;
      injection H as <- _; unfold D2D.Namespace in *;
      by rewrite ?lookup_insert_ne, lookup_insert_eq by congruence.
Qed.

(** Loading the configuration touches neither the tables nor the scalars. *)
Lemma ensure_config_keeps (cls cls0 : Namespace) (r : res unit) (name : string) :
  ensure_config cls = (cls0, r) →
  name ∈ D2D.tables ++ D2D.scalars →
  cls0 !! name = cls !! name.
Proof.
  intros H Hname.
  assert (Hne : name ≠ "truck_config" ∧ name ≠ "drone_linear_config" ∧
                name ≠ "drone_nonlinear_config" ∧ name ≠ "drone_endurance_config" ∧
                name ≠ "_D2DPathSolution__config_imported").
  { unfold D2D.tables, D2D.scalars in Hname. simpl in Hname.
    rewrite !elem_of_cons in Hname.
    repeat (destruct Hname as [->|Hname]; [repeat split; discriminate|]).
    by apply elem_of_nil in Hname. }
  destruct Hne as (?&?&?&?&?).
  unfold D2D.ensure_config, D2D.bind, D2D.getattr in H.
  destruct (cls !! "_D2DPathSolution__config_imported") as [imported|].
  - destruct (D2D.truth imported).
    + by injection H as <- _.
    + unfold D2D.import_config, D2D.bind, D2D.lift, D2D.setattr in H. simpl in H.
      destruct TruckConfig_import_data; simpl in H;
        [destruct DroneLinearConfig_import_data; simpl in H;
         [destruct DroneNonlinearConfig_import_data; simpl in H;
          [destruct DroneEnduranceConfig_import_data; simpl in H|]|]|];
        injection H as <- _; unfold D2D.Namespace in *;
        by rewrite ?lookup_insert_ne by congruence.
  - by injection H as <- _.
Qed.

(** The configuration step assigns configuration attributes only, and
    nothing at all on a class whose flag is set. *)
Lemma ensure_config_state (cls cls0 : Namespace) (r : res unit) :
  ensure_config cls = (cls0, r) →
  (∀ name, name ∉ D2D.configuration → cls0 !! name = cls !! name) ∧
  (∀ imported, cls !! "_D2DPathSolution__config_imported" = Some imported →
               D2D.truth imported = true → cls0 = cls).
Proof.
  intros H. split.
  - intros name Hname. unfold D2D.configuration in Hname.
    rewrite !not_elem_of_cons in Hname. destruct Hname as (?&?&?&?&?&_).
    unfold D2D.ensure_config, D2D.bind, D2D.getattr in H.
    destruct (cls !! "_D2DPathSolution__config_imported") as [imported|].
    + destruct (D2D.truth imported).
      * by injection H as <- _.
      * unfold D2D.import_config, D2D.bind, D2D.lift, D2D.setattr in H. simpl in H.
        destruct TruckConfig_import_data; simpl in H;
          [destruct DroneLinearConfig_import_data; simpl in H;
           [destruct DroneNonlinearConfig_import_data; simpl in H;
            [destruct DroneEnduranceConfig_import_data; simpl in H|]|]|];
          injection H as <- _; unfold D2D.Namespace in *;
          by rewrite ?lookup_insert_ne by congruence.
    + by injection H as <- _.
  - intros imported Hflag Htrue.
    unfold D2D.ensure_config, D2D.bind, D2D.getattr in H.
    rewrite Hflag, Htrue in H. by injection H as <- _.
Qed.

(** A call on a class with its configuration, for a problem whose file
    gives the number of customers and not the number of drones. *)
Lemma import_problem_without_drones (problem : string)
    (energy_mode : D2D.DroneEnergyConsumptionMode) (cls : Namespace) (data g : string) :
  cls !! "_D2DPathSolution__config_imported" = Some (D2D.VBool true) →
  read (D2D.join (problem +:+ ".txt")) = Ok data →
  D2D.search "Customers " data = Some g →
  D2D.search "number_drone " data = None →
  import_problem problem energy_mode cls =
    (<["customers_count" := D2D.VInt (D2D.int g)]> (<["problem" := D2D.VStr problem]> cls),
     Raise (ImportException ("Unable to import problem " +:+ repr problem))).
Proof.
  intros Hflag Hread Hcustomers Hdrones.
  unfold D2D.import_problem, D2D.bind, D2D.ensure_config, D2D.bind, D2D.getattr.
  rewrite Hflag. cbn [D2D.truth D2D.ret].
  unfold D2D.try_except, D2D.import_problem_try, D2D.bind, D2D.lift, D2D.setattr.
  rewrite Hread, Hcustomers, Hdrones. done.
Qed.

(** C6, amended. When the configuration step succeeds and [import_problem]
    then fails, it raises the [ImportException] whose message names the
    problem (through [repr]); the tables of the problem and the energy mode
    are as before the call; when the problem file cannot be read, the class
    is as the configuration step left it, which is the class before the
    call if its flag was set, and otherwise differs from it in the four
    configurations and the flag only; once the file was read, [problem] is
    bound to the new identifier, and besides the configuration only
    attributes among [problem], [customers_count], [drones_count],
    [technicians_count] and [drones_flight_duration] may differ from what
    they were. *)
Theorem import_failure_keeps_tables (problem : string)
    (energy_mode : D2D.DroneEnergyConsumptionMode) (cls cls0 cls' : Namespace) (e : exn) :
  ensure_config cls = (cls0, Ok ()) →
  import_problem problem energy_mode cls = (cls', Raise e) →
  e = ImportException ("Unable to import problem " +:+ repr problem) ∧
  (∀ name, name ∈ D2D.tables → cls' !! name = cls !! name) ∧
  (∀ name, name ∉ D2D.scalars → cls' !! name = cls0 !! name) ∧
  (∀ e', read (D2D.join (problem +:+ ".txt")) = Raise e' → cls' = cls0) ∧
  (∀ data, read (D2D.join (problem +:+ ".txt")) = Ok data →
           cls' !! "problem" = Some (D2D.VStr problem)) ∧
  (∀ name, name ∉ D2D.configuration → cls0 !! name = cls !! name) ∧
  (∀ imported, cls !! "_D2DPathSolution__config_imported" = Some imported →
               D2D.truth imported = true → cls0 = cls) ∧
  (∀ name, name ∉ D2D.scalars ++ D2D.configuration → cls' !! name = cls !! name).
Proof.
  intros Hconfig H.
  destruct (ensure_config_state _ _ _ Hconfig) as [Hother Hsame].
  unfold D2D.import_problem, D2D.bind in H. rewrite Hconfig in H.
  unfold D2D.try_except in H.
  destruct (import_problem_try problem energy_mode cls0) as [cls1 [[]|e1]] eqn:Htry;
    [discriminate H|].
  injection H as <- <-.
  destruct (import_problem_try_failure _ _ _ _ _ Htry) as (Htab & Hkeep & Hread & Hprob).
  split; [done|].
  split.
  { intros name Hname. rewrite (Htab name Hname).
    apply (ensure_config_keeps _ _ _ _ Hconfig). apply elem_of_app. by left. }
  split; [done|]. split; [done|]. split; [done|]. split; [done|]. split; [done|].
  intros name Hname. apply not_elem_of_app in Hname as [Hs Hc].
  by rewrite (Hkeep name Hs), (Hother name Hc).
Qed.

End ImportProblem.

(** C6 as stated fails. The file of problem [B] lacks the number of drones:
    the import raises, and the class, which had no problem, is left with
    [problem = 'B'] and [customers_count = 3] and without any table. *)
Lemma import_failure_changes_state :
  ∃ cls',
    Files.import_problem "B" Files.cls =
      (cls', Raise (ImportException "Unable to import problem 'B'")) ∧
    Files.cls !! "problem" = Some D2D.VNone ∧
    cls' !! "problem" = Some (D2D.VStr "B") ∧
    Files.cls !! "customers_count" = None ∧
    cls' !! "customers_count" = Some (D2D.VInt 3) ∧
    cls' !! "x" = None ∧
    cls' ≠ Files.cls.
Proof.
  exists (<["customers_count" := D2D.VInt 3]> (<["problem" := D2D.VStr "B"]> Files.cls)).
  assert (Hnone : Files.cls !! "customers_count" = None).
  { unfold Files.cls, D2D.class_body, Files.Namespace, D2D.Namespace.
    by rewrite !lookup_insert_ne, lookup_empty. }
  split.
  { apply (import_problem_without_drones 0 Files.float_of_string Files.read
             (Ok ()) (Ok []) (Ok []) (Ok []) Files.repr (λ _, []) "B" D2D.LINEAR
             Files.cls "Customers 3" "3");
      [unfold Files.cls, Files.Namespace, D2D.Namespace; apply lookup_insert_eq | reflexivity | reflexivity | reflexivity]. }
  unfold Files.Namespace, D2D.Namespace in *.
  split.
  { unfold Files.cls, D2D.class_body, Files.Namespace, D2D.Namespace.
    rewrite lookup_insert_ne by done. apply lookup_insert_eq. }
  split; [rewrite lookup_insert_ne by done; apply lookup_insert_eq|].
  split; [exact Hnone|].
  split; [apply lookup_insert_eq|].
  split.
  { unfold Files.cls, D2D.class_body, Files.Namespace, D2D.Namespace.
    by rewrite !lookup_insert_ne, lookup_empty. }
  intros Heq.
  apply (f_equal (λ m : gmap string D2D.Value, m !! "customers_count")) in Heq.
  cbv beta in Heq. rewrite lookup_insert_eq, Hnone in Heq. discriminate Heq.
Qed.

Lemma import_failure_keeps_tables_witness :
  ∃ cls',
    Files.import_problem "B" Files.cls =
      (cls', Raise (ImportException "Unable to import problem 'B'")) ∧
    cls' !! "x" = Files.cls !! "x" ∧
    cls' !! "problem" = Some (D2D.VStr "B").
Proof.
  set (cls' := <["customers_count" := D2D.VInt 3]> (<["problem" := D2D.VStr "B"]> Files.cls)).
  assert (Hflag : Files.cls !! "_D2DPathSolution__config_imported" = Some (D2D.VBool true))
    by (unfold Files.cls, Files.Namespace, D2D.Namespace; apply lookup_insert_eq).
  assert (Hcall : Files.import_problem "B" Files.cls =
                  (cls', Raise (ImportException "Unable to import problem 'B'"))).
  { apply (import_problem_without_drones 0 Files.float_of_string Files.read
             (Ok ()) (Ok []) (Ok []) (Ok []) Files.repr (λ _, []) "B" D2D.LINEAR
             Files.cls "Customers 3" "3"); [exact Hflag | reflexivity | reflexivity | reflexivity]. }
  assert (Hconfig : D2D.ensure_config (Ok ()) (Ok []) (Ok []) (Ok []) Files.cls =
                    (Files.cls, Ok ())).
  { unfold D2D.ensure_config, D2D.bind, D2D.getattr.
    unfold Files.Namespace, D2D.Namespace in *. by rewrite Hflag. }
  exists cls'.
  pose proof (import_failure_keeps_tables 0 Files.float_of_string Files.read
                (Ok ()) (Ok []) (Ok []) (Ok []) Files.repr (λ _, [])
                "B" D2D.LINEAR Files.cls Files.cls cls' _ Hconfig Hcall)
    as (_ & Htab & _ & _ & Hprob & _).
  split; [exact Hcall|]. split.
  - apply Htab. unfold D2D.tables. left.
  - by apply (Hprob "Customers 3").
Defined.

(** ** Importing a problem: the configuration and the tables *)

Section ImportConfig.
Context {float TruckConfig DroneEnduranceConfig : Type}.
Variable fzero : float.
Variable float_of_string : string → res float.
Variable read : string → res string.
Variable repr : string → string.
Variable finditer : string → list D2D.Row.

Local Abbreviation Namespace :=
  (D2D.Namespace (float := float) (TruckConfig := TruckConfig)
     (DroneEnduranceConfig := DroneEnduranceConfig)).
Local Abbreviation import_problem :=
  (D2D.import_problem (TruckConfig := TruckConfig)
     (DroneEnduranceConfig := DroneEnduranceConfig) fzero float_of_string read).
Local Abbreviation import_problem_try :=
  (D2D.import_problem_try (TruckConfig := TruckConfig)
     (DroneEnduranceConfig := DroneEnduranceConfig) fzero float_of_string read finditer).
Local Abbreviation flag := "_D2DPathSolution__config_imported".

Ltac step H :=
  match type of H with
  | match ?r with Ok _ => _ | Raise _ => _ end = _ =>
      let E := fresh "E" in destruct r eqn:E; simpl in H
  end.

(** The [try] block does not assign the flag. *)
Lemma import_problem_try_flag (problem : string)
    (energy_mode : D2D.DroneEnergyConsumptionMode) (cls cls' : Namespace) (r : res unit) :
  import_problem_try problem energy_mode cls = (cls', r) →
  cls' !! flag = cls !! flag.
Proof.
  intros H.
  unfold D2D.import_problem_try, D2D.bind, D2D.lift, D2D.setattr in H. simpl in H.
  repeat step H; try discriminate H;
    injection H as <- _; unfold D2D.Namespace in *;
    by rewrite ?lookup_insert_ne by congruence.
Qed.

(** Once a call found the four configuration loaders working, the flag
    is set, whether or not the problem itself could then be imported; and a
    class whose flag is set never asks the loaders again. *)
Lemma configuration_is_imported_once
    (truck : TruckConfig) (linear nonlinear : list (D2D.DroneConfig (float := float)))
    (endurance : list DroneEnduranceConfig)
    (problem : string) (energy_mode : D2D.DroneEnergyConsumptionMode)
    (cls cls' : Namespace) (r : res unit) :
  cls !! flag = Some (D2D.VBool false) →
  import_problem (Ok truck) (Ok linear) (Ok nonlinear) (Ok endurance) repr finditer
    problem energy_mode cls = (cls', r) →
  cls' !! flag = Some (D2D.VBool true) ∧
  ∀ truck' linear' nonlinear' endurance' truck'' linear'' nonlinear'' endurance''
    problem' energy_mode',
    import_problem truck' linear' nonlinear' endurance' repr finditer
      problem' energy_mode' cls' =
    import_problem truck'' linear'' nonlinear'' endurance'' repr finditer
      problem' energy_mode' cls'.
Proof.
  intros Hflag H.
  assert (Hset : cls' !! flag = Some (D2D.VBool true)).
  { unfold D2D.import_problem, D2D.bind, D2D.ensure_config, D2D.bind, D2D.getattr in H.
    rewrite Hflag in H. simpl in H.
    unfold D2D.import_config, D2D.bind, D2D.lift, D2D.setattr in H. simpl in H.
    unfold D2D.try_except in H.
    destruct (D2D.import_problem_try _ _ _ _ _ _ _) as [cls1 r1] eqn:Htry.
    apply import_problem_try_flag in Htry.
    assert (cls' = cls1) as -> by (destruct r1; by injection H as <- _).
    rewrite Htry. unfold D2D.Namespace in *. by rewrite lookup_insert_eq. }
  split; [exact Hset|]. intros.
  unfold D2D.import_problem, D2D.bind, D2D.ensure_config, D2D.bind, D2D.getattr.
  by rewrite Hset.
Qed.

(** A configuration loader that raises ends the call with its own
    exception, not with an [ImportException]: the loaders are called
    before the [try] statement, which is not reached.  The flag stays
    unset, and the problem that the class holds is as before. *)
Lemma configuration_failure_is_not_wrapped
    (truck : res TruckConfig) (linear nonlinear : res (list (D2D.DroneConfig (float := float))))
    (endurance : res (list DroneEnduranceConfig))
    (problem : string) (energy_mode : D2D.DroneEnergyConsumptionMode)
    (cls cls1 : Namespace) (e : exn) :
  cls !! flag = Some (D2D.VBool false) →
  D2D.import_config truck linear nonlinear endurance cls = (cls1, Raise e) →
  import_problem truck linear nonlinear endurance repr finditer problem energy_mode cls =
    (cls1, Raise e) ∧
  cls1 !! flag = Some (D2D.VBool false) ∧
  ∀ name, name ∈ D2D.tables ++ D2D.scalars → cls1 !! name = cls !! name.
Proof.
  intros Hflag H.
  assert (Hkeep : ∀ name, name ≠ "truck_config" → name ≠ "drone_linear_config" →
            name ≠ "drone_nonlinear_config" → name ≠ "drone_endurance_config" →
            cls1 !! name = cls !! name).
  { intros name ? ? ? ?.
    unfold D2D.import_config, D2D.bind, D2D.lift, D2D.setattr in H. simpl in H.
    destruct truck; simpl in H;
      [destruct linear; simpl in H;
       [destruct nonlinear; simpl in H;
        [destruct endurance; simpl in H; [discriminate H|]|]|]|];
      injection H as <- _; unfold D2D.Namespace in *;
      by rewrite ?lookup_insert_ne by congruence. }
  split.
  { unfold D2D.import_problem, D2D.bind, D2D.ensure_config, D2D.bind, D2D.getattr.
    rewrite Hflag. simpl. by rewrite H. }
  split; [rewrite <- Hflag; by apply Hkeep|].
  intros name Hname. unfold D2D.tables, D2D.scalars in Hname. simpl in Hname.
  rewrite !elem_of_cons in Hname.
  repeat (destruct Hname as [->|Hname]; [by apply Hkeep|]).
  by apply elem_of_nil in Hname.
Qed.

(** The loop over the customer lines appends one entry per line to each
    of the six lists. *)
Lemma read_rows_appends (rows : list D2D.Row) (t t' : D2D.Tables (float := float)) :
  D2D.read_rows float_of_string rows t = Ok t' →
  ∃ x y demands dronable technician drone,
    D2D.cls_x t' = D2D.cls_x t ++ x ∧ length x = length rows ∧
    D2D.cls_y t' = D2D.cls_y t ++ y ∧ length y = length rows ∧
    D2D.cls_demands t' = D2D.cls_demands t ++ demands ∧ length demands = length rows ∧
    D2D.cls_dronable t' = D2D.cls_dronable t ++ dronable ∧
    dronable = (λ row : D2D.Row, bool_decide (row.1.1.2 = "0")) <$> rows ∧
    D2D.cls_technician_service_time t' = D2D.cls_technician_service_time t ++ technician ∧
    length technician = length rows ∧
    D2D.cls_drone_service_time t' = D2D.cls_drone_service_time t ++ drone ∧
    length drone = length rows.
Proof.
  revert t. induction rows as [|[[[[[x y] demand] only] tst] dst] rows IH]; intros t H.
  - injection H as <-. exists [], [], [], [], [], []. by rewrite !app_nil_r.
  - simpl in H.
    apply bind_Ok in H as (fx & _ & H). apply bind_Ok in H as (fy & _ & H).
    apply bind_Ok in H as (fd & _ & H). apply bind_Ok in H as (ft & _ & H).
    apply bind_Ok in H as (fs & _ & H).
    apply IH in H as (xs & ys & ds & bs & ts & ss & Hx & Hxl & Hy & Hyl & Hd & Hdl & Hb & Hbl
                      & Ht & Htl & Hs & Hsl).
    simpl in *.
    exists (fx :: xs), (fy :: ys), (fd :: ds), (bool_decide (only = "0") :: bs),
           (ft :: ts), (fs :: ss).
    rewrite Hx, Hy, Hd, Hb, Ht, Hs, <- !app_assoc. simpl.
    rewrite Hxl, Hyl, Hdl, Htl, Hsl, Hbl. done.
Qed.

(** A call that returns has read the problem file; the class then holds
    the problem name and the energy mode asked for, as many technicians as
    drones (both counts are read from the [number_drone] field), and six
    tables with one entry for the depot followed by one entry per customer
    line of the file; a customer is dronable when the fourth field of its
    line is [0]. *)
Lemma import_success_fills_tables
    (truck : res TruckConfig) (linear nonlinear : res (list (D2D.DroneConfig (float := float))))
    (endurance : res (list DroneEnduranceConfig))
    (problem : string) (energy_mode : D2D.DroneEnergyConsumptionMode)
    (cls cls' : Namespace) :
  import_problem truck linear nonlinear endurance repr finditer problem energy_mode cls =
    (cls', Ok ()) →
  ∃ data count x y demands technician drone,
    read (D2D.join (problem +:+ ".txt")) = Ok data ∧
    cls' !! "problem" = Some (D2D.VStr problem) ∧
    cls' !! "energy_mode" = Some (D2D.VMode energy_mode) ∧
    cls' !! "drones_count" = Some (D2D.VInt count) ∧
    cls' !! "technicians_count" = Some (D2D.VInt count) ∧
    cls' !! "x" = Some (D2D.VFloats (fzero :: x)) ∧
    cls' !! "y" = Some (D2D.VFloats (fzero :: y)) ∧
    cls' !! "demands" = Some (D2D.VFloats (fzero :: demands)) ∧
    cls' !! "dronable" =
      Some (D2D.VBools (true :: ((λ row : D2D.Row, bool_decide (row.1.1.2 = "0"))
                                   <$> finditer data))) ∧
    cls' !! "technician_service_time" = Some (D2D.VFloats (fzero :: technician)) ∧
    cls' !! "drone_service_time" = Some (D2D.VFloats (fzero :: drone)) ∧
    Forall (λ table, length table = length (finditer data))
      [x; y; demands; technician; drone].
Proof.
  intros H.
  unfold D2D.import_problem, D2D.bind in H.
  destruct (D2D.ensure_config _ _ _ _ cls) as [cls0 [[]|]]; [|discriminate H].
  unfold D2D.try_except in H.
  destruct (D2D.import_problem_try _ _ _ _ _ _ cls0) as [cls1 [[]|]] eqn:Htry;
    [|discriminate H].
  injection H as <-.
  unfold D2D.import_problem_try, D2D.bind, D2D.lift, D2D.setattr in Htry. simpl in Htry.
  destruct (read _) as [data|] eqn:Hread; simpl in Htry; [|discriminate Htry].
  destruct (D2D.group1 (D2D.search "Customers " data)) as [g1|]; simpl in Htry;
    [|discriminate Htry].
  destruct (D2D.group1 (D2D.search "number_drone " data)) as [g2|]; simpl in Htry;
    [|discriminate Htry].
  destruct (D2D.group1 (D2D.search "droneLimitationFightTime(s) " data)) as [g3|];
    simpl in Htry; [|discriminate Htry].
  destruct (float_of_string g3) as [f|]; simpl in Htry; [|discriminate Htry].
  destruct (D2D.read_rows _ _ _) as [t|] eqn:Hrows; simpl in Htry; [|discriminate Htry].
  apply read_rows_appends in Hrows
    as (xs & ys & ds & bs & ts & ss & Hx & Hxl & Hy & Hyl & Hd & Hdl & Hb & Hbl
        & Ht & Htl & Hs & Hsl).
  simpl in *. injection Htry as <-.
  exists data, (D2D.int g2), xs, ys, ds, ts, ss.
  unfold D2D.Namespace in *.
  rewrite Hx, Hy, Hd, Hb, Ht, Hs, Hbl.
  repeat (split; [first [done | by rewrite ?lookup_insert_ne, lookup_insert_eq by congruence]|]).
  by repeat constructor.
Qed.

End ImportConfig.

(** A first call for the problem [B], whose file is not in the archive:
    the import fails and the flag is set all the same. *)
Lemma configuration_is_imported_once_witness :
  ∃ cls' r,
    Archive.import_problem (Ok ()) "B" D2D.class_body = (cls', r) ∧
    cls' !! "_D2DPathSolution__config_imported" = Some (D2D.VBool true) ∧
    Archive.import_problem (Raise OSError) "A" cls' = Archive.import_problem (Ok ()) "A" cls'.
Proof.
  destruct (Archive.import_problem (Ok ()) "B" D2D.class_body) as [cls' r] eqn:Hcall.
  assert (Hbody : D2D.class_body (float := Z) (TruckConfig := unit)
                    (DroneEnduranceConfig := unit)
                    !! "_D2DPathSolution__config_imported" = Some (D2D.VBool false)).
  { unfold D2D.class_body, D2D.Namespace. rewrite lookup_insert_ne by done.
    apply lookup_insert_eq. }
  exists cls', r.
  pose proof (configuration_is_imported_once 0 Files.float_of_string Archive.read Files.repr
                Archive.finditer () [] [] [] "B" D2D.LINEAR D2D.class_body cls' r
                Hbody Hcall) as [Hflag Hsame].
  split; [reflexivity|]. split; [exact Hflag|].
  exact (Hsame (Raise OSError) (Ok []) (Ok []) (Ok []) (Ok ()) (Ok []) (Ok []) (Ok [])
           "A" D2D.LINEAR).
Defined.

Lemma configuration_failure_is_not_wrapped_witness :
  Archive.import_problem (Raise OSError) "A" D2D.class_body = (D2D.class_body, Raise OSError).
Proof.
  apply (configuration_failure_is_not_wrapped 0 Files.float_of_string Archive.read Files.repr
           Archive.finditer (Raise OSError) (Ok []) (Ok []) (Ok []) "A" D2D.LINEAR
           D2D.class_body D2D.class_body OSError); [|reflexivity].
  unfold D2D.class_body, D2D.Namespace. rewrite lookup_insert_ne by done.
  apply lookup_insert_eq.
Defined.

Lemma import_success_fills_tables_witness :
  ∃ cls',
    Archive.import_problem (Ok ()) "A" D2D.class_body = (cls', Ok ()) ∧
    ∃ count, cls' !! "drones_count" = Some (D2D.VInt count) ∧
             cls' !! "technicians_count" = Some (D2D.VInt count) ∧
             cls' !! "dronable" = Some (D2D.VBools [true; true; false]).
Proof.
  destruct (Archive.import_problem (Ok ()) "A" D2D.class_body) as [cls' r] eqn:Hcall.
  assert (r = Ok ()) as ->.
  { change r with (cls', r).2. rewrite <- Hcall. vm_compute. reflexivity. }
  exists cls'. split; [reflexivity|].
  destruct (import_success_fills_tables 0 Files.float_of_string Archive.read Files.repr
              Archive.finditer (Ok ()) (Ok []) (Ok []) (Ok []) "A" D2D.LINEAR
              D2D.class_body cls' Hcall)
    as (data & count & x & y & demands & technician & drone & _ & _ & _ & Hd & Ht & _ & _ & _
        & Hdronable & _).
  exists count. split; [exact Hd|]. split; [exact Ht|]. exact Hdronable.
Defined.

(** ** Sharded evaluation of the swap neighborhood *)

Lemma mapM_res_Forall2 {A B} (f : A → res B) (l : list A) (k : list B) :
  mapM f l = Ok k ↔ Forall2 (λ x y, f x = Ok y) l k.
Proof.
  revert k. induction l as [|x l IH]; intros k; simpl.
  - split; [intros [= <-]; constructor | by inversion 1].
  - split.
    + intros H. apply bind_Ok in H as (y & Hy & H).
      apply bind_Ok in H as (k' & Hk' & [= <-]).
      constructor; [done|]. by apply IH.
    + inversion 1 as [|? y ? k' Hy Hk']; subst. rewrite Hy. simpl.
      apply IH in Hk'. by rewrite Hk'.
Qed.

Lemma mapM_res_total {A B} (f : A → res B) (l : list A) :
  (∀ x, x ∈ l → ∃ y, f x = Ok y) → ∃ k, mapM f l = Ok k.
Proof.
  induction l as [|x l IH]; intros Hall; [by exists []|].
  destruct (Hall x) as [y Hy]; [left|].
  destruct IH as [k Hk]; [intros z Hz; apply Hall; by right|].
  exists (y :: k). simpl. rewrite Hy. simpl. by rewrite Hk.
Qed.

Section Sharding.
Variable P : Tsp.Problem.
Variable solution : Tsp.PathSolution.

Local Abbreviation swap_at := (Tsp.swap_at P solution).
Local Abbreviation cheapest := (Tsp.cheapest P solution).
Local Abbreviation static_loop := (Tsp.static_loop P solution).

Lemma cheapest_ext (S T : Tsp.Move → Prop) result min_swap :
  (∀ m, S m ↔ T m) → cheapest S result min_swap → cheapest T result min_swap.
Proof.
  intros Hiff. unfold Tsp.cheapest.
  destruct result as [b|], min_swap as [m|]; try done.
  - intros (Hm & Hb & Hle). split; [by apply Hiff|]. split; [done|].
    intros m' c Hm'. apply Hle. by apply Hiff.
  - intros Hno m Hm. apply (Hno m). by apply Hiff.
Qed.

(** Taking in a better or an equally good candidate keeps the invariant. *)
Lemma cheapest_step (S T : Tsp.Move → Prop) best m candidate m' :
  cheapest S (Some best) (Some m) →
  cheapest T (Some candidate) (Some m') →
  cheapest (λ x, S x ∨ T x)
    (if Tsp.lt candidate best then Some candidate else Some best)
    (if Tsp.lt candidate best then Some m' else Some m).
Proof.
  intros (Hm & Hb & Hle) (Hm' & Hc & Hle').
  unfold Tsp.lt. case_bool_decide as Hcmp; simpl.
  - split; [by right|]. split; [done|].
    intros x c [Hx|Hx] Hswap; [|by eapply Hle'].
    specialize (Hle x c Hx Hswap). lia.
  - split; [by left|]. split; [done|].
    intros x c [Hx|Hx] Hswap; [by eapply Hle|].
    specialize (Hle' x c Hx Hswap). lia.
Qed.

Lemma cheapest_singleton m candidate :
  swap_at m = Ok candidate → cheapest (λ x, x = m) (Some candidate) (Some m).
Proof.
  intros Hswap. split; [done|]. split; [done|].
  intros x c -> Hx. rewrite Hswap in Hx. injection Hx as <-. lia.
Qed.

(** The loop of a worker keeps a cheapest candidate of what it has seen. *)
Lemma static_loop_cheapest (data : list Tsp.Move) (S : Tsp.Move → Prop)
    result min_swap result' min_swap' :
  cheapest S result min_swap →
  static_loop data result min_swap = Ok (result', min_swap') →
  cheapest (λ x, S x ∨ x ∈ data) result' min_swap'.
Proof.
  revert S result min_swap.
  induction data as [|m data IH]; intros S result min_swap Hbest Hloop.
  - injection Hloop as <- <-. eapply cheapest_ext; [|done].
    intros x. rewrite elem_of_nil. tauto.
  - simpl in Hloop. apply bind_Ok in Hloop as (swapped & Hswap & Hloop).
    pose proof (cheapest_singleton m swapped Hswap) as Hone.
    assert (Hnext : ∃ r' m'', cheapest (λ x, S x ∨ x = m) (Some r') (Some m'') ∧
                              static_loop data (Some r') (Some m'') = Ok (result', min_swap')).
    { destruct result as [best|].
      - destruct min_swap as [mb|]; [|done].
        pose proof (cheapest_step _ _ _ _ _ _ Hbest Hone) as Hstep.
        destruct (Tsp.lt swapped best); eauto.
      - destruct min_swap as [mb|]; [done|].
        exists swapped, m. split; [|done].
        eapply cheapest_ext; [|exact Hone]. intros x. simpl in Hbest.
        specialize (Hbest x). tauto. }
    destruct Hnext as (r' & m'' & Hbest' & Hloop').
    eapply cheapest_ext; [|exact (IH _ _ _ Hbest' Hloop')].
    intros x. rewrite elem_of_cons. tauto.
Qed.

(** Every descriptor handed to a worker was evaluated. *)
Lemma static_loop_evaluates (data : list Tsp.Move) result min_swap r :
  static_loop data result min_swap = Ok r →
  ∀ m, m ∈ data → ∃ candidate, swap_at m = Ok candidate.
Proof.
  revert result min_swap.
  induction data as [|m data IH]; intros result min_swap Hloop x Hx.
  - by apply elem_of_nil in Hx.
  - simpl in Hloop. apply bind_Ok in Hloop as (swapped & Hswap & Hloop).
    apply elem_of_cons in Hx as [->|Hx]; [eauto|].
    destruct result as [best|]; [destruct (Tsp.lt swapped best)|]; eauto.
Qed.

(** The reduction keeps a cheapest candidate of all shards. *)
Lemma reduce_cheapest (args : list (list Tsp.Move))
    (partial : list (option Tsp.PathSolution * option Tsp.Move))
    (S : Tsp.Move → Prop) result min_swap :
  Forall2 (λ data rm, cheapest (λ x, x ∈ data) rm.1 rm.2) args partial →
  cheapest S result min_swap →
  cheapest (λ x, S x ∨ ∃ data, data ∈ args ∧ x ∈ data)
    (Tsp.reduce partial result min_swap).1 (Tsp.reduce partial result min_swap).2.
Proof.
  intros Hall. revert S result min_swap.
  induction Hall as [|data [rt mt] args partial Hdata _ IH]; intros S result min_swap Hbest.
  - simpl. eapply cheapest_ext; [|done]. intros x. split; [by left|].
    intros [?|(d & Hd & _)]; [done|]. by apply elem_of_nil in Hd.
  - simpl in Hdata.
    assert (Hnext : ∃ r' m', cheapest (λ x, S x ∨ x ∈ data) r' m' ∧
                             Tsp.reduce ((rt, mt) :: partial) result min_swap =
                             Tsp.reduce partial r' m').
    { destruct rt as [rt|], mt as [mt|]; try done.
      - destruct result as [best|].
        + destruct min_swap as [mb|]; [|done].
          pose proof (cheapest_step _ _ _ _ _ _ Hbest Hdata) as Hstep.
          simpl. destruct (Tsp.lt rt best); eauto.
        + destruct min_swap as [mb|]; [done|].
          exists (Some rt), (Some mt). split; [|done].
          eapply cheapest_ext; [|exact Hdata]. intros x. simpl in Hbest.
          specialize (Hbest x). tauto.
      - exists result, min_swap. split; [|done].
        eapply cheapest_ext; [|exact Hbest]. intros x. simpl in Hdata.
        specialize (Hdata x). tauto. }
    destruct Hnext as (r' & m' & Hbest' & ->).
    eapply cheapest_ext; [|exact (IH _ _ _ Hbest')].
    intros x. split.
    + intros [[?|?]|(d & Hd & Hx)]; [by left | right | right].
      * exists data. split; [left|done].
      * exists d. split; [by right|done].
    + intros [?|(d & Hd & Hx)]; [by left; left|].
      apply elem_of_cons in Hd as [->|Hd]; [by left; right|].
      right. by exists d.
Qed.

End Sharding.

(** *** Round-robin sharding *)

Lemma concurrency_pos (cpu_count : option nat) : (0 < Tsp.concurrency_of cpu_count)%nat.
Proof. destruct cpu_count as [[|n]|]; simpl; lia. Qed.

Lemma length_dispatch (c k : nat) (moves : list Tsp.Move) (args : list (list Tsp.Move)) :
  length (Tsp.dispatch c k moves args) = length args.
Proof.
  revert k args. induction moves as [|m moves IH]; intros k args; [done|].
  simpl. by rewrite IH, length_alter.
Qed.

Lemma dispatch_lookup (c k : nat) (moves : list Tsp.Move) (args : list (list Tsp.Move)) (j : nat) :
  Tsp.dispatch c k moves args !! j = (λ data, data ++ Tsp.picks c k moves j) <$> args !! j.
Proof.
  revert k args. induction moves as [|m moves IH]; intros k args; simpl.
  - destruct (args !! j); simpl; [by rewrite app_nil_r|done].
  - rewrite IH. case_bool_decide as Hj.
    + rewrite <- Hj, list_lookup_alter_eq. destruct (args !! _); simpl; [|done].
      by rewrite <- app_assoc.
    + by rewrite list_lookup_alter_ne.
Qed.

(** Shard [j] holds the descriptors at the positions [j], [j + concurrency],
    [j + 2 * concurrency], ... of the enumeration. *)
Lemma shards_lookup (c : nat) (moves : list Tsp.Move) (j : nat) :
  (j < c)%nat → Tsp.shards c moves !! j = Some (Tsp.picks c 0 moves j).
Proof.
  intros Hj. unfold Tsp.shards. rewrite dispatch_lookup, lookup_replicate_2 by done.
  done.
Qed.

Lemma length_shards (c : nat) (moves : list Tsp.Move) : length (Tsp.shards c moves) = c.
Proof. unfold Tsp.shards. by rewrite length_dispatch, length_replicate. Qed.

Lemma picks_sub (c k : nat) (moves : list Tsp.Move) (j : nat) (x : Tsp.Move) :
  x ∈ Tsp.picks c k moves j → x ∈ moves.
Proof.
  revert k. induction moves as [|m moves IH]; intros k; simpl; [done|].
  case_bool_decide; rewrite ?elem_of_cons; [intros [->|?]|]; eauto.
Qed.

Lemma picks_cover (c k : nat) (moves : list Tsp.Move) (x : Tsp.Move) :
  (0 < c)%nat → x ∈ moves → ∃ j, (j < c)%nat ∧ x ∈ Tsp.picks c k moves j.
Proof.
  intros Hc. revert k. induction moves as [|m moves IH]; intros k Hx.
  - by apply elem_of_nil in Hx.
  - apply elem_of_cons in Hx as [->|Hx].
    + exists (k `mod` c)%nat. split; [apply Nat.mod_upper_bound; lia|].
      simpl. rewrite bool_decide_true by done. left.
    + destruct (IH (S k) Hx) as (j & Hj & Hin). exists j. split; [done|].
      simpl. case_bool_decide; [by right|done].
Qed.

Lemma picks_one (k : nat) (moves : list Tsp.Move) : Tsp.picks 1 k moves 0 = moves.
Proof.
  revert k. induction moves as [|m moves IH]; intros k; [done|].
  cbn [Tsp.picks]. rewrite bool_decide_true by apply Nat.mod_1_r. by rewrite IH.
Qed.

(** Every enumerated descriptor is in some shard and nothing else is. *)
Lemma shards_members (c : nat) (moves : list Tsp.Move) (x : Tsp.Move) :
  (0 < c)%nat →
  (∃ data, data ∈ Tsp.shards c moves ∧ x ∈ data) ↔ x ∈ moves.
Proof.
  intros Hc. split.
  - intros (data & Hdata & Hx). apply list_elem_of_lookup in Hdata as [j Hj].
    assert (j < c)%nat as Hlt.
    { apply lookup_lt_Some in Hj. by rewrite length_shards in Hj. }
    rewrite shards_lookup in Hj by done. injection Hj as <-. by eapply picks_sub.
  - intros Hx. destruct (picks_cover c 0 moves x Hc Hx) as (j & Hj & Hin).
    exists (Tsp.picks c 0 moves j). split; [|done].
    apply list_elem_of_lookup. exists j. by apply shards_lookup.
Qed.

(** *** The worker loop and the sequential minimum *)

Section Sequential.
Variable P : Tsp.Problem.
Variable solution : Tsp.PathSolution.

Local Abbreviation swap_at := (Tsp.swap_at P solution).
Local Abbreviation static_loop := (Tsp.static_loop P solution).
Local Abbreviation evaluate :=
  (λ m : Tsp.Move, swapped ← Tsp.swap_at P solution m; Ok (swapped, m)).

Lemma static_loop_from (data : list Tsp.Move) (evaluated : list (Tsp.PathSolution * Tsp.Move))
    (best : Tsp.PathSolution) (m : Tsp.Move) :
  mapM evaluate data = Ok evaluated →
  static_loop data (Some best) (Some m) =
  Ok (match Tsp.first_min evaluated with
      | Some y => if Tsp.lt y.1 best then (Some y.1, Some y.2) else (Some best, Some m)
      | None => (Some best, Some m)
      end).
Proof.
  revert evaluated best m.
  induction data as [|x data IH]; intros evaluated best m Heval.
  - injection Heval as <-. done.
  - simpl in Heval. apply bind_Ok in Heval as ([swapped x'] & Hx & Heval).
    apply bind_Ok in Hx as (sw & Hsw & [= <- <-]).
    apply bind_Ok in Heval as (evaluated' & Heval & [= <-]).
    simpl. rewrite Hsw. simpl.
    pose proof (IH evaluated' sw x Heval) as IH1.
    pose proof (IH evaluated' best m Heval) as IH2.
    destruct (Tsp.lt sw best) eqn:Hlt.
    + rewrite IH1. unfold Tsp.lt in *.
      destruct (Tsp.first_min evaluated') as [[y my]|]; simpl.
      * apply bool_decide_eq_true in Hlt.
        repeat case_bool_decide; simpl in *; try done; lia.
      * by rewrite bool_decide_true by (by apply bool_decide_eq_true in Hlt).
    + rewrite IH2. unfold Tsp.lt in *.
      destruct (Tsp.first_min evaluated') as [[y my]|]; simpl.
      * apply bool_decide_eq_false in Hlt.
        repeat case_bool_decide; simpl in *; try done; lia.
      * by rewrite Hlt.
Qed.

(** One worker over all descriptors computes the sequential minimum. *)
Lemma static_find_first_min (data : list Tsp.Move)
    (evaluated : list (Tsp.PathSolution * Tsp.Move)) :
  mapM evaluate data = Ok evaluated →
  Tsp.static_find_best_candidate P solution data =
  Ok (fst <$> Tsp.first_min evaluated, snd <$> Tsp.first_min evaluated).
Proof.
  unfold Tsp.static_find_best_candidate.
  destruct data as [|x data]; intros Heval.
  - injection Heval as <-. done.
  - simpl in Heval. apply bind_Ok in Heval as ([swapped x'] & Hx & Heval).
    apply bind_Ok in Hx as (sw & Hsw & [= <- <-]).
    apply bind_Ok in Heval as (evaluated' & Heval & [= <-]).
    simpl. rewrite Hsw. simpl. rewrite (static_loop_from _ _ _ _ Heval).
    unfold Tsp.lt. destruct (Tsp.first_min evaluated') as [[y my]|]; simpl; [|done].
    repeat case_bool_decide; simpl in *; try done; lia.
Qed.

(** The first minimum of two sequences laid end to end. *)
Lemma first_min_app (a b : list (Tsp.PathSolution * Tsp.Move)) :
  Tsp.first_min (a ++ b) =
  match Tsp.first_min a, Tsp.first_min b with
  | Some x, Some y => if bool_decide (Tsp.cost x.1 ≤ Tsp.cost y.1) then Some x else Some y
  | Some x, None => Some x
  | None, o => o
  end.
Proof.
  induction a as [|x a IH]; simpl.
  - by destruct (Tsp.first_min b).
  - rewrite IH.
    destruct (Tsp.first_min a) as [u|], (Tsp.first_min b) as [v|]; try done;
      repeat case_bool_decide; try done; lia.
Qed.

(** Every worker that returns has evaluated its shard, and answers the
    first minimum of it. *)
Lemma workers_first_min (args : list (list Tsp.Move))
    (partial : list (option Tsp.PathSolution * option Tsp.Move)) :
  Forall2 (λ data rm, Tsp.static_find_best_candidate P solution data = Ok rm) args partial →
  ∃ evs, Forall2 (λ data ev, mapM evaluate data = Ok ev) args evs ∧
         Forall2 (λ ev rm, rm = (fst <$> Tsp.first_min ev, snd <$> Tsp.first_min ev))
           evs partial.
Proof.
  induction 1 as [|data rm args partial Hrm _ (evs & Hevs & Hpartial)]; [by exists []|].
  destruct (mapM_res_total evaluate data) as [ev Hev].
  { intros m Hm.
    destruct (static_loop_evaluates P solution _ _ _ _ Hrm m Hm) as [c Hc].
    exists (c, m). by rewrite Hc. }
  exists (ev :: evs). split; [by constructor|]. constructor; [|done].
  rewrite (static_find_first_min _ _ Hev) in Hrm. by injection Hrm.
Qed.

Lemma mapM_concat (args : list (list Tsp.Move))
    (evs : list (list (Tsp.PathSolution * Tsp.Move))) :
  Forall2 (λ data ev, mapM evaluate data = Ok ev) args evs →
  mapM evaluate (concat args) = Ok (concat evs).
Proof.
  intros H. apply mapM_res_Forall2.
  induction H as [|data ev args evs Hev _ IH]; [constructor|].
  simpl. apply Forall2_app; [|done]. by apply mapM_res_Forall2.
Qed.

(** The reduction answers the first minimum of the shards laid end to end. *)
Lemma reduce_first_min (evs : list (list (Tsp.PathSolution * Tsp.Move)))
    (partial : list (option Tsp.PathSolution * option Tsp.Move))
    (pre : list (Tsp.PathSolution * Tsp.Move)) :
  Forall2 (λ ev rm, rm = (fst <$> Tsp.first_min ev, snd <$> Tsp.first_min ev)) evs partial →
  Tsp.reduce partial (fst <$> Tsp.first_min pre) (snd <$> Tsp.first_min pre) =
  (fst <$> Tsp.first_min (pre ++ concat evs), snd <$> Tsp.first_min (pre ++ concat evs)).
Proof.
  intros H. revert pre.
  induction H as [|ev rm evs partial -> _ IH]; intros pre.
  - simpl. by rewrite app_nil_r.
  - simpl. rewrite app_assoc, <- IH, (first_min_app pre ev). unfold Tsp.lt.
    destruct (Tsp.first_min ev) as [[y my]|], (Tsp.first_min pre) as [[x mx]|]; simpl;
      try done;
      repeat case_bool_decide; simpl in *; try done; lia.
Qed.

End Sequential.

(** *** [find_best_candidate] against the sequential evaluation *)

Lemma shards_one (moves : list Tsp.Move) : Tsp.shards 1 moves = [moves].
Proof.
  apply list_eq. intros [|j].
  - rewrite shards_lookup by lia. by rewrite picks_one.
  - simpl. apply lookup_ge_None_2. rewrite length_shards. lia.
Qed.

(** C2, amended. [find_best_candidate] enumerates the descriptors, hands
    the [k]-th of them to shard [k mod concurrency] of as many shards as
    [os.cpu_count() or 1] says, and answers [None] exactly when nothing was
    enumerated; otherwise the candidate it answers is the swap of an
    enumerated descriptor (the one it records as tabu) and has exactly the
    cost of the candidate that the sequential evaluation finds, the least
    cost over all enumerated moves, whatever the number of shards.  Which
    of the cheapest candidates it is, is decided by the sharding: the
    candidate answered and its descriptor, the one recorded as tabu, are
    the first minimum of the shards laid end to end, shard 0 first, that
    is the first minimum of the lowest-numbered shard that holds a
    cheapest candidate.  With a single shard it is the very candidate of
    the sequential evaluation. *)
Theorem sharded_best_has_least_cost (P : Tsp.Problem) (first_length second_length : Z)
    (cpu_count : option nat) (solution : Tsp.PathSolution)
    (memory memory' : Tsp.TabuMemory) (moves : list Tsp.Move)
    (result : option Tsp.PathSolution) :
  Tsp.enumerate P first_length second_length solution = Ok moves →
  Tsp.find_best_candidate P first_length second_length cpu_count solution memory =
    Ok (result, memory') →
  let concurrency := Tsp.concurrency_of cpu_count in
  length (Tsp.shards concurrency moves) = concurrency ∧
  (∀ j, (j < concurrency)%nat →
        Tsp.shards concurrency moves !! j = Some (Tsp.picks concurrency 0 moves j)) ∧
  (∃ by_shard,
     mapM (λ m, swapped ← Tsp.swap_at P solution m; Ok (swapped, m))
       (concat (Tsp.shards concurrency moves)) = Ok by_shard ∧
     result = fst <$> Tsp.first_min by_shard ∧
     memory' = match Tsp.first_min by_shard with
               | Some (_, m) => Tsp.add_to_tabu Tsp._maxlen memory m
               | None => memory
               end) ∧
  ∃ sequential,
    Tsp.sequential_best P first_length second_length solution = Ok sequential ∧
    match result, sequential with
    | None, None => moves = [] ∧ memory' = memory
    | Some best, Some (best_seq, m_seq) =>
        Tsp.cost best = Tsp.cost best_seq ∧
        (∀ m' candidate, m' ∈ moves → Tsp.swap_at P solution m' = Ok candidate →
                         Tsp.cost best ≤ Tsp.cost candidate) ∧
        ∃ m, m ∈ moves ∧ Tsp.swap_at P solution m = Ok best ∧
             memory' = Tsp.add_to_tabu Tsp._maxlen memory m ∧
             (concurrency = 1%nat → best = best_seq ∧ m = m_seq)
    | _, _ => False
    end.
Proof.
  intros Henum Hfind concurrency.
  pose proof (concurrency_pos cpu_count) as Hpos. fold concurrency in Hpos.
  split; [apply length_shards|]. split; [intros j Hj; by apply shards_lookup|].
  unfold Tsp.find_best_candidate in Hfind. rewrite Henum in Hfind. simpl in Hfind.
  fold concurrency in Hfind.
  apply bind_Ok in Hfind as (partial & Hpartial & Hfind).
  apply mapM_res_Forall2 in Hpartial.
  split.
  { (* the reduction goes through the shards in their order *)
    destruct (workers_first_min P solution _ _ Hpartial) as (evs & Hevs & Hmins).
    exists (concat evs). split; [by apply mapM_concat|].
    pose proof (reduce_first_min evs partial [] Hmins) as Hred. simpl in Hred.
    rewrite Hred in Hfind.
    destruct (Tsp.first_min (concat evs)) as [[best m]|]; simpl in Hfind;
      by injection Hfind as <- <-. }
  (* every enumerated move was evaluated *)
  assert (Hall : ∀ m, m ∈ moves → ∃ y, (swapped ← Tsp.swap_at P solution m; Ok (swapped, m)) = Ok y).
  { intros m Hm. apply (shards_members concurrency) in Hm as (data & Hdata & Hm); [|done].
    apply list_elem_of_lookup in Hdata as [j Hj].
    destruct (Forall2_lookup_l _ _ _ _ _ Hpartial Hj) as (rm & _ & Hrm).
    destruct (static_loop_evaluates P solution _ _ _ _ Hrm m Hm) as [c Hc].
    exists (c, m). by rewrite Hc. }
  destruct (mapM_res_total _ _ Hall) as [evaluated Heval].
  exists (Tsp.first_min evaluated).
  split; [unfold Tsp.sequential_best; rewrite Henum; simpl; by rewrite Heval|].
  (* the sequential minimum is a cheapest candidate *)
  pose proof (static_find_first_min P solution moves evaluated Heval) as Hseq.
  assert (Hnone : Tsp.cheapest P solution (λ _, False) None None) by (intros m; tauto).
  pose proof (static_loop_cheapest P solution _ _ _ _ _ _ Hnone Hseq) as Hbest_seq.
  apply (cheapest_ext P solution _ (λ x, x ∈ moves)) in Hbest_seq; [|intros; tauto].
  (* and so is the outcome of the reduction *)
  assert (Hshards : Forall2 (λ data rm, Tsp.cheapest P solution (λ x, x ∈ data) rm.1 rm.2)
                      (Tsp.shards concurrency moves) partial).
  { eapply Forall2_impl; [exact Hpartial|]. intros data [r m] Hrm. simpl.
    eapply cheapest_ext; [|exact (static_loop_cheapest P solution _ _ _ _ _ _ Hnone Hrm)].
    intros; tauto. }
  pose proof (reduce_cheapest P solution _ _ _ _ _ Hshards Hnone) as Hbest.
  apply (cheapest_ext P solution _ (λ x, x ∈ moves)) in Hbest.
  2:{ intros x. rewrite <- (shards_members concurrency moves x Hpos). tauto. }
  (* with one shard the reduction hands the sequential minimum on *)
  assert (Hone : concurrency = 1%nat →
                 Tsp.reduce partial None None =
                 (fst <$> Tsp.first_min evaluated, snd <$> Tsp.first_min evaluated)).
  { intros Hc. rewrite Hc, shards_one in Hpartial.
    inversion Hpartial as [|? rm ? ? Hrm Hnil]; subst. inversion Hnil; subst.
    rewrite Hseq in Hrm. injection Hrm as <-.
    by destruct (Tsp.first_min evaluated) as [[??]|]. }
  destruct (Tsp.reduce partial None None) as [r ms].
  injection Hfind as <- <-. simpl in Hbest.
  destruct (Tsp.first_min evaluated) as [[best_seq m_seq]|]; simpl in Hbest_seq.
  - destruct Hbest_seq as (Hm_seq & Hswap_seq & Hle_seq).
    destruct r as [best|], ms as [m|]; try done.
    + destruct Hbest as (Hm & Hswap & Hle).
      split.
      { specialize (Hle _ _ Hm_seq Hswap_seq). specialize (Hle_seq _ _ Hm Hswap). lia. }
      split; [exact Hle|].
      exists m. split; [done|]. split; [done|]. split; [done|].
      intros Hc. specialize (Hone Hc). simpl in Hone. by injection Hone as -> ->.
    + by apply (Hbest m_seq).
  - destruct r as [best|], ms as [m|]; try done.
    + destruct Hbest as (Hm & _). by apply (Hbest_seq m).
    + split; [|done]. destruct moves as [|m moves]; [done|].
      exfalso. apply (Hbest m). left.
Qed.

(** C2 as stated fails. On the tour of module [Tie] with segments of length
    1 and two shards, the sequential evaluation finds the candidate of the
    second enumerated descriptor, [(0, 0, 2, 2)]; the candidate of the third,
    [(0, 0, 3, 3)], has the same cost, lies in shard 0 and comes first in
    the reduction, so [find_best_candidate] answers another tour. *)
Lemma sharded_best_differs_from_sequential :
  ∃ best best_seq memory',
    Tsp.find_best_candidate Tie.P 1 1 (Some 2%nat) Tie.tour Tsp.empty_tabu =
      Ok (Some best, memory') ∧
    Tsp.sequential_best Tie.P 1 1 Tie.tour = Ok (Some (best_seq, (0, 0, 2, 2))) ∧
    Tsp._tabu_list memory' = [(0, 0, 3, 3)] ∧
    Tsp.after best = [3; 2; 0; 1] ∧
    Tsp.after best_seq = [3; 0; 1; 2] ∧
    best ≠ best_seq.
Proof.
  do 3 eexists. split; [vm_compute; reflexivity|].
  split; [vm_compute; reflexivity|].
  repeat split. discriminate.
Qed.

Lemma sharded_best_has_least_cost_witness :
  ∃ best memory',
    Tsp.find_best_candidate Tie.P 1 1 (Some 2%nat) Tie.tour Tsp.empty_tabu =
      Ok (Some best, memory') ∧
    Tsp.cost best = 9.
Proof.
  set (moves := [(0, 0, 1, 1); (0, 0, 2, 2); (0, 0, 3, 3); (1, 1, 2, 2); (1, 1, 3, 3);
                 (1, 1, 0, 0); (2, 2, 3, 3); (2, 2, 0, 0); (2, 2, 1, 1); (3, 3, 0, 0);
                 (3, 3, 1, 1); (3, 3, 2, 2)] : list Tsp.Move).
  set (best := {| Tsp.after := [3; 2; 0; 1]; Tsp.before := [2; 3; 1; 0]; Tsp.cost := 9 |}).
  set (memory' := Tsp.add_to_tabu Tsp._maxlen Tsp.empty_tabu (0, 0, 3, 3)).
  assert (Henum : Tsp.enumerate Tie.P 1 1 Tie.tour = Ok moves) by reflexivity.
  assert (Hfind : Tsp.find_best_candidate Tie.P 1 1 (Some 2%nat) Tie.tour Tsp.empty_tabu =
                  Ok (Some best, memory')) by (vm_compute; reflexivity).
  exists best, memory'. split; [exact Hfind|].
  pose proof (sharded_best_has_least_cost Tie.P 1 1 (Some 2%nat) Tie.tour Tsp.empty_tabu
                memory' moves (Some best) Henum Hfind) as (_ & _ & _ & seq & Hseq & Hmatch).
  assert (seq = Some ({| Tsp.after := [3; 0; 1; 2]; Tsp.before := [1; 2; 3; 0];
                         Tsp.cost := 9 |}, (0, 0, 2, 2))) as ->.
  { assert (Hs : Tsp.sequential_best Tie.P 1 1 Tie.tour =
                 Ok (Some ({| Tsp.after := [3; 0; 1; 2]; Tsp.before := [1; 2; 3; 0];
                              Tsp.cost := 9 |}, (0, 0, 2, 2)))) by (vm_compute; reflexivity).
    rewrite Hs in Hseq. by injection Hseq. }
  destruct Hmatch as (Hcost & _). exact Hcost.
Defined.

(** ** The cost of a swapped tour *)

Section SwapCost.
Variable P : Tsp.Problem.
Variable solution : Tsp.PathSolution.
Variable path : list Z.

Local Abbreviation n := (Tsp.dimension P).
Local Abbreviation after := (Tsp.after solution).
Local Abbreviation before := (Tsp.before solution).
Local Abbreviation dist := (Tsp.dist P).
Local Abbreviation node := (Tsp.node P path).

Hypothesis dimension_pos : 0 < n.
Hypothesis square : length (Tsp.distances P) = Z.to_nat n.
Hypothesis square_rows : ∀ row, row ∈ Tsp.distances P → length row = Z.to_nat n.
Hypothesis length_after : length after = Z.to_nat n.
Hypothesis length_before : length before = Z.to_nat n.
Hypothesis after_range : ∀ a, a ∈ after → 0 ≤ a < n.
Hypothesis length_path : length path = Z.to_nat n.
Hypothesis path_NoDup : NoDup path.
Hypothesis path_linked : ∀ i x y,
  path !! i = Some x → path !! (S i `mod` length path)%nat = Some y →
  0 ≤ x < n ∧ after !! Z.to_nat x = Some y ∧ before !! Z.to_nat y = Some x.

Lemma distance_dist (i j : Z) :
  0 ≤ i < n → 0 ≤ j < n → Tsp.distance P i j = Ok (dist i j).
Proof.
  intros Hi Hj. unfold Tsp.distance, Tsp.dist.
  destruct (lookup_lt_is_Some_2 (Tsp.distances P) (Z.to_nat i)) as [row Hrow]; [lia|].
  rewrite (getitem_nat _ _ _ (proj1 Hi) Hrow). simpl. rewrite Hrow. simpl.
  assert (length row = Z.to_nat n) as Hlen
    by (apply square_rows, list_elem_of_lookup; eauto).
  destruct (lookup_lt_is_Some_2 row (Z.to_nat j)) as [x Hx]; [lia|].
  rewrite (getitem_nat _ _ _ (proj1 Hj) Hx). by rewrite Hx.
Qed.

Lemma recompute_from_sum (i : Z) (l : list Z) :
  0 ≤ i → i + Z.of_nat (length l) ≤ n → (∀ a, a ∈ l → 0 ≤ a < n) →
  Tsp.recompute_from P i l = Ok (Tsp.sum_from P i l).
Proof.
  revert i. induction l as [|a l IH]; intros i Hi Hlen Hrange; [done|].
  simpl in *. rewrite distance_dist; [|lia|apply Hrange; left]. simpl.
  rewrite IH; [done|lia|lia|]. intros b Hb. apply Hrange. by right.
Qed.

Lemma sum_from_insert (i : Z) (l : list Z) (k : nat) (o v : Z) :
  l !! k = Some o →
  Tsp.sum_from P i (<[k:=v]> l) =
  Tsp.sum_from P i l - dist (i + Z.of_nat k) o + dist (i + Z.of_nat k) v.
Proof.
  revert i k. induction l as [|a l IH]; intros i k Hk; [done|].
  destruct k as [|k].
  - injection Hk as ->. simpl. rewrite Z.add_0_r. lia.
  - rewrite Nat2Z.inj_succ. simpl. rewrite (IH (i + 1) k Hk).
    replace (i + 1 + Z.of_nat k) with (i + Z.succ (Z.of_nat k)) by lia. lia.
Qed.

(** *** Locations by position *)

Lemma node_lookup (k : Z) : path !! Z.to_nat (k `mod` n) = Some (node k).
Proof.
  unfold Tsp.node.
  destruct (lookup_lt_is_Some_2 path (Z.to_nat (k `mod` n))) as [x Hx]; [|by rewrite Hx].
  pose proof (Z.mod_pos_bound k n dimension_pos). lia.
Qed.

Lemma node_next (k : Z) :
  0 ≤ node k < n ∧
  after !! Z.to_nat (node k) = Some (node (k + 1)) ∧
  before !! Z.to_nat (node (k + 1)) = Some (node k).
Proof.
  apply (path_linked (Z.to_nat (k `mod` n))); [apply node_lookup|].
  rewrite <- (node_lookup (k + 1)). f_equal.
  pose proof (Z.mod_pos_bound k n dimension_pos) as Hb.
  rewrite length_path.
  apply Nat2Z.inj. rewrite Nat2Z.inj_mod, Nat2Z.inj_succ, !Z2Nat.id by lia.
  pose proof (Z.mod_pos_bound (k + 1) n dimension_pos).
  rewrite Z2Nat.id by lia.
  rewrite <- Z.add_1_r. by rewrite Z.add_mod_idemp_l by lia.
Qed.

Lemma node_range (k : Z) : 0 ≤ node k < n.
Proof. apply node_next. Qed.

Lemma after_node (k : Z) : Py.getitem after (node k) = Ok (node (k + 1)).
Proof.
  destruct (node_next k) as (Hr & Ha & _). by apply getitem_nat; [lia|].
Qed.

Lemma before_node (k : Z) : Py.getitem before (node k) = Ok (node (k - 1)).
Proof.
  destruct (node_next (k - 1)) as (_ & _ & Hb).
  replace (k - 1 + 1) with k in Hb by lia.
  apply getitem_nat; [apply node_range|done].
Qed.

(** Positions less than a full round apart hold different locations. *)
Lemma node_ne (a b : Z) : 0 < b - a < n → node a ≠ node b.
Proof.
  intros Hab Heq.
  pose proof (node_lookup a) as Ha. pose proof (node_lookup b) as Hb.
  rewrite <- Heq in Hb.
  pose proof (NoDup_lookup _ _ _ _ path_NoDup Ha Hb) as Hpos.
  pose proof (Z.mod_pos_bound a n dimension_pos).
  pose proof (Z.mod_pos_bound b n dimension_pos).
  assert (a `mod` n = b `mod` n) as Hmod by lia.
  pose proof (Z.div_mod a n) as Hda. pose proof (Z.div_mod b n) as Hdb.
  assert (Hq : 0 < n * (b `div` n - a `div` n) < n) by lia.
  destruct (Z_le_gt_dec (b `div` n - a `div` n) 0); nia.
Qed.

Lemma node_period (k : Z) : node (k + n) = node k.
Proof.
  unfold Tsp.node. f_equal. f_equal. f_equal.
  rewrite <- (Z.mul_1_l n) at 1. by rewrite Z.mod_add by lia.
Qed.

Lemma dist_node (a b : Z) : Tsp.distance P (node a) (node b) = Ok (dist (node a) (node b)).
Proof. apply distance_dist; apply node_range. Qed.

(** [swap] is a choice of roles followed by one of its two branches. *)
Lemma swap_branches (s : Tsp.PathSolution) (first_head first_tail second_head second_tail : Z) :
  Tsp.swap P s first_head first_tail second_head second_tail =
  (a_st ← Py.getitem (Tsp.after s) second_tail;
   if bool_decide (first_head = a_st) then
     b_sh ← Py.getitem (Tsp.before s) first_head;
     if bool_decide (second_tail = b_sh)
     then Tsp.relink_adjacent P s second_head second_tail first_head first_tail
     else Tsp.relink_apart P s second_head second_tail first_head first_tail
   else
     b_sh ← Py.getitem (Tsp.before s) second_head;
     if bool_decide (first_tail = b_sh)
     then Tsp.relink_adjacent P s first_head first_tail second_head second_tail
     else Tsp.relink_apart P s first_head first_tail second_head second_tail).
Proof.
  unfold Tsp.swap. destruct (Py.getitem (Tsp.after s) second_tail) as [a_st|]; [|done].
  simpl. by destruct (bool_decide (first_head = a_st)).
Qed.

Lemma setitem_node (l : list Z) (k v : Z) :
  length l = Z.to_nat n → Py.setitem l (node k) v = Ok (<[Z.to_nat (node k) := v]> l).
Proof. intros Hl. pose proof (node_range k). apply setitem_nat. lia. Qed.

Lemma index_ne (a b : Z) : 0 < b - a < n → Z.to_nat (node a) ≠ Z.to_nat (node b).
Proof.
  intros Hab Heq. apply (node_ne a b Hab).
  pose proof (node_range a). pose proof (node_range b). lia.
Qed.

Lemma recompute_cost_sum (s : Tsp.PathSolution) :
  length (Tsp.after s) = Z.to_nat n →
  Forall (λ a, 0 ≤ a < n) (Tsp.after s) →
  Tsp.recompute_cost P s = Ok (Tsp.sum_from P 0 (Tsp.after s)).
Proof.
  intros Hlen Hrange. apply recompute_from_sum; [lia|lia|].
  by apply Forall_forall.
Qed.

Hypothesis cost_recomputed : Tsp.recompute_cost P solution = Ok (Tsp.cost solution).

Lemma cost_sum : Tsp.cost solution = Tsp.sum_from P 0 after.
Proof.
  pose proof cost_recomputed as H.
  rewrite recompute_cost_sum in H; [by injection H|done|by apply Forall_forall].
Qed.

(** Two adjacent segments, the first one from position [a] on with [l1]
    locations, the second one right after it with [l2] locations. *)
Lemma relink_adjacent_cost (a l1 l2 : Z) :
  1 ≤ l1 → 1 ≤ l2 → l1 + l2 < n →
  ∃ s', Tsp.relink_adjacent P solution
          (node a) (node (a + l1 - 1)) (node (a + l1)) (node (a + l1 + l2 - 1)) = Ok s' ∧
        Tsp.recompute_cost P s' = Ok (Tsp.cost s').
Proof.
  intros Hl1 Hl2 Hfit. unfold Tsp.relink_adjacent.
  rewrite before_node, after_node. simpl.
  replace (a + l1 + l2 - 1 + 1) with (a + l1 + l2) by lia.
  rewrite !dist_node. simpl.
  repeat (rewrite setitem_node by (by rewrite ?length_insert); simpl).
  eexists. split; [done|].
  rewrite recompute_cost_sum; simpl.
  2:{ by rewrite !length_insert. }
  2:{ repeat apply Forall_insert; try apply node_range. by apply Forall_forall. }
  f_equal.
  destruct (node_next (a - 1)) as (_ & Hbf & _).
  destruct (node_next (a + l1 - 1)) as (_ & Hft & _).
  destruct (node_next (a + l1 + l2 - 1)) as (_ & Hst & _).
  replace (a - 1 + 1) with a in Hbf by lia.
  replace (a + l1 - 1 + 1) with (a + l1) in Hft by lia.
  replace (a + l1 + l2 - 1 + 1) with (a + l1 + l2) in Hst by lia.
  erewrite sum_from_insert.
  2:{ rewrite !list_lookup_insert_ne; [exact Hft|apply index_ne; lia|].
      apply not_eq_sym, index_ne; lia. }
  erewrite sum_from_insert.
  2:{ rewrite !list_lookup_insert_ne; [exact Hst|]. apply index_ne; lia. }
  erewrite sum_from_insert by exact Hbf.
  rewrite cost_sum, !Z.add_0_l, !Z2Nat.id by apply node_range. lia.
Qed.

(** Two segments apart, with [g] locations between the last of the first
    and the first of the second, and at least one location after the second
    before the tour is back at the first. *)
Lemma relink_apart_cost (a l1 g l2 : Z) :
  1 ≤ l1 → 1 ≤ g → 1 ≤ l2 → l1 + g + l2 < n →
  ∃ s', Tsp.relink_apart P solution
          (node a) (node (a + l1 - 1)) (node (a + l1 + g)) (node (a + l1 + g + l2 - 1)) = Ok s' ∧
        Tsp.recompute_cost P s' = Ok (Tsp.cost s').
Proof.
  intros Hl1 Hg Hl2 Hfit. unfold Tsp.relink_apart.
  rewrite !before_node, !after_node. simpl.
  replace (a + l1 + g + l2 - 1 + 1) with (a + l1 + g + l2) by lia.
  replace (a + l1 - 1 + 1) with (a + l1) by lia.
  rewrite !dist_node. simpl.
  repeat (rewrite setitem_node by (by rewrite ?length_insert); simpl).
  eexists. split; [done|].
  rewrite recompute_cost_sum; simpl.
  2:{ by rewrite !length_insert. }
  2:{ repeat apply Forall_insert; try apply node_range. by apply Forall_forall. }
  f_equal.
  destruct (node_next (a - 1)) as (_ & Hbf & _).
  destruct (node_next (a + l1 + g - 1)) as (_ & Hbs & _).
  destruct (node_next (a + l1 - 1)) as (_ & Hft & _).
  destruct (node_next (a + l1 + g + l2 - 1)) as (_ & Hst & _).
  replace (a - 1 + 1) with a in Hbf by lia.
  replace (a + l1 + g - 1 + 1) with (a + l1 + g) in Hbs by lia.
  replace (a + l1 - 1 + 1) with (a + l1) in Hft by lia.
  replace (a + l1 + g + l2 - 1 + 1) with (a + l1 + g + l2) in Hst by lia.
  erewrite sum_from_insert.
  2:{ rewrite !list_lookup_insert_ne; [exact Hft|apply index_ne; lia| |];
        apply not_eq_sym, index_ne; lia. }
  erewrite sum_from_insert.
  2:{ rewrite !list_lookup_insert_ne; [exact Hst| |]; apply index_ne; lia. }
  erewrite sum_from_insert.
  2:{ rewrite !list_lookup_insert_ne; [exact Hbs|]. apply index_ne; lia. }
  erewrite sum_from_insert by exact Hbf.
  rewrite cost_sum, !Z.add_0_l, !Z2Nat.id by apply node_range. lia.
Qed.

Lemma node_mod (a b : Z) : node (a `mod` n + b) = node (a + b).
Proof.
  unfold Tsp.node. do 3 f_equal. by rewrite Z.add_mod_idemp_l by lia.
Qed.

(** The descriptors that the two loops build, by position. *)
Lemma descriptor_nodes (first_length second_length i d : Z) :
  Tsp.path P solution = Ok path →
  0 ≤ i < n →
  Tsp.descriptor P first_length second_length solution i d =
  Ok (node i, node (i + first_length - 1), node (i + first_length + d),
      node (i + first_length + d + second_length - 1)).
Proof.
  intros Hpath Hi. unfold Tsp.descriptor. rewrite Hpath. simpl.
  assert (Hget : ∀ k, Py.getitem path (k `mod` n) = Ok (node k)).
  { intros k. apply getitem_nat; [|apply node_lookup].
    pose proof (Z.mod_pos_bound k n dimension_pos). lia. }
  rewrite <- (Z.mod_small i n) at 1 by lia.
  rewrite !Hget. simpl.
  rewrite <- Z.add_assoc, !node_mod.
  rewrite <- (Z.add_sub_assoc _ second_length 1).
  rewrite node_mod, <- (Z.add_assoc (_ `mod` n)), node_mod.
  do 3 f_equal; f_equal; lia.
Qed.

(** Every enumerated swap of two segments that leave a location of the
    tour uncovered has the cost of the tour it builds. *)
Lemma swap_enumerated_cost (first_length second_length i d : Z) :
  1 ≤ first_length → 1 ≤ second_length → first_length + second_length < n →
  0 ≤ d ≤ n - first_length - second_length →
  ∃ s', Tsp.swap P solution (node i) (node (i + first_length - 1))
          (node (i + first_length + d))
          (node (i + first_length + d + second_length - 1)) = Ok s' ∧
        Tsp.recompute_cost P s' = Ok (Tsp.cost s').
Proof.
  intros Hl1 Hl2 Hfit Hd. rewrite swap_branches, after_node. simpl.
  destruct (decide (d = n - first_length - second_length)) as [Hwrap|Hwrap].
  - (* the second segment ends right before the first one *)
    set (a := i + first_length + d).
    assert (Hfh : node i = node (a + second_length)).
    { rewrite <- (node_period i). f_equal. lia. }
    assert (Hft : node (i + first_length - 1) = node (a + second_length + first_length - 1)).
    { rewrite <- (node_period (i + first_length - 1)). f_equal. lia. }
    rewrite bool_decide_true by (rewrite Hfh; f_equal; lia).
    rewrite before_node. simpl.
    rewrite bool_decide_true by (rewrite <- (node_period (i - 1)); f_equal; lia).
    rewrite Hfh, Hft. apply relink_adjacent_cost; lia.
  - rewrite bool_decide_false by (apply node_ne; lia).
    rewrite before_node. simpl.
    destruct (decide (d = 0)) as [->|Hgap].
    + rewrite bool_decide_true by (f_equal; lia).
      rewrite !Z.add_0_r. apply relink_adjacent_cost; lia.
    + rewrite bool_decide_false by (apply node_ne; lia).
      apply relink_apart_cost; lia.
Qed.

End SwapCost.

Lemma elem_of_offsets (P : Tsp.Problem) (first_length second_length : Z) (o : Z * Z) :
  o ∈ Tsp.offsets P first_length second_length ↔
  0 ≤ o.1 < Tsp.dimension P ∧
  0 ≤ o.2 < Tsp.dimension P - first_length - second_length + 1.
Proof.
  unfold Tsp.offsets. rewrite list_elem_of_bind. split.
  - intros (i & Ho & Hi). apply list_elem_of_bind in Ho as (d & Ho & Hd).
    apply list_elem_of_singleton in Ho as ->. simpl.
    by rewrite <- !elem_of_range.
  - destruct o as [i d]. simpl. intros [Hi Hd]. exists i.
    rewrite list_elem_of_bind, elem_of_range. split; [|done].
    exists d. rewrite elem_of_range. split; [left|done].
Qed.

(** What [well_formed] says. *)
Lemma well_formed_spec (P : Tsp.Problem) (s : Tsp.PathSolution) :
  Tsp.well_formed P s = true →
  length (Tsp.distances P) = Z.to_nat (Tsp.dimension P) ∧
  (∀ row, row ∈ Tsp.distances P → length row = Z.to_nat (Tsp.dimension P)) ∧
  length (Tsp.after s) = Z.to_nat (Tsp.dimension P) ∧
  length (Tsp.before s) = Z.to_nat (Tsp.dimension P) ∧
  (∀ a, a ∈ Tsp.after s → 0 ≤ a < Tsp.dimension P) ∧
  ∃ path, Tsp.path P s = Ok path ∧ NoDup path ∧
    ∀ i, (i < Z.to_nat (Tsp.dimension P))%nat → Tsp.linked_at P s path i = true.
Proof.
  unfold Tsp.well_formed. rewrite !andb_true_iff, !bool_decide_eq_true.
  intros (((((H1 & H2) & H3) & H4) & H5) & H6).
  split; [done|]. split.
  { intros row Hrow. rewrite forallb_forall in H2.
    apply list_elem_of_In, H2 in Hrow. by apply bool_decide_eq_true in Hrow. }
  split; [done|]. split; [done|]. split.
  { intros a Ha. rewrite forallb_forall in H5.
    apply list_elem_of_In, H5 in Ha. by apply bool_decide_eq_true in Ha. }
  destruct (Tsp.path P s) as [path|]; [|done].
  apply andb_true_iff in H6 as [Hnd Hlink]. apply bool_decide_eq_true in Hnd.
  exists path. split; [done|]. split; [done|].
  intros i Hi. rewrite forallb_forall in Hlink. apply Hlink.
  apply list_elem_of_In, elem_of_seq. lia.
Qed.

Lemma length_follow (P : Tsp.Problem) (after : list Z) (current : Z) (steps : nat) (path : list Z) :
  Tsp.follow after current steps = Ok path → length path = steps.
Proof.
  revert current path. induction steps as [|k IH]; intros current path H.
  - by injection H as <-.
  - simpl in H. apply bind_Ok in H as (next & _ & H).
    apply bind_Ok in H as (rest & Hrest & [= <-]). simpl. f_equal. by eapply IH.
Qed.



(** On distances that are floats the incremental cost is rounded.  On the
    tour 0, 1, 2, 3 of module [Far], whose cost 2^52 + 3 is the sum of its
    distances, the swap of the locations 1 and 2, an enumerated move of two
    adjacent segments of length 1, builds the tour 0, 2, 1, 3, whose
    distances add up to 2^52 + 3; the three-edge formula answers 2^52 + 2,
    as the sum of the old cost and the first added distance, 2^53 + 3, is
    no float.  With the same distances as integers the two costs agree. *)
Lemma swap_cost_is_rounded_on_floats :
  TspFloat.recompute_cost Far.P Far.tour = Ok (TspFloat.cost Far.tour) ∧
  (∃ moves, Tsp.enumerate Far.exact 1 1 Far.exact_tour = Ok moves ∧ (1, 1, 2, 2) ∈ moves) ∧
  (∃ s', TspFloat.swap Far.P Far.tour 1 1 2 2 = Ok s' ∧
         TspFloat.after s' = [2; 3; 1; 0] ∧
         TspFloat.cost s' = 4503599627370498%float ∧
         TspFloat.recompute_cost Far.P s' = Ok 4503599627370499%float) ∧
  (∃ s', Tsp.swap Far.exact Far.exact_tour 1 1 2 2 = Ok s' ∧
         Tsp.after s' = [2; 3; 1; 0] ∧
         Tsp.cost s' = 4503599627370499 ∧
         Tsp.recompute_cost Far.exact s' = Ok 4503599627370499).
Proof.
  split; [reflexivity|].
  split.
  { eexists. split; [reflexivity|]. set_solver. }
  split; eexists; (split; [reflexivity|]); done.
Qed.


(** ** Two segments that cover the whole tour *)

Section SwapCover.
Variable P : Tsp.Problem.
Variable solution : Tsp.PathSolution.
Variable path : list Z.

Local Abbreviation n := (Tsp.dimension P).
Local Abbreviation after := (Tsp.after solution).
Local Abbreviation before := (Tsp.before solution).
Local Abbreviation node := (Tsp.node P path).

Hypothesis dimension_pos : 0 < n.
Hypothesis square : length (Tsp.distances P) = Z.to_nat n.
Hypothesis square_rows : ∀ row, row ∈ Tsp.distances P → length row = Z.to_nat n.
Hypothesis length_after : length after = Z.to_nat n.
Hypothesis length_before : length before = Z.to_nat n.
Hypothesis length_path : length path = Z.to_nat n.
Hypothesis path_NoDup : NoDup path.
Hypothesis path_linked : ∀ i x y,
  path !! i = Some x → path !! (S i `mod` length path)%nat = Some y →
  0 ≤ x < n ∧ after !! Z.to_nat x = Some y ∧ before !! Z.to_nat y = Some x.

Local Abbreviation after_at :=
  (after_node P solution path dimension_pos square length_after length_before
     length_path path_linked).
Local Abbreviation before_at :=
  (before_node P solution path dimension_pos square length_after length_before
     length_path path_linked).
Local Abbreviation dist_at :=
  (dist_node P solution path dimension_pos square square_rows length_after length_before
     length_path path_linked).
Local Abbreviation setitem_at :=
  (setitem_node P solution path dimension_pos square length_after length_before
     length_path path_linked).
Local Abbreviation period :=
  (node_period P solution path dimension_pos square length_after length_before length_path).
Local Abbreviation apart :=
  (index_ne P solution path dimension_pos square length_after length_before
     length_path path_NoDup path_linked).
Local Abbreviation in_range :=
  (node_range P solution path dimension_pos square length_after length_before
     length_path path_linked).

(** The descriptor enumerated at position [i] when the second segment
    takes all the locations that the first one leaves: [swap] exchanges the
    roles, takes the branch of adjacent segments, and assigns the successor
    of the last location of the first segment twice. *)
Lemma swap_covering (i l : Z) :
  1 ≤ l < n →
  ∃ s', Tsp.swap P solution (node i) (node (i + l - 1)) (node (i + l))
          (node (i + l + (n - l) - 1)) = Ok s' ∧
        Tsp.after s' !! Z.to_nat (node (i - 1)) = Some (node (i + l)) ∧
        Tsp.after s' !! Z.to_nat (node (i + l - 1)) = Some (node (i + l)) ∧
        length (Tsp.after s') = Z.to_nat n.
Proof.
  intros Hl.
  assert (Hst : node (i + l + (n - l) - 1) = node (i - 1)).
  { rewrite <- (period (i - 1)). f_equal. lia. }
  rewrite Hst, swap_branches, after_at. simpl.
  rewrite bool_decide_true by (f_equal; lia).
  rewrite before_at. simpl. rewrite bool_decide_true by done.
  unfold Tsp.relink_adjacent.
  rewrite before_at, after_at. simpl.
  rewrite !dist_at. simpl.
  repeat (rewrite setitem_at by (by rewrite ?length_insert); simpl).
  eexists. split; [done|]. simpl.
  replace (i + l - 1 + 1) with (i + l) by lia.
  split; [|split].
  - apply list_lookup_insert_eq. rewrite !length_insert, length_after.
    pose proof (in_range (i - 1)). lia.
  - rewrite list_lookup_insert_ne by (apply apart; lia).
    apply list_lookup_insert_eq. rewrite !length_insert, length_after.
    pose proof (in_range (i + l - 1)). lia.
  - by rewrite !length_insert.
Qed.

End SwapCover.

(** When the lengths of the two segments add up to the dimension, the
    neighborhood still enumerates one descriptor per location, and the
    [after] table of every candidate lists one location as the successor
    of two different ones: no candidate is a tour. *)
Lemma swap_of_covering_segments_is_no_tour (P : Tsp.Problem) (first_length second_length : Z)
    (s : Tsp.PathSolution) :
  Tsp.well_formed P s = true →
  1 ≤ first_length → 1 ≤ second_length →
  first_length + second_length = Tsp.dimension P →
  ∃ moves, Tsp.enumerate P first_length second_length s = Ok moves ∧
    length moves = Z.to_nat (Tsp.dimension P) ∧
    ∀ m, m ∈ moves →
      ∃ s', Tsp.swap_at P s m = Ok s' ∧ ¬ NoDup (Tsp.after s').
Proof.
  intros Hwf Hl1 Hl2 Hcover.
  destruct (well_formed_spec P s Hwf)
    as (Hsq & Hrows & Hafter & Hbefore & Hrange & path & Hpath & Hnd & Hlinked).
  assert (Hpos : 0 < Tsp.dimension P) by lia.
  assert (Hlen : length path = Z.to_nat (Tsp.dimension P)) by (by eapply length_follow).
  assert (Hlink : ∀ i x y,
            path !! i = Some x → path !! (S i `mod` length path)%nat = Some y →
            0 ≤ x < Tsp.dimension P ∧ Tsp.after s !! Z.to_nat x = Some y ∧
            Tsp.before s !! Z.to_nat y = Some x).
  { intros i x y Hx Hy.
    assert (Hi : (i < Z.to_nat (Tsp.dimension P))%nat)
      by (rewrite <- Hlen; by eapply lookup_lt_Some).
    specialize (Hlinked i Hi). unfold Tsp.linked_at in Hlinked.
    rewrite Hx, Hy in Hlinked.
    rewrite !andb_true_iff, !bool_decide_eq_true in Hlinked. tauto. }
  assert (Hdesc : ∀ o, o ∈ Tsp.offsets P first_length second_length →
            Tsp.descriptor P first_length second_length s o.1 o.2 =
            Ok (Tsp.node P path o.1, Tsp.node P path (o.1 + first_length - 1),
                Tsp.node P path (o.1 + first_length + o.2),
                Tsp.node P path (o.1 + first_length + o.2 + second_length - 1))).
  { intros o Ho. apply elem_of_offsets in Ho as [Hi _].
    by apply descriptor_nodes. }
  destruct (mapM_res_total (λ o, Tsp.descriptor P first_length second_length s o.1 o.2)
              (Tsp.offsets P first_length second_length)) as [moves Hmoves].
  { intros o Ho. rewrite (Hdesc o Ho). eauto. }
  exists moves. split; [exact Hmoves|].
  apply mapM_res_Forall2 in Hmoves. split.
  { rewrite <- (Forall2_length _ _ _ Hmoves). unfold Tsp.offsets.
    replace (Tsp.dimension P - first_length - second_length + 1) with 1 by lia.
    change (Py.range 1) with [0].
    transitivity (length (Py.range (Tsp.dimension P))).
    - induction (Py.range (Tsp.dimension P)) as [|i l IH]; [done|].
      rewrite bind_cons, length_app, IH. done.
    - unfold Py.range. by rewrite length_fmap, length_seq. }
  intros m Hm.
  apply list_elem_of_lookup in Hm as [j Hj].
  destruct (Forall2_lookup_r _ _ _ _ _ Hmoves Hj) as (o & Ho & Hom).
  assert (Hin : o ∈ Tsp.offsets P first_length second_length)
    by (apply list_elem_of_lookup; eauto).
  rewrite (Hdesc o Hin) in Hom. injection Hom as <-.
  apply elem_of_offsets in Hin as [Hi Hd]. simpl.
  assert (o.2 = 0) as -> by lia. rewrite Z.add_0_r.
  replace second_length with (Tsp.dimension P - first_length) by lia.
  destruct (swap_covering P s path Hpos Hsq Hrows Hafter Hbefore Hlen Hnd Hlink
              o.1 first_length) as (s' & -> & Ha & Hc & Hlen').
  { lia. }
  exists s'. split; [done|]. intros Hnodup.
  apply (index_ne P s path Hpos Hsq Hafter Hbefore Hlen Hnd Hlink
           (o.1 - 1) (o.1 + first_length - 1)); [lia|].
  by eapply NoDup_lookup.
Qed.

(** The tour 0, 1, 2, 3 with two segments of two locations each. *)
Lemma swap_of_covering_segments_is_no_tour_witness :
  ∃ moves, Tsp.enumerate Tour4.P 2 2 Tour4.tour = Ok moves ∧
    length moves = Z.to_nat (Tsp.dimension Tour4.P) ∧
    ∀ m, m ∈ moves →
      ∃ s', Tsp.swap_at Tour4.P Tour4.tour m = Ok s' ∧ ¬ NoDup (Tsp.after s').
Proof.
  apply swap_of_covering_segments_is_no_tour; [reflexivity | lia | lia | reflexivity].
Defined.

(** ** Sharding and the tabu memory *)

Lemma concat_alter_snoc {A} (args : list (list A)) (j : nat) (x : A) :
  (j < length args)%nat →
  concat (alter (λ data, data ++ [x]) j args) ≡ₚ concat args ++ [x].
Proof.
  revert j. induction args as [|data args IH]; intros j Hj; simpl in *; [lia|].
  destruct j as [|j]; simpl.
  - rewrite <- !app_assoc. f_equiv. apply Permutation_app_comm.
  - change (list_alter ?f j args) with (alter f j args). rewrite IH by lia. by rewrite app_assoc.
Qed.

Lemma dispatch_Permutation (c k : nat) (moves : list Tsp.Move) (args : list (list Tsp.Move)) :
  (0 < c)%nat → length args = c →
  concat (Tsp.dispatch c k moves args) ≡ₚ concat args ++ moves.
Proof.
  intros Hc. revert k args. induction moves as [|m moves IH]; intros k args Hlen; simpl.
  - by rewrite app_nil_r.
  - rewrite IH by (by rewrite length_alter).
    rewrite concat_alter_snoc.
    + by rewrite <- app_assoc.
    + rewrite Hlen. apply Nat.mod_upper_bound. lia.
Qed.

(** The shards handed to the workers hold every enumerated descriptor
    exactly once: put together they are a rearrangement of the enumeration,
    whatever the number of processors. *)
Lemma shards_partition_the_moves (cpu_count : option nat) (moves : list Tsp.Move) :
  length (Tsp.shards (Tsp.concurrency_of cpu_count) moves) = Tsp.concurrency_of cpu_count ∧
  concat (Tsp.shards (Tsp.concurrency_of cpu_count) moves) ≡ₚ moves.
Proof.
  split; [apply length_shards|].
  unfold Tsp.shards. rewrite dispatch_Permutation.
  - generalize (Tsp.concurrency_of cpu_count). intros c.
    induction c as [|c IH]; [done|]. simpl. exact IH.
  - apply concurrency_pos.
  - apply length_replicate.
Qed.

(** [find_best_candidate] writes the tabu memory and never reads it:
    the candidate it returns is the same whatever the memory holds, a move
    that is tabu included. *)
Lemma candidate_ignores_tabu_memory (P : Tsp.Problem) (first_length second_length : Z)
    (cpu_count : option nat) (s : Tsp.PathSolution) (memory memory' : Tsp.TabuMemory) :
  fst <$> Tsp.find_best_candidate P first_length second_length cpu_count s memory =
  fst <$> Tsp.find_best_candidate P first_length second_length cpu_count s memory'.
Proof.
  unfold Tsp.find_best_candidate.
  destruct (Tsp.enumerate P first_length second_length s) as [moves|]; [|done]. simpl.
  destruct (mapM _ _) as [partial|]; [|done]. simpl.
  by destruct (Tsp.reduce partial None None).
Qed.

(** ** The initial solution of the drone and technician problem *)

Lemma getitem_last {A} (l : list A) (x : A) : last l = Some x → Py.getitem l (-1) = Ok x.
Proof.
  intros Hlast. unfold Py.getitem, Py.index.
  assert (l ≠ []) as Hne by (intros ->; done).
  assert (0 < length l)%nat by (destruct l; [done|simpl; lia]).
  rewrite bool_decide_false by lia. rewrite bool_decide_true by lia. simpl.
  rewrite last_lookup in Hlast.
  replace (Z.to_nat (Z.of_nat (length l) + -1)) with (pred (length l)) by lia.
  by rewrite Hlast.
Qed.

Lemma getitem_second_last {A} (l : list A) :
  (2 ≤ length l)%nat → ∃ x, Py.getitem l (-2) = Ok x ∧ x ∈ l.
Proof.
  intros Hlen. unfold Py.getitem, Py.index.
  rewrite bool_decide_false by lia. rewrite bool_decide_true by lia. simpl.
  destruct (lookup_lt_is_Some_2 l (Z.to_nat (Z.of_nat (length l) + -2))) as [x Hx]; [lia|].
  rewrite Hx. exists x. split; [done|]. by eapply list_elem_of_lookup_2.
Qed.

Lemma cycle_next_ok (n it : nat) :
  n ≠ 0%nat → Py.cycle_next n it = Ok (Z.of_nat (it `mod` n), S it).
Proof. intros Hn. unfold Py.cycle_next. by rewrite bool_decide_false. Qed.

Section MinFacts.
Context {A K : Type}.
Variable less : K → K → bool.
Variable key : A → res K.

Lemma min_loop_lookup (xs pre : list A) (best : nat * A) (best_key : K) :
  (∀ x, x ∈ xs → ∃ k, key x = Ok k) →
  (pre ++ xs) !! best.1 = Some best.2 →
  ∃ r, Py.min_loop less key xs (length pre) best best_key = Ok r ∧
       (pre ++ xs) !! r.1 = Some r.2.
Proof.
  revert pre best best_key.
  induction xs as [|x xs IH]; intros pre best best_key Hkeys Hbest; [by eexists|].
  destruct (Hkeys x) as [k Hk]; [left|]. simpl. rewrite Hk. simpl.
  assert (Hrest : ∀ y, y ∈ xs → ∃ k, key y = Ok k) by (intros y Hy; apply Hkeys; by right).
  replace (pre ++ x :: xs) with ((pre ++ [x]) ++ xs) in * by (by rewrite <- app_assoc).
  replace (S (length pre)) with (length (pre ++ [x])) by (rewrite length_app; simpl; lia).
  destruct (less k best_key); apply IH; try done.
  simpl. rewrite <- app_assoc. simpl. by rewrite list_lookup_middle.
Qed.

(** [min] with a key answers a member of a sequence that is not empty,
    provided the key is defined on all of it. *)
Lemma argmin_lookup (xs : list A) :
  xs ≠ [] → (∀ x, x ∈ xs → ∃ k, key x = Ok k) →
  ∃ i x, Py.argmin less key xs = Ok (i, x) ∧ xs !! i = Some x.
Proof.
  intros Hne Hkeys. destruct xs as [|x xs]; [done|].
  destruct (Hkeys x) as [k Hk]; [left|]. unfold Py.argmin. rewrite Hk. simpl.
  destruct (min_loop_lookup xs [x] (0%nat, x) k) as ([i y] & Hr & Hy); [|done|].
  - intros y Hy. apply Hkeys. by right.
  - exists i, y. by split.
Qed.

Lemma min_by_elem (xs : list A) :
  xs ≠ [] → (∀ x, x ∈ xs → ∃ k, key x = Ok k) →
  ∃ x, Py.min_by less key xs = Ok x ∧ x ∈ xs.
Proof.
  intros Hne Hkeys. destruct (argmin_lookup xs Hne Hkeys) as (i & x & Hmin & Hx).
  exists x. unfold Py.min_by. rewrite Hmin. split; [done|].
  by eapply list_elem_of_lookup_2.
Qed.

End MinFacts.

(** A loop whose body keeps an invariant and lowers a measure ends, given
    the measure as fuel, in a state where the invariant holds and the
    condition does not. *)
Lemma while_invariant {S : Type} (inv : S → Prop) (measure : S → nat)
    (cond : S → bool) (body : S → res S) :
  (∀ s, inv s → cond s = true →
        ∃ s', body s = Ok s' ∧ inv s' ∧ (measure s' < measure s)%nat) →
  ∀ fuel s, inv s → (measure s ≤ fuel)%nat →
  ∃ s', Py.while fuel cond body s = Ok s' ∧ inv s' ∧ cond s' = false.
Proof.
  intros Hbody fuel. induction fuel as [|fuel IH]; intros s Hinv Hfuel.
  - simpl. destruct (cond s) eqn:Hc; [|eauto].
    destruct (Hbody s Hinv Hc) as (s' & _ & _ & Hlt). lia.
  - simpl. destruct (cond s) eqn:Hc; [|eauto].
    destruct (Hbody s Hinv Hc) as (s' & Hs' & Hinv' & Hlt). rewrite Hs'. simpl.
    apply IH; [done|lia].
Qed.

(** [l.insert(-1, x)] puts [x] before the last element. *)
Lemma insert_before_last {A} (l : list A) (x y : A) :
  Py.insert (l ++ [y]) (-1) x = l ++ [x; y].
Proof.
  unfold Py.insert. rewrite bool_decide_true by lia. rewrite length_app. simpl.
  replace (Z.to_nat (Z.max 0 (Z.of_nat (length l + 1) + -1))) with (length l) by lia.
  rewrite take_app_length, drop_app_length. done.
Qed.

(** *** Customers of routes *)

Lemma concat_fmap_insert {A} (f : A → list Z) (l : list A) (k : nat) (a a' : A)
    (extra : list Z) :
  l !! k = Some a → f a' ≡ₚ extra ++ f a →
  concat (f <$> <[k:=a']> l) ≡ₚ extra ++ concat (f <$> l).
Proof.
  intros Hk Hf.
  rewrite insert_take_drop by (by eapply lookup_lt_Some).
  rewrite <- (take_drop_middle l k a Hk) at 3.
  rewrite !fmap_app, !fmap_cons, !concat_app. simpl.
  rewrite Hf, <- app_assoc. apply Permutation_app_swap_app.
Qed.

Lemma stops_snoc (path : list Z) (c : Z) :
  D2D.stops (path ++ [c]) = D2D.stops path ++ (if decide (c = 0) then [] else [c]).
Proof.
  unfold D2D.stops. rewrite filter_app. f_equal.
  destruct (decide (c = 0)) as [->|Hc].
  - by rewrite filter_cons_False by (intros H; by apply H).
  - by rewrite filter_cons_True.
Qed.

Lemma discard_Permutation (s : list Z) (x : Z) :
  NoDup s → x ∈ s → s ≡ₚ x :: D2D.discard s x.
Proof.
  intros Hnd Hx. apply NoDup_Permutation; [done| |].
  - apply NoDup_cons. split; [|by apply NoDup_filter].
    unfold D2D.discard. rewrite list_elem_of_filter. intros [Hne _]. by apply Hne.
  - intros y. unfold D2D.discard. rewrite elem_of_cons, list_elem_of_filter.
    destruct (decide (y = x)) as [->|Hy]; [tauto|]. tauto.
Qed.

Lemma elem_of_visits (paths : list (list Z)) (c : Z) :
  c ∈ D2D.visits paths ↔ c ≠ 0 ∧ ∃ path, path ∈ paths ∧ c ∈ path.
Proof.
  unfold D2D.visits.
  induction paths as [|p paths IH]; simpl.
  - rewrite elem_of_nil. split; [done|]. intros (_ & q & Hq & _). by apply elem_of_nil in Hq.
  - rewrite elem_of_app, IH. unfold D2D.stops at 1. rewrite list_elem_of_filter. split.
    + intros [[Hc Hp]|(Hc & q & Hq & Hcq)].
      * split; [done|]. exists p. split; [left|done].
      * split; [done|]. exists q. split; [by right|done].
    + intros (Hc & q & Hq & Hcq). apply elem_of_cons in Hq as [->|Hq]; [by left|].
      right. split; [done|]. by exists q.
Qed.

Lemma occurrences_app (c : Z) (l k : list Z) :
  D2D.occurrences c (l ++ k) = (D2D.occurrences c l + D2D.occurrences c k)%nat.
Proof. unfold D2D.occurrences. by rewrite filter_app, length_app. Qed.

Lemma occurrences_stops (c : Z) (path : list Z) :
  c ≠ 0 → D2D.occurrences c (D2D.stops path) = D2D.occurrences c path.
Proof.
  intros Hc. unfold D2D.occurrences, D2D.stops. f_equal.
  rewrite list_filter_filter. apply list_filter_iff. intros x. split; [tauto|].
  intros ->. done.
Qed.

Lemma occurrences_visits (c : Z) (paths : list (list Z)) :
  c ≠ 0 → D2D.occurrences c (D2D.visits paths) = D2D.occurrences c (concat paths).
Proof.
  intros Hc. unfold D2D.visits. induction paths as [|p paths IH]; [done|].
  by rewrite fmap_cons, !concat_cons, !occurrences_app, occurrences_stops, IH.
Qed.

Lemma occurrences_fleet (c : Z) (drone_paths : list (list (list Z))) :
  c ≠ 0 →
  D2D.occurrences c (D2D.fleet_visits drone_paths) =
  D2D.occurrences c (concat (concat drone_paths)).
Proof.
  intros Hc. unfold D2D.fleet_visits. induction drone_paths as [|p paths IH]; [done|].
  by rewrite fmap_cons, !concat_cons, concat_app, !occurrences_app, occurrences_visits, IH.
Qed.

Lemma occurrences_NoDup (c : Z) (l : list Z) :
  NoDup l → c ∈ l → D2D.occurrences c l = 1%nat.
Proof.
  unfold D2D.occurrences. induction 1 as [|x l Hx Hnd IH]; intros Hc.
  - by apply elem_of_nil in Hc.
  - destruct (decide (x = c)) as [->|Hne].
    + rewrite filter_cons_True by done. simpl. f_equal.
      apply length_zero_iff_nil.
      destruct (filter (λ y, y = c) l) as [|y k] eqn:E; [done|].
      assert (y ∈ filter (λ y, y = c) l) as Hy by (rewrite E; left).
      apply list_elem_of_filter in Hy as [-> Hy]. done.
    + rewrite filter_cons_False by done. apply IH.
      apply elem_of_cons in Hc as [->|Hc]; done.
Qed.

Lemma occurrences_Permutation (c : Z) (l k : list Z) :
  l ≡ₚ k → D2D.occurrences c l = D2D.occurrences c k.
Proof. intros H. unfold D2D.occurrences. by rewrite H. Qed.

Lemma elem_of_fleet_visits (drone_paths : list (list (list Z))) (c : Z) :
  c ∈ D2D.fleet_visits drone_paths ↔ ∃ paths, paths ∈ drone_paths ∧ c ∈ D2D.visits paths.
Proof.
  unfold D2D.fleet_visits. induction drone_paths as [|p dp IH].
  - simpl. rewrite elem_of_nil. split; [done|]. intros (q & Hq & _). by apply elem_of_nil in Hq.
  - rewrite fmap_cons, concat_cons, elem_of_app, IH. split.
    + intros [Hc|(q & Hq & Hc)]; [exists p; split; [left|done]|].
      exists q. split; [by right|done].
    + intros (q & Hq & Hc). apply elem_of_cons in Hq as [->|Hq]; [by left|].
      right. by exists q.
Qed.

Lemma insert_last_snoc {A} (l : list A) (a v : A) :
  <[pred (length (l ++ [a])) := v]> (l ++ [a]) = l ++ [v].
Proof.
  rewrite length_app. simpl. replace (pred (length l + 1)) with (length l) by lia.
  rewrite insert_app_r_alt by lia. by rewrite Nat.sub_diag.
Qed.

Lemma head_app_keep {A} (l k : list A) (x : A) : head l = Some x → head (l ++ k) = Some x.
Proof. intros H. apply head_app_Some. by left. Qed.

Lemma visits_app (l k : list (list Z)) : D2D.visits (l ++ k) = D2D.visits l ++ D2D.visits k.
Proof. unfold D2D.visits. by rewrite fmap_app, concat_app. Qed.

Lemma visits_singleton (path : list Z) : D2D.visits [path] = D2D.stops path.
Proof. unfold D2D.visits. simpl. by rewrite app_nil_r. Qed.

Lemma visits_depots (n : nat) : D2D.visits (replicate n [0]) = [].
Proof. induction n as [|n IH]; [done|]. unfold D2D.visits in *. simpl. exact IH. Qed.

Lemma fleet_visits_depots (n : nat) : D2D.fleet_visits (replicate n [[0]]) = [].
Proof. induction n as [|n IH]; [done|]. unfold D2D.fleet_visits in *. simpl. exact IH. Qed.

Lemma visits_closed (paths : list (list Z)) :
  D2D.visits ((λ path, path ++ [0]) <$> paths) = D2D.visits paths.
Proof.
  unfold D2D.visits. induction paths as [|p paths IH]; [done|].
  rewrite !fmap_cons, !concat_cons, IH, stops_snoc. rewrite decide_True by done.
  by rewrite app_nil_r.
Qed.

(** Dropping the paths of technicians that serve nobody loses no customer. *)
Lemma visits_retained (paths : list (list Z)) :
  Forall (λ path, D2D.round_trip path ∧ (2 ≤ length path)%nat) paths →
  D2D.visits (filter (λ path, (2 < length path)%nat) paths) = D2D.visits paths.
Proof.
  induction 1 as [|p paths [[Hhead Hlast] Hlen] _ IH]; [done|].
  destruct (decide (2 < length p)%nat) as [Hlong|Hshort].
  - rewrite filter_cons_True by done. unfold D2D.visits in *.
    by rewrite !fmap_cons, !concat_cons, IH.
  - rewrite filter_cons_False by done. rewrite IH. unfold D2D.visits.
    rewrite fmap_cons, concat_cons.
    destruct p as [|a [|b [|c p]]]; simpl in *; try lia.
    injection Hhead as ->. injection Hlast as ->. done.
Qed.

(** *** The two loops of [initial] *)

(** A set holds the integers it was built from. *)
Lemma set_of_members (slot : list Z → Z → Z) (elements : list Z) :
  D2D.set_of slot elements ≡ₚ elements.
Proof. apply merge_sort_Permutation. Qed.

Section Initial.
Context {float TruckConfig DroneEnduranceConfig : Type}.
Variable fzero : float.
Variables fadd fsub fmul : float → float → float.
Variable fdiv : float → float → res float.
Variable fsquare : float → res float.
Variable fsqrt : float → float.
Variables fle flt : float → float → bool.
Variable slot : list Z → Z → Z.
Context {Metrics : Type}.
Variable cls : D2D.Namespace (float := float) (TruckConfig := TruckConfig)
                 (DroneEnduranceConfig := DroneEnduranceConfig).
Variable measure : D2D.Namespace (float := float) (TruckConfig := TruckConfig)
                     (DroneEnduranceConfig := DroneEnduranceConfig) →
                   list (list (list Z)) → list (list Z) → res Metrics.

(** The problem that the class holds. *)
Variables customers_count technicians_count drones_count : Z.
Variables x y demands : list float.
Variable dronable : list bool.
Variable energy_mode : D2D.Value (float := float) (TruckConfig := TruckConfig)
                         (DroneEnduranceConfig := DroneEnduranceConfig).
Variables linear nonlinear : list (D2D.DroneConfig (float := float)).
Variable drones_flight_duration : float.

Hypothesis customers_count_set : cls !! "customers_count" = Some (D2D.VInt customers_count).
Hypothesis technicians_count_set : cls !! "technicians_count" = Some (D2D.VInt technicians_count).
Hypothesis drones_count_set : cls !! "drones_count" = Some (D2D.VInt drones_count).
Hypothesis x_set : cls !! "x" = Some (D2D.VFloats x).
Hypothesis y_set : cls !! "y" = Some (D2D.VFloats y).
Hypothesis demands_set : cls !! "demands" = Some (D2D.VFloats demands).
Hypothesis dronable_set : cls !! "dronable" = Some (D2D.VBools dronable).
Hypothesis energy_mode_set : cls !! "energy_mode" = Some energy_mode.
Hypothesis linear_set : cls !! "drone_linear_config" = Some (D2D.VDrones linear).
Hypothesis nonlinear_set : cls !! "drone_nonlinear_config" = Some (D2D.VDrones nonlinear).
Hypothesis duration_set :
  cls !! "drones_flight_duration" = Some (D2D.VFloat drones_flight_duration).

Hypothesis customers_nonneg : 0 ≤ customers_count.
Hypothesis some_technician : 1 ≤ technicians_count.
Hypothesis some_drone : 1 ≤ drones_count.
Hypothesis length_x : Z.of_nat (length x) = customers_count + 1.
Hypothesis length_y : Z.of_nat (length y) = customers_count + 1.
Hypothesis length_demands : Z.of_nat (length demands) = customers_count + 1.
Hypothesis length_dronable : Z.of_nat (length dronable) = customers_count + 1.
Hypothesis length_linear : drones_count ≤ Z.of_nat (length linear).
Hypothesis length_nonlinear : drones_count ≤ Z.of_nat (length nonlinear).
(** No drone has a speed by which a division raises. *)
Hypothesis speeds : ∀ config a, config ∈ linear ++ nonlinear →
  (∃ q, fdiv a (D2D.takeoff_speed config) = Ok q) ∧
  (∃ q, fdiv a (D2D.landing_speed config) = Ok q) ∧
  (∃ q, fdiv a (D2D.cruise_speed config) = Ok q).
(** The power methods of the drones return. *)
Hypothesis powers : ∀ config w, config ∈ linear ++ nonlinear →
  (∃ p, D2D.takeoff_power config w = Ok p) ∧
  (∃ p, D2D.landing_power config w = Ok p) ∧
  (∃ p, D2D.cruise_power config w = Ok p).
(** No two locations are so far apart that the square of the difference of
    their coordinates is out of range. *)
Hypothesis squares_x : ∀ a b, a ∈ x → b ∈ x → ∃ s, fsquare (fsub a b) = Ok s.
Hypothesis squares_y : ∀ a b, a ∈ y → b ∈ y → ∃ s, fsquare (fsub a b) = Ok s.

Local Abbreviation set_of := (D2D.set_of slot).
Local Abbreviation distance := (D2D.distance fadd fsub fsquare fsqrt cls).
Local Abbreviation technician_step := (D2D.technician_step fadd fsub fsquare fsqrt flt cls).
Local Abbreviation drone_step :=
  (D2D.drone_step fadd fsub fmul fdiv fsquare fsqrt fle flt cls drones_count).

(** All customers, and the sets of the ones that only a technician, or
    also a drone, can serve. *)
Local Abbreviation everyone := (Py.range_from 1 (1 + customers_count)).
Local Abbreviation is_dronable := (λ e : Z, default true (dronable !! Z.to_nat e)).
Local Abbreviation for_technician :=
  (set_of (filter (λ e, negb (is_dronable e) = true) everyone)).
Local Abbreviation for_drone :=
  (set_of (filter (λ e, id (is_dronable e) = true) everyone)).

Lemma elem_of_everyone (c : Z) : c ∈ everyone ↔ 1 ≤ c ≤ customers_count.
Proof.
  unfold Py.range_from. rewrite list_elem_of_fmap. split.
  - intros (k & -> & Hk). apply elem_of_seq in Hk. lia.
  - intros Hc. exists (Z.to_nat (c - 1)). split; [lia|]. apply elem_of_seq. lia.
Qed.

Lemma NoDup_everyone : NoDup everyone.
Proof.
  unfold Py.range_from. apply NoDup_fmap_2; [|apply NoDup_seq].
  intros a b Hab. lia.
Qed.

Lemma NoDup_for_technician : NoDup for_technician.
Proof. rewrite set_of_members. apply NoDup_filter, NoDup_everyone. Qed.

Lemma NoDup_for_drone : NoDup for_drone.
Proof. rewrite set_of_members. apply NoDup_filter, NoDup_everyone. Qed.

Lemma everyone_split : for_drone ++ for_technician ≡ₚ everyone.
Proof.
  rewrite !set_of_members.
  rewrite <- (filter_app_complement (λ e, id (is_dronable e) = true) everyone) at 3.
  f_equiv. apply reflexive_eq, list_filter_iff. intros e. unfold id.
  destruct (dronable !! Z.to_nat e) as [[]|]; simpl; split; congruence.
Qed.

Lemma distance_ok (first second : Z) :
  0 ≤ first ≤ customers_count → 0 ≤ second ≤ customers_count →
  ∃ d, distance first second = Ok d.
Proof.
  intros Hf Hs. unfold D2D.distance, D2D.attr_floats, D2D.attr.
  rewrite x_set, y_set. simpl.
  destruct (lookup_lt_is_Some_2 x (Z.to_nat first)) as [x1 Hx1]; [lia|].
  destruct (lookup_lt_is_Some_2 x (Z.to_nat second)) as [x2 Hx2]; [lia|].
  destruct (lookup_lt_is_Some_2 y (Z.to_nat first)) as [y1 Hy1]; [lia|].
  destruct (lookup_lt_is_Some_2 y (Z.to_nat second)) as [y2 Hy2]; [lia|].
  rewrite (getitem_nat x first x1), (getitem_nat x second x2) by (done || lia). simpl.
  destruct (squares_x x1 x2) as [dx ->]; [by eapply list_elem_of_lookup_2..|]. simpl.
  rewrite (getitem_nat y first y1), (getitem_nat y second y2) by (done || lia). simpl.
  destruct (squares_y y1 y2) as [dy ->]; [by eapply list_elem_of_lookup_2..|]. simpl.
  eauto.
Qed.

Lemma customers_fold (keep : bool → bool) (l : list Z) :
  (∀ e, e ∈ l → 0 ≤ e ≤ customers_count) →
  foldr (λ e rest,
           dronable ← D2D.attr_bools cls "dronable";
           d ← Py.getitem dronable e;
           rest ← rest;
           Ok (if keep d then e :: rest else rest))
        (Ok []) l =
  Ok (filter (λ e, keep (is_dronable e) = true) l).
Proof.
  induction l as [|e l IH]; intros Hall; [done|].
  cbn [foldr]. rewrite IH by (intros z Hz; apply Hall; by right).
  unfold D2D.attr_bools, D2D.attr. rewrite dronable_set. simpl.
  assert (He : 0 ≤ e ≤ customers_count) by (apply Hall; left).
  destruct (lookup_lt_is_Some_2 dronable (Z.to_nat e)) as [d Hd]; [lia|].
  rewrite (getitem_nat dronable e d) by (done || lia). simpl.
  destruct (keep d) eqn:Hk.
  - rewrite filter_cons_True; [done|]. simpl. by rewrite Hd.
  - rewrite filter_cons_False; [done|]. simpl. rewrite Hd. simpl. by rewrite Hk.
Qed.

Lemma customers_ok (keep : bool → bool) :
  D2D.customers slot cls keep =
    Ok (set_of (filter (λ e, keep (is_dronable e) = true) everyone)).
Proof.
  unfold D2D.customers, D2D.attr_int, D2D.attr. rewrite customers_count_set. simpl.
  rewrite customers_fold; [done|]. intros e He. apply elem_of_everyone in He. lia.
Qed.

(** The stops of paths that serve customers of the problem only. *)
Lemma stop_range (paths : list (list Z)) (path : list Z) (customers : list Z) (c : Z) :
  (∀ z, z ∈ D2D.visits paths → z ∈ customers) →
  (∀ z, z ∈ customers → 1 ≤ z ≤ customers_count) →
  path ∈ paths → c ∈ path → 0 ≤ c ≤ customers_count.
Proof.
  intros Hsub Hrange Hpath Hc. destruct (decide (c = 0)) as [->|Hne]; [lia|].
  assert (1 ≤ c ≤ customers_count); [|lia].
  apply Hrange, Hsub, elem_of_visits. split; [done|]. by exists path.
Qed.

Lemma for_technician_range (c : Z) : c ∈ for_technician → 1 ≤ c ≤ customers_count.
Proof.
  rewrite set_of_members.
  rewrite list_elem_of_filter. intros [_ Hc]. by apply elem_of_everyone.
Qed.

Lemma for_drone_range (c : Z) : c ∈ for_drone → 1 ≤ c ≤ customers_count.
Proof.
  rewrite set_of_members.
  rewrite list_elem_of_filter. intros [_ Hc]. by apply elem_of_everyone.
Qed.

Lemma head_last_is_Some (path : list Z) :
  head path = Some 0 → ∃ l, last path = Some l ∧ l ∈ path.
Proof.
  intros Hhead. destruct (last path) as [l|] eqn:Hl.
  - exists l. split; [done|]. by apply last_Some_elem_of.
  - apply last_None in Hl. by subst.
Qed.

(** One iteration of the first loop. *)
Lemma technician_step_ok (st : D2D.Technicians) :
  D2D.technicians_inv (Z.to_nat technicians_count) for_technician st →
  D2D.technician_only st ≠ [] →
  ∃ st', technician_step st = Ok st' ∧
         D2D.technicians_inv (Z.to_nat technicians_count) for_technician st' ∧
         (length (D2D.technician_only st') < length (D2D.technician_only st))%nat.
Proof.
  intros (Hlen & Hheads & Hnd & Hperm) Hne. unfold D2D.technician_step.
  rewrite cycle_next_ok by lia. simpl.
  set (k := (D2D.technician_iter st `mod` length (D2D.technician_paths st))%nat).
  assert (Hk : (k < length (D2D.technician_paths st))%nat)
    by (apply Nat.mod_upper_bound; lia).
  destruct (lookup_lt_is_Some_2 _ _ Hk) as [path Hpath].
  rewrite (getitem_nat _ _ path) by (rewrite ?Nat2Z.id; done || lia). simpl.
  pose proof (Forall_lookup_1 _ _ _ _ Hheads Hpath) as Hhead. simpl in Hhead.
  destruct (head_last_is_Some path Hhead) as (l & Hlast & Hl).
  rewrite (getitem_last _ _ Hlast). simpl.
  assert (Hsub : ∀ z, z ∈ D2D.visits (D2D.technician_paths st) → z ∈ for_technician).
  { intros z Hz. rewrite <- Hperm. apply elem_of_app. by left. }
  assert (Hl_range : 0 ≤ l ≤ customers_count).
  { eapply (stop_range _ path); [exact Hsub|apply for_technician_range| |done].
    by eapply list_elem_of_lookup_2. }
  destruct (min_by_elem flt (distance l) (D2D.technician_only st) Hne) as (index & Hmin & Hindex).
  { intros z Hz. apply distance_ok; [done|].
    assert (1 ≤ z ≤ customers_count); [|lia].
    apply for_technician_range. rewrite <- Hperm. apply elem_of_app. by right. }
  rewrite Hmin. simpl. eexists. split; [done|].
  assert (Hindex_pos : index ≠ 0).
  { assert (1 ≤ index ≤ customers_count); [|lia].
    apply for_technician_range. rewrite <- Hperm. apply elem_of_app. by right. }
  rewrite Nat2Z.id. split; [|simpl; apply length_filter_lt with index; [done|tauto]].
  split; [simpl; by rewrite length_insert|].
  split.
  { simpl. apply Forall_insert; [done|]. simpl.
    apply head_Some in Hhead as [l' ->]. done. }
  split; [simpl; by apply NoDup_filter|].
  simpl. unfold D2D.visits.
  rewrite (concat_fmap_insert D2D.stops _ k path _ [index] Hpath).
  2:{ rewrite stops_snoc. rewrite decide_False by done. apply Permutation_app_comm. }
  etrans; [|exact Hperm].
  etrans; [|apply Permutation_app_head; symmetry;
            apply (discard_Permutation _ index Hnd Hindex)].
  simpl. apply Permutation_middle.
Qed.

Local Abbreviation everybody := (for_drone ++ for_technician).

Lemma everybody_range (c : Z) : c ∈ everybody → 1 ≤ c ≤ customers_count.
Proof.
  rewrite elem_of_app. intros [?|?]; [by apply for_drone_range|by apply for_technician_range].
Qed.

(** The configurations that the energy mode selects. *)
Lemma configs_ok :
  ∃ configs,
    match energy_mode with
    | D2D.VMode D2D.LINEAR => D2D.attr_drones cls "drone_linear_config"
    | _ => D2D.attr_drones cls "drone_nonlinear_config"
    end = Ok configs ∧
    drones_count ≤ Z.of_nat (length configs) ∧
    ∀ config, config ∈ configs → config ∈ linear ++ nonlinear.
Proof.
  assert (Hl : D2D.attr_drones cls "drone_linear_config" = Ok linear)
    by (unfold D2D.attr_drones, D2D.attr; by rewrite linear_set).
  assert (Hn : D2D.attr_drones cls "drone_nonlinear_config" = Ok nonlinear)
    by (unfold D2D.attr_drones, D2D.attr; by rewrite nonlinear_set).
  destruct energy_mode as [| | | | | | |[]| | |];
    (exists linear; split; [exact Hl|]; split; [done|];
     intros ? ?; apply elem_of_app; by left) ||
    (exists nonlinear; split; [exact Hn|]; split; [done|];
     intros ? ?; apply elem_of_app; by right).
Qed.

Ltac proj :=
  cbn [D2D.drone_paths D2D.technician_paths' D2D.weight D2D.time D2D.energy
       D2D.dronable D2D.drone_iter D2D.technician_paths D2D.technician_only
       D2D.technician_iter].

Local Abbreviation drones_inv :=
  (D2D.drones_inv (float := float) (Z.to_nat technicians_count) (Z.to_nat drones_count)
     everybody for_technician).

(** One iteration of the second loop. *)
Lemma drone_step_ok (st : D2D.Drones) :
  drones_inv st →
  D2D.dronable st ≠ [] →
  ∃ st', drone_step st = Ok st' ∧ drones_inv st' ∧
         (length (D2D.dronable st') < length (D2D.dronable st))%nat.
Proof.
  intros (Hdp & Hw & Ht & He & Hfly & Htp & Htrips & Hnd & Hserved & Hperm) Hne.
  unfold D2D.drone_step.
  rewrite cycle_next_ok by lia. simpl.
  set (k := (D2D.drone_iter st `mod` Z.to_nat drones_count)%nat).
  assert (Hk : (k < Z.to_nat drones_count)%nat) by (apply Nat.mod_upper_bound; lia).
  destruct (lookup_lt_is_Some_2 (D2D.drone_paths st) k) as [paths Hpaths]; [lia|].
  destruct (lookup_lt_is_Some_2 (D2D.weight st) k) as [w Hweight]; [lia|].
  destruct (lookup_lt_is_Some_2 (D2D.time st) k) as [t Htime]; [lia|].
  destruct (lookup_lt_is_Some_2 (D2D.energy st) k) as [e Henergy]; [lia|].
  rewrite (getitem_nat (D2D.drone_paths st) _ paths) by (rewrite ?Nat2Z.id; done || lia).
  simpl. unfold D2D.attr at 1. rewrite energy_mode_set. simpl.
  destruct configs_ok as (configs & -> & Hconfigs & Hin). simpl.
  destruct (lookup_lt_is_Some_2 configs k) as [config Hconfig]; [lia|].
  rewrite (getitem_nat configs _ config) by (rewrite ?Nat2Z.id; done || lia). simpl.
  destruct (Forall_lookup_1 _ _ _ _ Hfly Hpaths) as (closed & open & -> & Hclosed & Hopen).
  rewrite (getitem_last _ open) by apply last_snoc. simpl.
  destruct (head_last_is_Some open Hopen) as (l & Hlast & Hl).
  rewrite (getitem_last _ _ Hlast). simpl.
  (* every stop so far is the depot or a customer *)
  assert (Hfleet : ∀ z, z ∈ D2D.fleet_visits (D2D.drone_paths st) → z ∈ everybody).
  { intros z Hz. rewrite <- Hperm. apply elem_of_app. by left. }
  assert (Hvisits : ∀ z, z ∈ D2D.visits (D2D.technician_paths' st) → z ∈ everybody).
  { intros z Hz. rewrite <- Hperm. rewrite !elem_of_app. right. by left. }
  assert (Hleft : ∀ z, z ∈ D2D.dronable st → 1 ≤ z ≤ customers_count).
  { intros z Hz. apply everybody_range. rewrite <- Hperm. rewrite !elem_of_app. right. by right. }
  assert (Hl_range : 0 ≤ l ≤ customers_count).
  { destruct (decide (l = 0)) as [->|Hl0]; [lia|].
    assert (1 ≤ l ≤ customers_count); [|lia].
    apply everybody_range, Hfleet, elem_of_fleet_visits.
    exists (closed ++ [open]). split; [by eapply list_elem_of_lookup_2|].
    apply elem_of_visits. split; [done|]. exists open. split; [|done].
    apply elem_of_app. right. left. }
  destruct (min_by_elem flt (distance l) (D2D.dronable st) Hne) as (index & Hmin & Hindex).
  { intros z Hz. apply distance_ok; [done|]. specialize (Hleft z Hz). lia. }
  rewrite Hmin. simpl.
  pose proof (Hleft index Hindex) as Hindex_range.
  unfold D2D.attr_floats, D2D.attr. rewrite demands_set. simpl.
  destruct (lookup_lt_is_Some_2 demands (Z.to_nat index)) as [dw Hdw]; [lia|].
  rewrite (getitem_nat demands index dw) by (done || lia). simpl.
  pose proof (Hin config (list_elem_of_lookup_2 _ _ _ Hconfig)) as Hspeed.
  destruct (speeds config (D2D.altitude config) Hspeed) as ([takeoff_dt ->] & [landing_dt ->] & _).
  simpl.
  destruct (distance_ok l index) as [d Hd]; [done|lia|]. rewrite Hd. simpl.
  destruct (speeds config d Hspeed) as (_ & _ & [cruise_dt ->]). simpl.
  rewrite (getitem_nat (D2D.weight st) _ w) by (rewrite ?Nat2Z.id; done || lia). simpl.
  destruct (powers config w Hspeed) as ([takeoff ->] & [landing ->] & [cruise ->]). simpl.
  rewrite (getitem_nat (D2D.time st) _ t) by (rewrite ?Nat2Z.id; done || lia).
  rewrite (getitem_nat (D2D.energy st) _ e) by (rewrite ?Nat2Z.id; done || lia).
  unfold D2D.attr_float, D2D.attr. rewrite duration_set. simpl.
  rewrite Nat2Z.id.
  assert (Hindex_pos : index ≠ 0) by lia.
  pose proof (discard_Permutation _ index Hnd Hindex) as Hdiscard.
  assert (Hshorter : (length (D2D.discard (D2D.dronable st) index)
                      < length (D2D.dronable st))%nat).
  { apply length_filter_lt with index; [done|tauto]. }
  match goal with
  | |- ∃ st', (?fits ≫= _) = _ ∧ _ => assert (∃ b, fits = Ok b) as [[] ->]
  end.
  { repeat (match goal with |- context [if ?c then _ else _] => destruct c end; simpl);
      eauto. }
  - (* the customer fits into the flight under construction *)
    cbn [mbind res_bind]. eexists. split; [done|]. split; [|done].
    assert (Hgain : D2D.visits (<[pred (length (closed ++ [open])):=open ++ [index]]>
                                  (closed ++ [open]))
                    ≡ₚ [index] ++ D2D.visits (closed ++ [open])).
    { rewrite insert_last_snoc, !visits_app, !visits_singleton, stops_snoc.
      rewrite decide_False by done.
      rewrite (Permutation_app_comm (D2D.stops open) [index]).
      apply Permutation_app_swap_app. }
    unfold D2D.drones_inv. proj.
    rewrite !length_insert.
    split; [done|]. split; [done|]. split; [done|]. split; [done|].
    split.
    { apply Forall_insert; [done|]. rewrite insert_last_snoc.
      exists closed, (open ++ [index]). split; [done|]. split; [done|].
      by apply head_app_keep. }
    split; [done|]. split; [done|]. split; [by apply NoDup_filter|].
    split; [done|]. unfold D2D.fleet_visits.
    rewrite (concat_fmap_insert D2D.visits _ k _ _ [index] Hpaths Hgain).
    fold (D2D.fleet_visits (D2D.drone_paths st)).
    etrans; [|exact Hperm].
    etrans; [|do 2 apply Permutation_app_head; symmetry; exact Hdiscard].
    rewrite <- !app_assoc. simpl.
    rewrite <- (Permutation_middle (D2D.visits _)), <- Permutation_middle. done.
  - (* the flight is closed and the customer goes to a technician *)
    cbn [mbind res_bind].
    destruct (argmin_lookup flt
                (λ path, p ← Py.getitem path (-2); distance index p)
                (D2D.technician_paths' st)) as (k' & technician_path & Hargmin & Hk').
    { intros Hnil. rewrite Hnil in Htp. simpl in Htp. lia. }
    { intros path Hpath.
      destruct (proj1 (Forall_forall _ _) Htrips path Hpath) as [_ Hlen].
      destruct (getitem_second_last path Hlen) as (p & -> & Hp). simpl.
      apply distance_ok; [lia|].
      eapply (stop_range _ path everybody); [exact Hvisits|exact everybody_range|done|done]. }
    rewrite Hargmin. cbn [mbind res_bind]. eexists. split; [done|]. split; [|done].
    destruct (Forall_lookup_1 _ _ _ _ Htrips Hk') as [[Hh Hlast'] Hlen].
    apply last_Some in Hlast' as [route ->].
    rewrite insert_before_last.
    assert (Hroute : head route = Some 0).
    { destruct route as [|r route]; [simpl in Hlen; lia|]. exact Hh. }
    assert (Hsame : D2D.visits (<[pred (length (closed ++ [open])):=open ++ [0]]>
                                  (closed ++ [open]) ++ [[0]])
                    ≡ₚ [] ++ D2D.visits (closed ++ [open])).
    { rewrite insert_last_snoc, !visits_app, !visits_singleton, stops_snoc.
      rewrite decide_True by done.
      assert (D2D.stops [0] = []) as -> by done.
      by rewrite !app_nil_r. }
    assert (Hgain : D2D.visits (<[k':=route ++ [index; 0]]> (D2D.technician_paths' st))
                    ≡ₚ [index] ++ D2D.visits (D2D.technician_paths' st)).
    { unfold D2D.visits. apply (concat_fmap_insert D2D.stops _ k' _ _ [index] Hk').
      unfold D2D.stops. rewrite !filter_app.
      rewrite (filter_cons_True _ index) by done.
      rewrite !(filter_cons_False _ 0) by (intros H; by apply H).
      rewrite filter_nil, app_nil_r. apply Permutation_app_comm. }
    unfold D2D.drones_inv. proj.
    rewrite !length_insert.
    split; [done|]. split; [done|]. split; [done|]. split; [done|].
    split.
    { apply Forall_insert; [done|]. rewrite insert_last_snoc.
      exists (closed ++ [open ++ [0]]), [0]. split; [by rewrite <- app_assoc|].
      split; [|done]. apply Forall_app. split; [done|].
      apply Forall_singleton. split; [by apply head_app_keep|apply last_snoc]. }
    split; [done|].
    split.
    { apply Forall_insert; [done|]. split.
      - split; [by apply head_app_keep|].
        replace (route ++ [index; 0]) with ((route ++ [index]) ++ [0])
          by (by rewrite <- app_assoc).
        apply last_snoc.
      - rewrite length_app in Hlen |- *. simpl in *. lia. }
    split; [by apply NoDup_filter|].
    split.
    { intros c Hc. rewrite Hgain. apply elem_of_app. right. by apply Hserved. }
    rewrite Hgain. unfold D2D.fleet_visits.
    rewrite (concat_fmap_insert D2D.visits _ k _ _ [] Hpaths Hsame).
    fold (D2D.fleet_visits (D2D.drone_paths st)).
    etrans; [|exact Hperm].
    etrans; [|do 2 apply Permutation_app_head; symmetry; exact Hdiscard].
    simpl. apply Permutation_app_head. apply Permutation_middle.
Qed.

(** Closing the last flight of a drone. *)
Lemma close_drone_ok (paths : list (list Z)) :
  D2D.flying paths →
  ∃ closed, D2D.close_drone paths = Ok closed ∧
            Forall D2D.round_trip closed ∧ D2D.visits closed = D2D.visits paths.
Proof.
  intros (closed & open & -> & Hclosed & Hopen). unfold D2D.close_drone.
  rewrite (getitem_last _ open) by apply last_snoc. simpl.
  eexists. split; [done|]. rewrite insert_last_snoc. split.
  - apply Forall_app. split; [done|]. apply Forall_singleton.
    split; [by apply head_app_keep|apply last_snoc].
  - rewrite !visits_app, !visits_singleton, stops_snoc. rewrite decide_True by done.
    by rewrite app_nil_r.
Qed.

Lemma close_drones_ok (drone_paths : list (list (list Z))) :
  Forall D2D.flying drone_paths →
  ∃ flights, mapM D2D.close_drone drone_paths = Ok flights ∧
             length flights = length drone_paths ∧
             Forall (Forall D2D.round_trip) flights ∧
             D2D.fleet_visits flights = D2D.fleet_visits drone_paths.
Proof.
  induction 1 as [|paths dp Hfly _ (flights & Hmap & Hlen & Htrips & Hsame)]; [by exists []|].
  destruct (close_drone_ok paths Hfly) as (closed & Hclose & Hclosed & Hvisits).
  exists (closed :: flights). simpl. rewrite Hclose. simpl. rewrite Hmap. simpl.
  split; [done|]. split; [by rewrite Hlen|]. split; [by constructor|].
  unfold D2D.fleet_visits in *. by rewrite !fmap_cons, !concat_cons, Hvisits, Hsame.
Qed.

(** C10, amended. On a class that holds a problem with a technician and a
    drone, tables of one entry per location, a configuration per drone
    whose speeds divide and whose power methods return, and coordinates
    whose differences have a square in range, the statements of [initial]
    before its [return] raise nothing and build routes on which every customer is served exactly
    once, the customers that a drone cannot serve by a technician, and
    which all begin and end at the depot; [initial] then is the call of the
    constructor on these routes: it raises what the constructor raises,
    and when the constructor returns, [initial] returns the solution that
    holds these routes. *)
Theorem initial_routes :
  ∃ drone_paths technician_paths,
    D2D.routes fzero fadd fsub fmul fdiv fsquare fsqrt fle flt slot cls =
      Ok (drone_paths, technician_paths) ∧
    D2D.initial fzero fadd fsub fmul fdiv fsquare fsqrt fle flt slot measure cls =
      D2D.__init__ measure cls drone_paths technician_paths ∧
    (∀ metrics, measure cls drone_paths technician_paths = Ok metrics →
       D2D.initial fzero fadd fsub fmul fdiv fsquare fsqrt fle flt slot measure cls =
         Ok {| D2D.self_drone_paths := drone_paths;
               D2D.self_technician_paths := technician_paths;
               D2D.self_metrics := metrics |}) ∧
    (∀ solution,
       D2D.initial fzero fadd fsub fmul fdiv fsquare fsqrt fle flt slot measure cls =
         Ok solution →
       D2D.self_drone_paths solution = drone_paths ∧
       D2D.self_technician_paths solution = technician_paths) ∧
    length drone_paths = Z.to_nat drones_count ∧
    (∀ c, 1 ≤ c ≤ customers_count →
          D2D.occurrences c (concat (concat drone_paths) ++ concat technician_paths) = 1%nat) ∧
    (∀ c, 1 ≤ c ≤ customers_count → dronable !! Z.to_nat c = Some false →
          ∃ path, path ∈ technician_paths ∧ c ∈ path) ∧
    (∀ paths path, paths ∈ drone_paths → path ∈ paths → D2D.round_trip path) ∧
    (∀ path, path ∈ technician_paths → D2D.round_trip path ∧ (2 < length path)%nat).
Proof.
  assert (∃ drone_paths technician_paths,
    D2D.routes fzero fadd fsub fmul fdiv fsquare fsqrt fle flt slot cls =
      Ok (drone_paths, technician_paths) ∧
    length drone_paths = Z.to_nat drones_count ∧
    (∀ c, 1 ≤ c ≤ customers_count →
          D2D.occurrences c (concat (concat drone_paths) ++ concat technician_paths) = 1%nat) ∧
    (∀ c, 1 ≤ c ≤ customers_count → dronable !! Z.to_nat c = Some false →
          ∃ path, path ∈ technician_paths ∧ c ∈ path) ∧
    (∀ paths path, paths ∈ drone_paths → path ∈ paths → D2D.round_trip path) ∧
    (∀ path, path ∈ technician_paths → D2D.round_trip path ∧ (2 < length path)%nat))
    as (drone_paths & technician_paths & Hroutes & Hrest);
    [|exists drone_paths, technician_paths; split; [done|];
      unfold D2D.initial, D2D.__init__; rewrite Hroutes; cbn [mbind res_bind];
      split; [done|]; split; [by intros metrics ->|]; split; [|done];
      intros solution Hsol;
      destruct (measure cls drone_paths technician_paths); [|done];
      by injection Hsol as <-].
  unfold D2D.routes.
  unfold D2D.attr_int, D2D.attr. rewrite technicians_count_set. simpl.
  rewrite (customers_ok negb). cbn [mbind res_bind].
  (* the first loop *)
  destruct (while_invariant
              (D2D.technicians_inv (Z.to_nat technicians_count) for_technician)
              (λ st, length (D2D.technician_only st))
              (λ st, bool_decide (0 < length (D2D.technician_only st))%nat)
              technician_step) with
    (fuel := length for_technician)
    (s := {| D2D.technician_paths := replicate (Z.to_nat technicians_count) [0];
             D2D.technician_only := for_technician; D2D.technician_iter := 0 |})
    as (st1 & -> & (Hlen1 & Hheads1 & _ & Hperm1) & Hdone1).
  { intros st Hinv Hcond. apply technician_step_ok; [done|].
    apply bool_decide_eq_true in Hcond. intros Hnil. rewrite Hnil in Hcond. simpl in Hcond. lia. }
  { split; [simpl; apply length_replicate|].
    split; [simpl; by apply Forall_replicate|].
    split; [simpl; apply NoDup_for_technician|].
    simpl. by rewrite visits_depots. }
  { done. }
  apply bool_decide_eq_false in Hdone1.
  assert (D2D.technician_only st1 = []) as Hnil1
    by (destruct (D2D.technician_only st1); [done|simpl in Hdone1; lia]).
  rewrite Hnil1, app_nil_r in Hperm1. simpl.
  rewrite drones_count_set. simpl.
  rewrite (customers_ok id). cbn [mbind res_bind].
  (* the second loop *)
  destruct (while_invariant drones_inv
              (λ st, length (D2D.dronable st))
              (λ st, bool_decide (0 < length (D2D.dronable st))%nat)
              drone_step) with
    (fuel := length for_drone)
    (s := {| D2D.drone_paths := replicate (Z.to_nat drones_count) [[0]];
             D2D.technician_paths' := (λ path, path ++ [0]) <$> D2D.technician_paths st1;
             D2D.weight := replicate (Z.to_nat drones_count) fzero;
             D2D.time := replicate (Z.to_nat drones_count) fzero;
             D2D.energy := replicate (Z.to_nat drones_count) fzero;
             D2D.dronable := for_drone; D2D.drone_iter := 0 |})
    as (st2 & -> & (Hdp & _ & _ & _ & Hfly & _ & Htrips & _ & Hserved & Hperm2) & Hdone2).
  { intros st Hinv Hcond. apply drone_step_ok; [done|].
    apply bool_decide_eq_true in Hcond. intros Hnil. rewrite Hnil in Hcond. simpl in Hcond. lia. }
  { unfold D2D.drones_inv. proj. rewrite !length_replicate, length_fmap.
    split; [done|]. split; [done|]. split; [done|]. split; [done|].
    split.
    { apply Forall_replicate. by exists [], [0]. }
    split; [done|].
    split.
    { apply Forall_fmap. eapply Forall_impl; [exact Hheads1|].
      intros path Hhead. simpl. split; [split; [by apply head_app_keep|apply last_snoc]|].
      rewrite length_app. simpl. destruct path; [done|simpl; lia]. }
    split; [apply NoDup_for_drone|].
    split.
    { intros c Hc. by rewrite visits_closed, Hperm1. }
    rewrite fleet_visits_depots, visits_closed, Hperm1. simpl.
    apply Permutation_app_comm. }
  { done. }
  apply bool_decide_eq_false in Hdone2.
  assert (D2D.dronable st2 = []) as Hnil2
    by (destruct (D2D.dronable st2); [done|simpl in Hdone2; lia]).
  rewrite Hnil2, app_nil_r in Hperm2. simpl.
  destruct (close_drones_ok _ Hfly) as (flights & -> & Hcount & Hflights & Hsame). simpl.
  pose proof (visits_retained _ Htrips) as Hkept.
  exists flights, (filter (λ path, (2 < length path)%nat) (D2D.technician_paths' st2)).
  split; [done|].
  split; [by rewrite Hcount|].
  split.
  { intros c Hc. rewrite occurrences_app, <- occurrences_fleet, <- occurrences_visits by lia.
    rewrite Hsame, Hkept, <- occurrences_app.
    rewrite (occurrences_Permutation c _ _ Hperm2).
    rewrite (occurrences_Permutation c _ _ everyone_split).
    apply occurrences_NoDup; [apply NoDup_everyone|by apply elem_of_everyone]. }
  split.
  { intros c Hc Hd.
    assert (Hin : c ∈ D2D.visits (D2D.technician_paths' st2)).
    { apply Hserved. rewrite set_of_members.
      apply list_elem_of_filter. split; [by rewrite Hd|by apply elem_of_everyone]. }
    rewrite <- Hkept in Hin. apply elem_of_visits in Hin as (_ & path & Hpath & Hcp). eauto. }
  split.
  { intros paths path Hpaths Hpath.
    rewrite Forall_forall in Hflights. specialize (Hflights paths Hpaths).
    rewrite Forall_forall in Hflights. by apply Hflights. }
  intros path Hpath. apply list_elem_of_filter in Hpath as [Hlong Hpath].
  rewrite Forall_forall in Htrips. split; [by apply Htrips|done].
Qed.

End Initial.

(** The problem of module [Field]: the drone takes the customers 1 and 3
    and is full, customer 4 goes to the technician, who has customer 2. *)
Lemma initial_routes_witness :
  ∃ drone_paths technician_paths,
    Field.routes Field.cls = Ok (drone_paths, technician_paths) ∧
    Field.initial Field.cls =
      D2D.__init__ Field.measure Field.cls drone_paths technician_paths ∧
    (∀ metrics, Field.measure Field.cls drone_paths technician_paths = Ok metrics →
       Field.initial Field.cls =
         Ok {| D2D.self_drone_paths := drone_paths;
               D2D.self_technician_paths := technician_paths;
               D2D.self_metrics := metrics |}) ∧
    (∀ solution, Field.initial Field.cls = Ok solution →
       D2D.self_drone_paths solution = drone_paths ∧
       D2D.self_technician_paths solution = technician_paths) ∧
    length drone_paths = Z.to_nat 1 ∧
    (∀ c, 1 ≤ c ≤ 4 →
          D2D.occurrences c (concat (concat drone_paths) ++ concat technician_paths) = 1%nat) ∧
    (∀ c, 1 ≤ c ≤ 4 → [true; true; false; true; true] !! Z.to_nat c = Some false →
          ∃ path, path ∈ technician_paths ∧ c ∈ path) ∧
    (∀ paths path, paths ∈ drone_paths → path ∈ paths → D2D.round_trip path) ∧
    (∀ path, path ∈ technician_paths → D2D.round_trip path ∧ (2 < length path)%nat).
Proof.
  apply (initial_routes 0 Z.add Z.sub Z.mul Field.fdiv Field.fsquare Z.sqrt Z.leb Z.ltb
           Field.slot Field.cls Field.measure 4 1 1 [0; 1; 2; 3; 4] [0; 0; 0; 0; 0] [0; 1; 1; 1; 1]
           [true; true; false; true; true] (D2D.VMode D2D.LINEAR)
           [Field.config] [Field.config] 100);
    try reflexivity; try (simpl; lia); try (intros; eexists; reflexivity).
  - intros config a Hin.
    assert (config = Field.config) as ->.
    { simpl in Hin. apply elem_of_cons in Hin as [->|Hin]; [done|].
      by apply list_elem_of_singleton in Hin. }
    unfold Field.fdiv. simpl. repeat split; eexists; reflexivity.
  - intros config w Hin.
    assert (config = Field.config) as ->.
    { simpl in Hin. apply elem_of_cons in Hin as [->|Hin]; [done|].
      by apply list_elem_of_singleton in Hin. }
    repeat split; eexists; reflexivity.
Defined.

(** C10, counterexample: the problem of module [Field] with its drone and
    without a technician.  Customer 2 can only be served by a technician;
    the cycle over no path has no next element, and [initial] raises
    [StopIteration] instead of returning a solution. *)
Lemma initial_raises_without_a_technician :
  Field.initial Field.unstaffed = Raise StopIteration.
Proof. reflexivity. Qed.

(** Without a technician, [initial] fails as soon as one customer can
    only be served by a technician, and, when there is no drone either, as
    soon as there is a customer at all: the cycle over the empty list of
    paths has no next element, and the [StopIteration] of [next] leaves
    [initial]. *)
Lemma initial_without_technicians {float TruckConfig DroneEnduranceConfig Metrics : Type}
    (fzero : float) (fadd fsub fmul : float → float → float)
    (fdiv : float → float → res float) (fsquare : float → res float) (fsqrt : float → float)
    (fle flt : float → float → bool) (slot : list Z → Z → Z)
    (cls : D2D.Namespace (float := float) (TruckConfig := TruckConfig)
             (DroneEnduranceConfig := DroneEnduranceConfig))
    (measure : D2D.Namespace (float := float) (TruckConfig := TruckConfig)
                 (DroneEnduranceConfig := DroneEnduranceConfig) →
               list (list (list Z)) → list (list Z) → res Metrics)
    (customers_count technicians_count drones_count : Z) (dronable : list bool) :
  cls !! "customers_count" = Some (D2D.VInt customers_count) →
  cls !! "technicians_count" = Some (D2D.VInt technicians_count) →
  cls !! "drones_count" = Some (D2D.VInt drones_count) →
  cls !! "dronable" = Some (D2D.VBools dronable) →
  Z.of_nat (length dronable) = customers_count + 1 →
  technicians_count ≤ 0 →
  1 ≤ customers_count →
  drones_count ≤ 0 ∨ (∃ c, 1 ≤ c ≤ customers_count ∧ dronable !! Z.to_nat c = Some false) →
  D2D.initial fzero fadd fsub fmul fdiv fsquare fsqrt fle flt slot measure cls =
    Raise StopIteration.
Proof.
  intros Hcount Htech Hdrones Hdronable Hlen Hnone Hsome Hcase.
  assert (Hrange : ∀ c, 1 ≤ c ≤ customers_count → c ∈ Py.range_from 1 (1 + customers_count)).
  { intros c Hc. unfold Py.range_from. apply list_elem_of_fmap. exists (Z.to_nat (c - 1)).
    split; [lia|]. apply elem_of_seq. lia. }
  assert (Hmembers : ∀ (keep : bool → bool) c,
            1 ≤ c ≤ customers_count →
            keep (default true (dronable !! Z.to_nat c)) = true →
            D2D.set_of slot
              (filter (λ e, keep (default true (dronable !! Z.to_nat e)) = true)
                 (Py.range_from 1 (1 + customers_count))) ≠ []).
  { intros keep c Hc Hkeep Hnil.
    assert (Hin : c ∈ D2D.set_of slot
                        (filter (λ e, keep (default true (dronable !! Z.to_nat e)) = true)
                           (Py.range_from 1 (1 + customers_count)))).
    { rewrite set_of_members.
      apply list_elem_of_filter. split; [done|by apply Hrange]. }
    rewrite Hnil in Hin. by apply elem_of_nil in Hin. }
  unfold D2D.initial, D2D.routes, D2D.attr_int, D2D.attr. rewrite Htech. simpl.
  rewrite (customers_ok slot cls customers_count [] [] [] dronable [] []
             Hcount Hdronable Hlen negb).
  cbn [mbind res_bind].
  replace (Z.to_nat technicians_count) with 0%nat by lia.
  destruct (D2D.set_of slot (filter _ _)) as [|c' only'] eqn:Honly; [|done].
  destruct Hcase as [Hnodrone|(c & Hc & Hfalse)].
  2:{ exfalso. apply (Hmembers negb c Hc); [by rewrite Hfalse|exact Honly]. }
  simpl. rewrite Hdrones. simpl.
  rewrite (customers_ok slot cls customers_count [] [] [] dronable [] []
             Hcount Hdronable Hlen id).
  cbn [mbind res_bind].
  replace (Z.to_nat drones_count) with 0%nat by lia.
  destruct (D2D.set_of slot (filter (λ e, id _ = true) _)) as [|c' all'] eqn:Hall.
  2:{ simpl. unfold D2D.drone_step. replace (Z.to_nat drones_count) with 0%nat by lia. done. }
  exfalso.
  destruct (default true (dronable !! Z.to_nat 1)) eqn:Hd.
  - apply (Hmembers id 1); [lia|by rewrite Hd|exact Hall].
  - apply (Hmembers negb 1); [lia|by rewrite Hd|exact Honly].
Qed.

Lemma initial_without_technicians_witness :
  Field.initial Field.grounded = Raise StopIteration.
Proof.
  apply (initial_without_technicians 0 Z.add Z.sub Z.mul Field.fdiv Field.fsquare Z.sqrt
           Z.leb Z.ltb Field.slot Field.grounded Field.measure 4 0 0
           [true; true; false; true; true]);
    first [reflexivity | lia].
Defined.

(** ** Arrival times and energy of the drones *)

(** A loop whose body keeps, on the element at each position, what holds
    of the elements before it, returns, and the same holds of all. *)
Lemma for_each_invariant {X S : Type} (inv : nat → S → Prop) (body : X → S → res S)
    (xs : list X) (s : S) :
  (∀ k x s, xs !! k = Some x → inv k s → ∃ s', body x s = Ok s' ∧ inv (Datatypes.S k) s') →
  inv 0%nat s →
  ∃ s', Py.for_each body xs s = Ok s' ∧ inv (length xs) s'.
Proof.
  revert inv s. induction xs as [|x xs IH]; intros inv s Hbody Hinv; [by exists s|].
  destruct (Hbody 0%nat x s eq_refl Hinv) as (s1 & Hs1 & Hinv1).
  simpl. rewrite Hs1. simpl.
  apply (IH (λ k, inv (Datatypes.S k))); [|done].
  intros k y s2 Hy. by apply Hbody.
Qed.

Lemma enumerate_lookup {A} (start : Z) (xs : list A) (k : nat) (item : Z * A) :
  Py.enumerate start xs !! k = Some item ↔
  item.1 = start + Z.of_nat k ∧ xs !! k = Some item.2.
Proof.
  unfold Py.enumerate. rewrite list_lookup_imap. destruct item as [i x].
  destruct (xs !! k) as [y|]; simpl; split.
  - by intros [= <- <-].
  - by intros [-> [= ->]].
  - done.
  - by intros [_ ?].
Qed.

Lemma length_enumerate {A} (start : Z) (xs : list A) :
  length (Py.enumerate start xs) = length xs.
Proof. apply length_imap. Qed.

(** What [mapM] over an enumeration returns, item by item. *)
Lemma mapM_enumerate {A B} (f : Z → A → res B) (R : A → B → Prop) (xs : list A) :
  (∀ k x, xs !! k = Some x → ∃ y, f (Z.of_nat k) x = Ok y ∧ R x y) →
  ∃ ys, mapM (λ item, f item.1 item.2) (Py.enumerate 0 xs) = Ok ys ∧ Forall2 R xs ys.
Proof.
  intros Hf.
  destruct (mapM_res_total (λ item, f item.1 item.2) (Py.enumerate 0 xs)) as [ys Hys].
  { intros item Hitem. apply list_elem_of_lookup in Hitem as [k Hk].
    apply enumerate_lookup in Hk as [-> Hk]. destruct (Hf k _ Hk) as (y & Hy & _). eauto. }
  exists ys. split; [done|].
  apply mapM_res_Forall2 in Hys.
  apply Forall2_same_length_lookup. split.
  - rewrite <- (Forall2_length _ _ _ Hys). by rewrite length_enumerate.
  - intros k x y Hx Hy.
    destruct (Forall2_lookup_r _ _ _ _ _ Hys Hy) as (item & Hitem & Hfy).
    apply enumerate_lookup in Hitem as [Hk Hitem].
    assert (item.2 = x) as Hx' by congruence.
    destruct (Hf k x Hx) as (y' & Hy' & HR).
    rewrite Hk, Hx', Z.add_0_l in Hfy. congruence.
Qed.

Lemma mapM_shape {A B} (f : A → res B) (R : A → B → Prop) (xs : list A) :
  (∀ x, x ∈ xs → ∃ y, f x = Ok y ∧ R x y) →
  ∃ ys, mapM f xs = Ok ys ∧ Forall2 R xs ys.
Proof.
  induction xs as [|x xs IH]; intros Hf; [by exists []|].
  destruct (Hf x) as (y & Hy & HR); [left|].
  destruct IH as (ys & Hys & HRs); [intros z Hz; apply Hf; by right|].
  exists (y :: ys). simpl. rewrite Hy. simpl. rewrite Hys. simpl.
  split; [done|]. by constructor.
Qed.

Section Timing.
Context {float TruckConfig DroneEnduranceConfig : Type}.
Variable fzero fone : float.
Variables fadd fsub fmul : float → float → float.
Variable fdiv : float → float → res float.
Variable fsquare : float → res float.
Variable fsqrt : float → float.
Variable cls : D2D.Namespace (float := float) (TruckConfig := TruckConfig)
                 (DroneEnduranceConfig := DroneEnduranceConfig).

(** The problem that the class holds, with [size] locations, and the
    flights of a solution. *)
Variable size : Z.
Variables x y demands drone_service_time : list float.
Variable energy_mode : D2D.Value (float := float) (TruckConfig := TruckConfig)
                         (DroneEnduranceConfig := DroneEnduranceConfig).
Variables linear nonlinear : list (D2D.DroneConfig (float := float)).
Variable drone_paths : list (list (list Z)).

Hypothesis x_set : cls !! "x" = Some (D2D.VFloats x).
Hypothesis y_set : cls !! "y" = Some (D2D.VFloats y).
Hypothesis demands_set : cls !! "demands" = Some (D2D.VFloats demands).
Hypothesis service_set : cls !! "drone_service_time" = Some (D2D.VFloats drone_service_time).
Hypothesis energy_mode_set : cls !! "energy_mode" = Some energy_mode.
Hypothesis linear_set : cls !! "drone_linear_config" = Some (D2D.VDrones linear).
Hypothesis nonlinear_set : cls !! "drone_nonlinear_config" = Some (D2D.VDrones nonlinear).

Hypothesis length_x : Z.of_nat (length x) = size.
Hypothesis length_y : Z.of_nat (length y) = size.
Hypothesis length_demands : Z.of_nat (length demands) = size.
Hypothesis length_service : Z.of_nat (length drone_service_time) = size.
(** Every drone of the solution has a configuration, ... *)
Hypothesis length_linear : (length drone_paths ≤ length linear)%nat.
Hypothesis length_nonlinear : (length drone_paths ≤ length nonlinear)%nat.
(** ... no drone has a speed by which a division raises, ... *)
Hypothesis speeds : ∀ config a, config ∈ linear ++ nonlinear →
  (∃ q, fdiv a (D2D.takeoff_speed config) = Ok q) ∧
  (∃ q, fdiv a (D2D.landing_speed config) = Ok q) ∧
  (∃ q, fdiv a (D2D.cruise_speed config) = Ok q).
(** ... whose power methods return, ... *)
Hypothesis powers : ∀ config w, config ∈ linear ++ nonlinear →
  (∃ p, D2D.takeoff_power config w = Ok p) ∧
  (∃ p, D2D.landing_power config w = Ok p) ∧
  (∃ p, D2D.cruise_power config w = Ok p).
(** ... no two locations are so far apart that the square of the
    difference of their coordinates is out of range, ... *)
Hypothesis squares_x : ∀ a b, a ∈ x → b ∈ x → ∃ s, fsquare (fsub a b) = Ok s.
Hypothesis squares_y : ∀ a b, a ∈ y → b ∈ y → ∃ s, fsquare (fsub a b) = Ok s.
(** ... and every stop is a location of the problem. *)
Hypothesis stops_in_range : ∀ paths path stop,
  paths ∈ drone_paths → path ∈ paths → stop ∈ path → 0 ≤ stop < size.

Local Abbreviation distance := (D2D.distance fadd fsub fsquare fsqrt cls).

Lemma distance_in_range (first second : Z) :
  0 ≤ first < size → 0 ≤ second < size → ∃ d, distance first second = Ok d.
Proof.
  intros Hf Hs. unfold D2D.distance, D2D.attr_floats, D2D.attr.
  rewrite x_set, y_set. simpl.
  destruct (lookup_lt_is_Some_2 x (Z.to_nat first)) as [x1 Hx1]; [lia|].
  destruct (lookup_lt_is_Some_2 x (Z.to_nat second)) as [x2 Hx2]; [lia|].
  destruct (lookup_lt_is_Some_2 y (Z.to_nat first)) as [y1 Hy1]; [lia|].
  destruct (lookup_lt_is_Some_2 y (Z.to_nat second)) as [y2 Hy2]; [lia|].
  rewrite (getitem_nat x first x1), (getitem_nat x second x2) by (done || lia). simpl.
  destruct (squares_x x1 x2) as [dx ->]; [by eapply list_elem_of_lookup_2..|]. simpl.
  rewrite (getitem_nat y first y1), (getitem_nat y second y2) by (done || lia). simpl.
  destruct (squares_y y1 y2) as [dy ->]; [by eapply list_elem_of_lookup_2..|]. simpl.
  eauto.
Qed.

Lemma drone_config_ok (k : nat) :
  (k < length drone_paths)%nat →
  ∃ config, D2D.drone_config cls (Z.of_nat k) = Ok config ∧ config ∈ linear ++ nonlinear.
Proof.
  intros Hk. unfold D2D.drone_config, D2D.attr_drones, D2D.attr.
  rewrite energy_mode_set. simpl.
  destruct (lookup_lt_is_Some_2 linear k) as [cl Hcl]; [lia|].
  destruct (lookup_lt_is_Some_2 nonlinear k) as [cn Hcn]; [lia|].
  assert (Hl : cl ∈ linear ++ nonlinear)
    by (apply elem_of_app; left; by eapply list_elem_of_lookup_2).
  assert (Hn : cn ∈ linear ++ nonlinear)
    by (apply elem_of_app; right; by eapply list_elem_of_lookup_2).
  destruct energy_mode as [| | | | | | |[]| | |];
    rewrite ?linear_set, ?nonlinear_set; simpl;
    first [rewrite (getitem_nat linear (Z.of_nat k) cl) by (lia || by rewrite Nat2Z.id)
          |rewrite (getitem_nat nonlinear (Z.of_nat k) cn) by (lia || by rewrite Nat2Z.id)];
    eauto.
Qed.

Local Abbreviation in_range := (λ last : option Z, ∀ l, last = Some l → 0 ≤ l < size).

Lemma arrive_ok (config : D2D.DroneConfig) (vertical_time : float) (index : Z)
    (clock : D2D.Clock) (arrival : list float) :
  config ∈ linear ++ nonlinear → 0 ≤ index < size → in_range (D2D.last_stop clock) →
  ∃ clock' t,
    D2D.arrive fadd fsub fdiv fsquare fsqrt cls config vertical_time index (clock, arrival) =
      Ok (clock', arrival ++ [t]) ∧
    in_range (D2D.last_stop clock') ∧
    (D2D.last_stop clock = None → t = D2D.timestamp clock).
Proof.
  intros Hconfig Hindex Hlast. unfold D2D.arrive.
  destruct (lookup_lt_is_Some_2 drone_service_time (Z.to_nat index)) as [service Hs]; [lia|].
  assert (Hservice : D2D.attr_floats cls "drone_service_time" ≫= (λ t, Py.getitem t index) =
                     Ok service).
  { unfold D2D.attr_floats, D2D.attr. rewrite service_set. simpl.
    apply getitem_nat; [lia|done]. }
  destruct (D2D.last_stop clock) as [last|] eqn:Hl.
  - destruct (distance_in_range last index) as [d Hd]; [by apply Hlast|done|].
    destruct (speeds config d Hconfig) as (_ & _ & cruise & Hcruise).
    rewrite Hd. simpl. rewrite Hcruise. simpl.
    unfold D2D.attr_floats, D2D.attr in *. rewrite service_set in *. simpl in *.
    rewrite Hservice. simpl. eexists _, _. split; [done|]. split; [|done].
    simpl. by intros l [= <-].
  - simpl. unfold D2D.attr_floats, D2D.attr in *. rewrite service_set in *. simpl in *.
    rewrite Hservice. simpl. eexists _, _. split; [done|]. split; [|done].
    simpl. by intros l [= <-].
Qed.

Lemma fly_ok (config : D2D.DroneConfig) (vertical_time : float) (path : list Z)
    (clock : D2D.Clock) (arrivals : list (list float)) :
  config ∈ linear ++ nonlinear → (∀ stop, stop ∈ path → 0 ≤ stop < size) →
  in_range (D2D.last_stop clock) →
  ∃ clock' arrival,
    D2D.fly fadd fsub fdiv fsquare fsqrt cls config vertical_time path (clock, arrivals) =
      Ok (clock', arrivals ++ [arrival]) ∧
    in_range (D2D.last_stop clock') ∧
    length arrival = length path ∧
    (D2D.last_stop clock = None → path ≠ [] → head arrival = Some (D2D.timestamp clock)).
Proof.
  intros Hconfig Hstops Hlast. unfold D2D.fly.
  destruct (for_each_invariant
              (λ k (st : D2D.Clock * list float),
                 in_range (D2D.last_stop st.1) ∧ length st.2 = k ∧
                 (k = 0%nat → st.1 = clock) ∧
                 (D2D.last_stop clock = None → k ≠ 0%nat →
                  head st.2 = Some (D2D.timestamp clock)))
              (D2D.arrive fadd fsub fdiv fsquare fsqrt cls config vertical_time)
              path (clock, [])) as ([clock' arrival] & -> & Hin & Hlen & _ & Hhead).
  - intros k stop [c a] Hstop (Hc & Ha & Hfirst & Hh). cbn [fst snd] in *.
    destruct (arrive_ok config vertical_time stop c a) as (c' & t & -> & Hc' & Ht);
      [done|apply Hstops; by eapply list_elem_of_lookup_2|done|].
    eexists. split; [done|]. cbn [fst snd]. split; [done|].
    split; [rewrite length_app; simpl; lia|]. split; [done|].
    intros Hnone _. destruct k as [|k].
    + destruct a; [|done]. rewrite (Hfirst eq_refl) in Ht. simpl. f_equal. by apply Ht.
    + destruct a as [|t0 a]; [done|]. simpl. apply Hh; [done|lia].
  - cbn [fst snd]. done.
  - cbn [fst snd] in *. simpl. eexists _, _. split; [done|]. split; [done|]. split; [done|].
    intros Hnone Hne. apply Hhead; [done|]. by destruct path.
Qed.

(** The timestamps of one drone: as many as stops, flight by flight, the
    first stop of the first flight at time [0.0]. *)
Local Abbreviation lined_up := (λ (paths : list (list Z)) (arrivals : list (list float)),
  Forall2 (λ path arrival, length arrival = length path) paths arrivals ∧
  ∀ path arrival, head paths = Some path → head arrivals = Some arrival → path ≠ [] →
                  head arrival = Some fzero).

Lemma drone_arrivals_ok (k : nat) (paths : list (list Z)) :
  drone_paths !! k = Some paths →
  ∃ arrivals,
    D2D.drone_arrivals fzero fadd fsub fmul fdiv fsquare fsqrt fone cls (Z.of_nat k) paths =
      Ok arrivals ∧
    lined_up paths arrivals.
Proof.
  intros Hk. unfold D2D.drone_arrivals.
  destruct (drone_config_ok k) as (config & -> & Hconfig); [by eapply lookup_lt_Some|].
  simpl.
  destruct (speeds config fone Hconfig) as ((takeoff & ->) & (landing & ->) & _). simpl.
  set (vertical_time := fmul _ _).
  set (clock := {| D2D.timestamp := fzero; D2D.last_stop := None |}).
  destruct (for_each_invariant
              (λ j (st : D2D.Clock * list (list float)),
                 in_range (D2D.last_stop st.1) ∧
                 Forall2 (λ path arrival, length arrival = length path) (take j paths) st.2 ∧
                 (j = 0%nat → st.1 = clock) ∧
                 (∀ path arrival, head paths = Some path → head st.2 = Some arrival →
                                  path ≠ [] → head arrival = Some fzero))
              (D2D.fly fadd fsub fdiv fsquare fsqrt cls config vertical_time)
              paths (clock, [])) as ([clock' arrivals] & -> & _ & Hshape & _ & Hzero).
  - intros j path [c a] Hpath (Hc & Ha & Hfirst & Hz). cbn [fst snd] in *.
    destruct (fly_ok config vertical_time path c a) as (c' & arrival & -> & Hc' & Hlen & Hhead);
      [done| |done|].
    { intros stop Hstop. apply (stops_in_range paths path stop); [|by eapply list_elem_of_lookup_2|done].
      by eapply list_elem_of_lookup_2. }
    eexists. split; [done|]. cbn [fst snd]. split; [done|].
    split.
    { rewrite (take_S_r _ _ _ Hpath). apply Forall2_app; [done|]. by constructor. }
    split; [done|].
    intros p t Hp Ht Hne. destruct j as [|j].
    + destruct a; [|by apply Forall2_nil_inv_l in Ha].
      simpl in Ht. injection Ht as <-.
      assert (p = path) as -> by (rewrite head_lookup in Hp; congruence).
      rewrite (Hfirst eq_refl) in Hhead. by apply Hhead.
    + pose proof (Forall2_length _ _ _ Ha) as Hl. rewrite length_take in Hl.
      apply lookup_lt_Some in Hpath.
      rewrite Nat.min_l in Hl by lia.
      destruct a as [|t0 a]; [done|].
      simpl in Ht. injection Ht as <-. by apply (Hz p).
  - cbn [fst snd]. split; [done|]. split; [constructor|]. done.
  - cbn [fst snd] in *. rewrite firstn_all in Hshape. exists arrivals. done.
Qed.

(** The flights of the drones of a solution whose stops are locations of
    the problem, no two of which are so far apart that the square of a
    difference of coordinates is out of range, and whose drones have a
    configuration with speeds that divide, have arrival times:
    [drone_arrival_timestamps] raises nothing and answers, for every flight
    of every drone, one timestamp per stop, the first stop of the first
    flight of each drone being reached at time [0.0]. *)
Lemma arrival_timestamps_line_up :
  ∃ result,
    D2D.drone_arrival_timestamps fzero fadd fsub fmul fdiv fsquare fsqrt fone cls drone_paths =
      Ok result ∧
    Forall2 lined_up drone_paths result.
Proof.
  unfold D2D.drone_arrival_timestamps.
  apply (mapM_enumerate
           (D2D.drone_arrivals fzero fadd fsub fmul fdiv fsquare fsqrt fone cls)
           lined_up drone_paths).
  intros k paths Hk. by apply drone_arrivals_ok.
Qed.

Lemma consume_ok (config : D2D.DroneConfig) (takeoff_time landing_time : float)
    (path : list Z) (k : nat) (index : Z) (weight : float) (consumption : list float) :
  config ∈ linear ++ nonlinear → (∀ stop, stop ∈ path → 0 ≤ stop < size) →
  path !! S k = Some index → consumption ≠ [] →
  ∃ weight' energy,
    D2D.consume fadd fsub fmul fdiv fsquare fsqrt cls config takeoff_time landing_time path
      (1 + Z.of_nat k, index) (weight, consumption) =
    Ok (weight', consumption ++ [energy]).
Proof.
  intros Hconfig Hstops Hindex Hne. unfold D2D.consume.
  destruct (lookup_lt_is_Some_2 path k) as [last Hlast];
    [apply lookup_lt_Some in Hindex; lia|].
  rewrite (getitem_nat path (1 + Z.of_nat k - 1) last)
    by (lia || by replace (Z.to_nat (1 + Z.of_nat k - 1)) with k by lia).
  simpl. unfold D2D.attr_floats, D2D.attr. rewrite demands_set. simpl.
  assert (Hl : 0 ≤ last < size) by (apply Hstops; by eapply list_elem_of_lookup_2).
  assert (Hi : 0 ≤ index < size) by (apply Hstops; by eapply list_elem_of_lookup_2).
  destruct (lookup_lt_is_Some_2 demands (Z.to_nat last)) as [demand Hdemand]; [lia|].
  rewrite (getitem_nat demands last demand) by (lia || done). simpl.
  destruct (distance_in_range last index Hl Hi) as [d Hd].
  unfold D2D.attr_floats, D2D.attr in Hd. rewrite Hd. simpl.
  destruct (speeds config d Hconfig) as (_ & _ & cruise_time & ->). simpl.
  destruct (powers config (fadd weight demand) Hconfig)
    as ([takeoff ->] & [landing ->] & [cruise ->]). simpl.
  destruct (list.last consumption) as [previous|] eqn:Hprev.
  - rewrite (getitem_last _ _ Hprev). simpl. eauto.
  - apply last_None in Hprev. done.
Qed.

(** The consumption of one flight: an entry [0.0] for the take-off from
    its first stop, and one entry for every further stop. *)
Local Abbreviation metered := (λ (path : list Z) (consumption : list float),
  length consumption = Nat.max 1 (length path) ∧ head consumption = Some fzero).

Lemma path_consumption_ok (config : D2D.DroneConfig) (takeoff_time landing_time : float)
    (path : list Z) :
  config ∈ linear ++ nonlinear → (∀ stop, stop ∈ path → 0 ≤ stop < size) →
  ∃ consumption,
    D2D.path_consumption fzero fadd fsub fmul fdiv fsquare fsqrt cls config
      takeoff_time landing_time path = Ok consumption ∧
    metered path consumption.
Proof.
  intros Hconfig Hstops. unfold D2D.path_consumption.
  destruct (for_each_invariant
              (λ k (st : float * list float),
                 length st.2 = S k ∧ head st.2 = Some fzero)
              (D2D.consume fadd fsub fmul fdiv fsquare fsqrt cls config
                 takeoff_time landing_time path)
              (Py.enumerate 1 (drop 1 path)) (fzero, [fzero]))
    as ([weight consumption] & -> & Hlen & Hhead).
  - intros k [i index] [w c] Hitem [Hc Hh]. cbn [fst snd] in *.
    apply enumerate_lookup in Hitem as [Hi Hindex]. cbn [fst snd] in *. subst i.
    rewrite lookup_drop in Hindex.
    destruct (consume_ok config takeoff_time landing_time path k index w c)
      as (w' & energy & ->); [done|done|done|by destruct c|].
    eexists. split; [done|]. cbn [fst snd]. rewrite length_app. simpl.
    split; [lia|]. by destruct c.
  - done.
  - cbn [fst snd] in *. simpl. exists consumption. split; [done|].
    rewrite length_enumerate, length_drop in Hlen. split; [lia|done].
Qed.

(** The flights of the drones of a solution whose stops are locations of
    the problem, no two of which are so far apart that the square of a
    difference of coordinates is out of range, and whose drones have a
    configuration with speeds that divide and power methods that return,
    have an energy consumption: [drone_energy_consumption] raises nothing
    and answers, for every flight of every drone, the entry [0.0]
    followed by one entry per stop after the first; a flight without stops
    has the entry [0.0] all the same. *)
Lemma energy_consumption_lines_up :
  ∃ result,
    D2D.drone_energy_consumption fzero fadd fsub fmul fdiv fsquare fsqrt cls drone_paths =
      Ok result ∧
    Forall2 (Forall2 metered) drone_paths result.
Proof.
  unfold D2D.drone_energy_consumption.
  apply (mapM_enumerate
           (D2D.drone_consumption fzero fadd fsub fmul fdiv fsquare fsqrt cls)
           (Forall2 metered) drone_paths).
  intros k paths Hk. unfold D2D.drone_consumption.
  destruct (drone_config_ok k) as (config & -> & Hconfig); [by eapply lookup_lt_Some|].
  simpl.
  destruct (speeds config (D2D.altitude config) Hconfig)
    as ((takeoff_time & ->) & (landing_time & ->) & _). simpl.
  apply mapM_shape. intros path Hpath. apply path_consumption_ok; [done|].
  intros stop Hstop. apply (stops_in_range paths path stop); [|done|done].
  by eapply list_elem_of_lookup_2.
Qed.

End Timing.

(** The flights that [initial] gives the drone of module [Field]. *)
Lemma arrival_timestamps_line_up_witness :
  ∃ result,
    Field.drone_arrival_timestamps Field.cls [[[0; 1; 3; 0]; [0; 0]]] = Ok result ∧
    Forall2 (λ (paths : list (list Z)) (arrivals : list (list Z)),
               Forall2 (λ path arrival, length arrival = length path) paths arrivals ∧
               ∀ path arrival, head paths = Some path → head arrivals = Some arrival →
                               path ≠ [] → head arrival = Some 0)
            [[[0; 1; 3; 0]; [0; 0]]] result.
Proof.
  apply (arrival_timestamps_line_up 0 1 Z.add Z.sub Z.mul Field.fdiv Field.fsquare Z.sqrt
           Field.cls 5 [0; 1; 2; 3; 4] [0; 0; 0; 0; 0] [0; 1; 1; 1; 1] [0; 6; 6; 6; 6]
           (D2D.VMode D2D.LINEAR) [Field.config] [Field.config]);
    try reflexivity; try (simpl; lia); try (intros; eexists; reflexivity).
  - intros config a Hin.
    assert (config = Field.config) as ->.
    { simpl in Hin. apply elem_of_cons in Hin as [->|Hin]; [done|].
      by apply list_elem_of_singleton in Hin. }
    unfold Field.fdiv. simpl. repeat split; eexists; reflexivity.
  - intros paths path stop Hpaths Hpath Hstop.
    apply list_elem_of_singleton in Hpaths as ->.
    apply elem_of_cons in Hpath as [->|Hpath];
      [|apply list_elem_of_singleton in Hpath as ->];
      repeat (apply elem_of_cons in Hstop as [->|Hstop]; [lia|]);
      by apply elem_of_nil in Hstop.
Defined.

Lemma energy_consumption_lines_up_witness :
  ∃ result,
    Field.drone_energy_consumption Field.cls [[[0; 1; 3; 0]; [0; 0]]] = Ok result ∧
    Forall2 (Forall2 (λ (path : list Z) (consumption : list Z),
                        length consumption = Nat.max 1 (length path) ∧
                        head consumption = Some 0))
            [[[0; 1; 3; 0]; [0; 0]]] result.
Proof.
  apply (energy_consumption_lines_up 0 Z.add Z.sub Z.mul Field.fdiv Field.fsquare Z.sqrt
           Field.cls 5 [0; 1; 2; 3; 4] [0; 0; 0; 0; 0] [0; 1; 1; 1; 1] [0; 6; 6; 6; 6]
           (D2D.VMode D2D.LINEAR) [Field.config] [Field.config]);
    try reflexivity; try (simpl; lia); try (intros; eexists; reflexivity).
  - intros config a Hin.
    assert (config = Field.config) as ->.
    { simpl in Hin. apply elem_of_cons in Hin as [->|Hin]; [done|].
      by apply list_elem_of_singleton in Hin. }
    unfold Field.fdiv. simpl. repeat split; eexists; reflexivity.
  - intros config w Hin.
    assert (config = Field.config) as ->.
    { simpl in Hin. apply elem_of_cons in Hin as [->|Hin]; [done|].
      by apply list_elem_of_singleton in Hin. }
    repeat split; eexists; reflexivity.
  - intros paths path stop Hpaths Hpath Hstop.
    apply list_elem_of_singleton in Hpaths as ->.
    apply elem_of_cons in Hpath as [->|Hpath];
      [|apply list_elem_of_singleton in Hpath as ->];
      repeat (apply elem_of_cons in Hstop as [->|Hstop]; [lia|]);
      by apply elem_of_nil in Hstop.
Defined.
